(** * Segmentation-Art: region extraction, mask geometry, layers and history

    A shallow embedding of the pixel-level code of the KonvaCanvas
    component ([extractRegion], [extractLassoSelection], the brush
    snapshot of [handleDrawMove]), of the mask helpers of [lib/api.ts]
    ([dilateMask], [applyGaussianBlur], [createImprovedMask], the retry
    loops of [detectObjects] and [contentAwareFill]) and of the document
    state of the SegmentArt component ([saveToHistory], [handleUndo],
    [handleRedo], [handleSegment], [mergeLayers],
    [handleContentAwareFill]).

    Pixel buffers are the [data] arrays of [ImageData] objects: flat lists
    of channel values, four per pixel, indexed as the source indexes them.
    JavaScript numbers that the source computes with [/], [*] and
    [Math.floor] are binary64 values, modelled with the reference
    semantics of [SpecFloat].

    The development also covers the mask bounding box and the local fills
    of [lib/api.ts] ([calculateBoundsFromMaskImage],
    [preFillTransparentAreas], [localContentAwareFill]), its rate limiter
    and [detectImageType], the dashed outline of a region mask, the PSD
    export ([createLayerMask], [createMaskCanvas], [exportToPsd]) and the
    remaining handlers of the SegmentArt component (upload, reset, zoom,
    layer toggles, [handleBgRemoval]). *)

From Stdlib Require Import ZArith List Bool Ascii String Lia.
From Stdlib Require Import Floats.SpecFloat.
From stdpp Require Import base tactics option list list_numbers gmap strings pretty.

Local Open Scope Z_scope.

(** ** JavaScript numbers (binary64) *)

Module JSNum.

Definition prec : Z := 53.
Definition emax : Z := 1024.

Definition num := spec_float.

Definition NaN : num := S754_nan.

(** An integer literal or an integer-valued property such as
    [canvas.width]; exact below 2^53. *)
Definition ofZ (z : Z) : num := binary_normalize prec emax z 0 false.

Definition add (a b : num) : num := SFadd prec emax a b.
Definition sub (a b : num) : num := SFsub prec emax a b.
Definition mul (a b : num) : num := SFmul prec emax a b.
Definition div (a b : num) : num := SFdiv prec emax a b.
Definition neg (a : num) : num := SFopp a.

Definition isNaN (a : num) : bool :=
  match a with S754_nan => true | _ => false end.

(** [a <= b] and [a >= b]; false as soon as an operand is NaN. *)
Definition leb (a b : num) : bool := SFleb a b.
Definition geb (a b : num) : bool := SFleb b a.

(** [Math.min(a, b)] *)
Definition min (a b : num) : num :=
  match SFcompare a b with
  | Some Lt => a
  | Some Gt => b
  | Some Eq => match a with S754_zero true => a | _ => b end
  | None => NaN
  end.

(** A value read from an array or an optional field, used as an operand:
    [undefined] converts to NaN. *)
Definition ofRead (o : option Z) : num :=
  match o with Some v => ofZ v | None => NaN end.

(** [Math.floor] followed by the use of the result as an integer; [None]
    when the number is NaN or infinite. *)
Definition floor (a : num) : option Z :=
  match a with
  | S754_zero _ => Some 0
  | S754_finite s m e =>
      let v := if s then Z.neg m else Z.pos m in
      Some (if 0 <=? e then v * 2 ^ e else v / 2 ^ (- e))
  | _ => None
  end.

(** Conversion performed by a store into a [Uint8ClampedArray]: NaN
    becomes 0, the value is clamped to [0, 255] and rounded to the nearest
    integer, ties to even. *)
Definition toUint8Clamp (a : num) : Z :=
  match a with
  | S754_nan => 0
  | S754_zero _ => 0
  | S754_infinity s => if s then 0 else 255
  | S754_finite true _ _ => 0
  | S754_finite false m e =>
      if 0 <=? e then Z.min 255 (Z.pos m * 2 ^ e)
      else
        let d := 2 ^ (- e) in
        let q := Z.pos m / d in
        let r := Z.pos m mod d in
        let rounded :=
          match 2 * r ?= d with
          | Lt => q
          | Gt => q + 1
          | Eq => if Z.even q then q else q + 1
          end in
        Z.min 255 rounded
  end.

End JSNum.


(** ** JavaScript strings, restricted to what the label tests use *)

Module JSString.

(** [String.prototype.toLowerCase] on the ASCII range; other bytes are
    left as they are. *)
Definition lowerChar (c : ascii) : ascii :=
  let n := nat_of_ascii c in
  if ((65 <=? n) && (n <=? 90))%nat then ascii_of_nat (n + 32) else c.

Fixpoint toLowerCase (s : string) : string :=
  match s with
  | EmptyString => EmptyString
  | String c t => String (lowerChar c) (toLowerCase t)
  end.

(** [s.includes(sub)]: [sub] occurs in [s] at some position. *)
Fixpoint includes (s sub : string) : bool :=
  String.prefix sub s ||
  match s with
  | EmptyString => false
  | String _ t => includes t sub
  end.

End JSString.

(** ** Typed arrays and [ImageData] *)

Module Buf.

(** [d[i]]: [None] stands for [undefined], the result of a read outside
    the array. *)
Definition get (d : list Z) (i : Z) : option Z :=
  if decide (0 ≤ i) then d !! Z.to_nat i else None.

(** [d[i] = v]: a store outside a typed array is ignored. *)
Definition set (d : list Z) (i v : Z) : list Z :=
  if decide (0 ≤ i) then <[Z.to_nat i := v]> d else d.

(** The zero-filled array of a fresh [ImageData] or
    [new Uint8ClampedArray(n)]. *)
Definition zeros (n : Z) : list Z := replicate (Z.to_nat n) 0.

(** [a > k] where [a] may be [undefined]: the comparison is then false. *)
Definition gt (a : option Z) (k : Z) : bool :=
  match a with Some v => k <? v | None => false end.

(** [a < k], false on [undefined]. *)
Definition lt (a : option Z) (k : Z) : bool :=
  match a with Some v => v <? k | None => false end.

End Buf.

Record ImageData := mkImageData {
  width : Z;
  height : Z;
  data : list Z
}.

(** The invariant the browser maintains for every [ImageData]: positive
    dimensions, four bytes per pixel. *)
Definition wfImageData (img : ImageData) : Prop :=
  0 < width img ∧ 0 < height img ∧
  Z.of_nat (length (data img)) = 4 * width img * height img ∧
  Forall (λ v, 0 ≤ v ≤ 255) (data img).

(** [for (let k = lo; k < lo + len; k++) s = body(s, k)] *)
Definition forRange {S : Type} (lo len : Z) (body : S → Z → S) (s : S) : S :=
  fold_left body (seqZ lo len) s.

(** Byte offset of pixel [(x, y)] in a buffer of row length [w]:
    [(y * w + x) * 4]. *)
Definition pixelIndex (w x y : Z) : Z := (y * w + x) * 4.

(** Channel [c] (0 red, 1 green, 2 blue, 3 alpha) of pixel [(x, y)]. *)
Definition channel (img : ImageData) (x y c : Z) : option Z :=
  Buf.get (data img) (pixelIndex (width img) x y + c).


(** Every pixel has alpha 255. *)
Definition fullyOpaque (img : ImageData) : Prop :=
  ∀ x y, 0 ≤ x < width img → 0 ≤ y < height img → channel img x y 3 = Some 255.

(** [for (let i = 0; i < len; i += 4) s = body(s, i)] *)
Definition forStep4 {S : Type} (len : Z) (body : S → Z → S) (s : S) : S :=
  fold_left body (Z.mul 4 <$> seqZ 0 ((len + 3) / 4)) s.

(** ** The KonvaCanvas component *)

Module KonvaCanvas.

Record Bounds := mkBounds {
  xmin : JSNum.num; ymin : JSNum.num; xmax : JSNum.num; ymax : JSNum.num
}.

Record DetectedRegion := mkDetectedRegion {
  label : string;
  mask : string;
  bounds : Bounds
}.

Record Position := mkPosition {
  pos_x : Z; pos_y : Z; pos_width : Z; pos_height : Z
}.

Record Size := mkSize { size_width : JSNum.num; size_height : JSNum.num }.

Record Point := mkPoint { px : JSNum.num; py : JSNum.num }.

Record Selection := mkSelection {
  startX : JSNum.num;
  startY : JSNum.num;
  points : option (list JSNum.num)
}.

Inductive Mode := select | rectangle | lasso | brush | circle | eraser.

Record BrushLine := mkBrushLine {
  line_points : list JSNum.num;
  line_color : string;
  line_size : JSNum.num;
  line_opacity : JSNum.num;
  line_mode : Mode
}.

(** Calls on a 2D context that build a path. *)
Inductive PathOp :=
| MoveTo (x y : JSNum.num)
| LineTo (x y : JSNum.num)
| ClosePath.

(** What the component hands to its owner, in call order. A data URL made
    by [canvas.toDataURL()] is represented by the size of the canvas and
    the pixels it holds. *)
Inductive Callback :=
| OnExtract (img : ImageData) (type : string) (position : option Position)
| OnImageUpdate (img : ImageData)
| OnHoverRegion (found : option nat)
| SetSelectionNull
| OnSelectionChange (hasSelection : bool)
| ConsoleError (msg : string)
| ConsoleWarn (msg : string)
| ThrowTypeError.

(** A canvas created by a handler: its size and what was drawn on it. *)
Inductive DrawOp :=
| FillWhitePath (path : list PathOp)        (* fillStyle = 'white'; beginPath(); ...; fill() *)
| FillBlackRect (x y w h : Z)               (* fillStyle = 'black'; fillRect(x, y, w, h) *)
| DrawBrushLayer (shown : list BrushLine) (dx dy : Z). (* drawImage(brush layer canvas, dx, dy) *)

Record Canvas := mkCanvas {
  canvasWidth : Z;
  canvasHeight : Z;
  drawn : list DrawOp
}.

(** Props and state read by the handlers. An [HTMLImageElement] is
    represented by its decoded pixels at its own size, which is what
    [drawImage] followed by [getImageData] returns for it. *)
Record Component := mkComponent {
  stageWidth : Z;                       (* props.width *)
  stageHeight : Z;                      (* props.height *)
  mode : Mode;
  imageElement : option ImageData;
  imageSize : Size;
  detectedRegions : list DetectedRegion;
  maskImages : gmap nat ImageData;
  selection : option Selection;
  lines : list BrushLine;
  isDrawing : bool;
  hasLastPoint : bool;
  hasCurrentLine : bool;
  hasBrushLayer : bool;                 (* brushLayerRef.current *)
  hasOnImageUpdate : bool;
  hasOnHoverRegion : bool;
  hasOnSelectionChange : bool
}.

(** The effect that computes [imageSize] once the image has loaded. *)
Definition displaySize (w h : Z) (img : ImageData) : Size :=
  let scale := JSNum.min (JSNum.div (JSNum.ofZ w) (JSNum.ofZ (width img)))
                         (JSNum.div (JSNum.ofZ h) (JSNum.ofZ (height img))) in
  mkSize (JSNum.mul (JSNum.ofZ (width img)) scale)
         (JSNum.mul (JSNum.ofZ (height img)) scale).

Definition getImagePosition (c : Component) : JSNum.num * JSNum.num :=
  (JSNum.div (JSNum.sub (JSNum.ofZ (stageWidth c)) (size_width (imageSize c))) (JSNum.ofZ 2),
   JSNum.div (JSNum.sub (JSNum.ofZ (stageHeight c)) (size_height (imageSize c))) (JSNum.ofZ 2)).

Definition isPointInImage (c : Component) (p : Point) : bool :=
  let '(offsetX, offsetY) := getImagePosition c in
  let x := JSNum.sub (px p) offsetX in
  let y := JSNum.sub (py p) offsetY in
  JSNum.geb x (JSNum.ofZ 0) && JSNum.leb x (size_width (imageSize c)) &&
  JSNum.geb y (JSNum.ofZ 0) && JSNum.leb y (size_height (imageSize c)).

(** *** extractRegion *)

(** The mask analysis loop: counts of cells with red > 128 and of the
    others. *)
Definition maskAnalysis (maskData : list Z) : Z * Z :=
  forStep4 (Z.of_nat (length maskData))
    (λ '(whitePixels, blackPixels) i,
       if Buf.gt (Buf.get maskData i) 128
       then (whitePixels + 1, blackPixels)
       else (whitePixels, blackPixels + 1))
    (0, 0).

Definition isBackgroundRegion (lbl : string) (whitePixels blackPixels : Z) : bool :=
  JSString.includes (JSString.toLowerCase lbl) "background" ||
  JSString.includes (JSString.toLowerCase lbl) "bg" ||
  (blackPixels * 3 <? whitePixels).

(** [Math.floor((x / originalWidth) * maskImg.width)], in binary64. *)
Definition maskCoord (x original maskSize : Z) : option Z :=
  JSNum.floor (JSNum.mul (JSNum.div (JSNum.ofZ x) (JSNum.ofZ original))
                         (JSNum.ofZ maskSize)).

(** [maskData.data[maskIdx]] for image pixel [(x, y)]. *)
Definition maskRead (maskData : ImageData) (originalWidth originalHeight x y : Z)
  : option Z :=
  match maskCoord x originalWidth (width maskData),
        maskCoord y originalHeight (height maskData) with
  | Some maskX, Some maskY =>
      Buf.get (data maskData) ((maskY * width maskData + maskX) * 4)
  | _, _ => None
  end.

(** First pass: the mask applied as alpha channel of the layer. *)
Definition applyMask (isBackground : bool) (maskData : ImageData)
    (originalWidth originalHeight : Z) (imageData : list Z) : list Z :=
  forRange 0 originalHeight (λ d y,
    forRange 0 originalWidth (λ d x,
      let imageIdx := pixelIndex originalWidth x y in
      let isWhite := Buf.gt (maskRead maskData originalWidth originalHeight x y) 128 in
      let shouldKeep := if isBackground then negb isWhite else isWhite in
      if negb shouldKeep then Buf.set d (imageIdx + 3) 0 else d) d) imageData.

(** Second pass: the region made transparent in the main image. *)
Definition removeRegion (maskData : ImageData)
    (originalWidth originalHeight : Z) (mainImageData : list Z) : list Z :=
  forRange 0 originalHeight (λ d y,
    forRange 0 originalWidth (λ d x,
      let imageIdx := pixelIndex originalWidth x y in
      let isWhite := Buf.gt (maskRead maskData originalWidth originalHeight x y) 200 in
      if isWhite then Buf.set d (imageIdx + 3) 0 else d) d) mainImageData.

Definition extractRegion (c : Component) (regionIndex : nat) : list Callback :=
  match detectedRegions c !! regionIndex, imageElement c, maskImages c !! regionIndex with
  | Some region, Some image, Some maskImg =>
      let originalWidth := width image in
      let originalHeight := height image in
      let '(whitePixels, blackPixels) := maskAnalysis (data maskImg) in
      let isBackground := isBackgroundRegion (label region) whitePixels blackPixels in
      let imageData := applyMask isBackground maskImg originalWidth originalHeight (data image) in
      OnExtract (mkImageData originalWidth originalHeight imageData) (label region)
                (Some (mkPosition 0 0 originalWidth originalHeight))
      :: (if hasOnImageUpdate c
          then [OnImageUpdate (mkImageData originalWidth originalHeight
                  (removeRegion maskImg originalWidth originalHeight (data image)))]
          else [])
  | _, _, _ => [ConsoleError "Cannot extract region: missing data"]
  end.

(** *** extractLassoSelection, handleDrawMove *)

Section Browser.

(** The rasterizer of the browser: the pixels [getImageData] reads back
    from a canvas, which are also the pixels [toDataURL] encodes. *)
Variable render : Canvas → list Z.

(** [points[i]] used as an operand. *)
Definition readPoint (pts : list JSNum.num) (i : nat) : JSNum.num :=
  default JSNum.NaN (pts !! i).

(** Display coordinates to coordinates of the original image:
    [(p - offset) * scale] with [scale = original / imageSize]. *)
Definition toOriginalX (c : Component) (image : ImageData) (p : JSNum.num) : JSNum.num :=
  let offsetX := (getImagePosition c).1 in
  let scaleX := JSNum.div (JSNum.ofZ (width image)) (size_width (imageSize c)) in
  JSNum.mul (JSNum.sub p offsetX) scaleX.

Definition toOriginalY (c : Component) (image : ImageData) (p : JSNum.num) : JSNum.num :=
  let offsetY := (getImagePosition c).2 in
  let scaleY := JSNum.div (JSNum.ofZ (height image)) (size_height (imageSize c)) in
  JSNum.mul (JSNum.sub p offsetY) scaleY.

(** The path loop [for (let i = 0; i < points.length; i += 2)] followed by
    [closePath()]. *)
Definition lassoPath (c : Component) (image : ImageData) (pts : list JSNum.num)
  : list PathOp :=
  fold_left (λ path i,
      let x := toOriginalX c image (readPoint pts i) in
      let y := toOriginalY c image (readPoint pts (i + 1)) in
      path ++ [if decide (i = 0%nat) then MoveTo x y else LineTo x y])
    ((λ k, 2 * k)%nat <$> seq 0 ((length pts + 1) / 2)) []
  ++ [ClosePath].

Definition lassoMaskCanvas (c : Component) (image : ImageData) (pts : list JSNum.num)
  : Canvas :=
  mkCanvas (width image) (height image) [FillWhitePath (lassoPath c image pts)].

(** [maskData.data[i] === 0] *)
Definition isZero (a : option Z) : bool :=
  match a with Some 0 => true | _ => false end.

Definition extractLassoSelection (c : Component) : list Callback :=
  match selection c with
  | None => []
  | Some sel =>
      match points sel, imageElement c with
      | Some pts, Some image =>
          let originalWidth := width image in
          let originalHeight := height image in
          let maskData := render (lassoMaskCanvas c image pts) in
          let imageData :=
            forStep4 (Z.of_nat (length (data image)))
              (λ d i, let maskAlpha := Buf.get maskData i in
                      if isZero maskAlpha then Buf.set d (i + 3) 0 else d)
              (data image) in
          OnExtract (mkImageData originalWidth originalHeight imageData) "Lasso Selection"
                    (Some (mkPosition 0 0 originalWidth originalHeight))
          :: (if hasOnImageUpdate c
              then
                let mainImageData :=
                  forStep4 (Z.of_nat (length (data image)))
                    (λ d i, let maskAlpha := Buf.get maskData i in
                            if Buf.gt maskAlpha 0 then Buf.set d (i + 3) 0 else d)
                    (data image) in
                [OnImageUpdate (mkImageData originalWidth originalHeight mainImageData)]
              else [])
          ++ SetSelectionNull
          :: (if hasOnSelectionChange c then [OnSelectionChange false] else [])
      | _, _ => []
      end
  end.

(** [window.extractLassoSelection], installed when the owner passes
    [onExtractSelection]. *)
Definition windowExtractLassoSelection (c : Component) : list Callback :=
  match selection c with
  | Some sel =>
      match points sel with
      | Some pts =>
          if (length pts <? 6)%nat then [ConsoleWarn "No valid lasso selection"]
          else extractLassoSelection c
      | None => [ConsoleWarn "No valid lasso selection"]
      end
  | None => [ConsoleWarn "No valid lasso selection"]
  end.

(** The mask canvas of the brush branch of [handleDrawMove]: the size of
    the stage, black, with the brush layer drawn over it. *)
Definition brushMaskCanvas (c : Component) : Canvas :=
  mkCanvas (stageWidth c) (stageHeight c)
    [FillBlackRect 0 0 (stageWidth c) (stageHeight c); DrawBrushLayer (lines c) 0 0].

(** The hover test of [handleDrawMove]: the last region whose mask is
    white (all of R, G, B > 200) under the pointer. *)
Definition hoveredAt (c : Component) (imageX imageY : JSNum.num) (i : nat) : bool :=
  match maskImages c !! i with
  | None => false
  | Some maskImg =>
      match JSNum.floor (JSNum.mul (JSNum.div imageX (size_width (imageSize c)))
                                   (JSNum.ofZ (width maskImg))),
            JSNum.floor (JSNum.mul (JSNum.div imageY (size_height (imageSize c)))
                                   (JSNum.ofZ (height maskImg))) with
      | Some maskX, Some maskY =>
          (0 <=? maskX) && (maskX <? width maskImg) &&
          (0 <=? maskY) && (maskY <? height maskImg) &&
          Buf.gt (channel maskImg maskX maskY 0) 200 &&
          Buf.gt (channel maskImg maskX maskY 1) 200 &&
          Buf.gt (channel maskImg maskX maskY 2) 200
      | _, _ => false
      end
  end.

Definition handleDrawMove (c : Component) (pos : option Point)
  : Component * list Callback :=
  match pos, imageElement c with
  | Some pos, Some _ =>
      if match mode c with select => true | _ => false end
         && (0 <? length (detectedRegions c))%nat
         && hasOnHoverRegion c
      then
        if negb (isPointInImage c pos) then (c, [OnHoverRegion None])
        else
          let '(offsetX, offsetY) := getImagePosition c in
          let imageX := JSNum.sub (px pos) offsetX in
          let imageY := JSNum.sub (py pos) offsetY in
          (c, [OnHoverRegion
                 (head (filter (λ i, hoveredAt c imageX imageY i = true)
                               (reverse (seq 0 (length (detectedRegions c))))))])
      else if negb (isDrawing c) || negb (hasLastPoint c) then (c, [])
      else if negb (isPointInImage c pos) then (c, [])
      else
        match mode c with
        | lasso =>
            match selection c with
            | Some sel =>
                match points sel with
                | Some pts =>
                    (mkComponent (stageWidth c) (stageHeight c) (mode c) (imageElement c)
                       (imageSize c) (detectedRegions c) (maskImages c)
                       (Some (mkSelection (startX sel) (startY sel)
                                (Some (pts ++ [px pos; py pos]))))
                       (lines c) (isDrawing c) (hasLastPoint c) (hasCurrentLine c)
                       (hasBrushLayer c) (hasOnImageUpdate c) (hasOnHoverRegion c)
                       (hasOnSelectionChange c), [])
                | None => (c, [])
                end
            | None => (c, [])
            end
        | brush | eraser =>
            if negb (hasCurrentLine c) then (c, [])
            else
              (* the snapshot shows the brush layer as last rendered, before
                 the update of [lines] queued here *)
              let snapshot :=
                if hasBrushLayer c
                then [OnExtract (mkImageData (stageWidth c) (stageHeight c)
                                   (render (brushMaskCanvas c))) "mask" None]
                else [] in
              match last (lines c) with
              | None =>
                  (* [lastLine.points] of [undefined]: the queued updater
                     throws when React runs it *)
                  (c, snapshot ++ [ThrowTypeError])
              | Some lastLine =>
                  let newLines :=
                    take (length (lines c) - 1) (lines c) ++
                    [mkBrushLine (line_points lastLine ++ [px pos; py pos])
                       (line_color lastLine) (line_size lastLine)
                       (line_opacity lastLine) (line_mode lastLine)] in
                  (mkComponent (stageWidth c) (stageHeight c) (mode c) (imageElement c)
                     (imageSize c) (detectedRegions c) (maskImages c) (selection c)
                     newLines (isDrawing c) (hasLastPoint c) (hasCurrentLine c)
                     (hasBrushLayer c) (hasOnImageUpdate c) (hasOnHoverRegion c)
                     (hasOnSelectionChange c), snapshot)
              end
        | _ => (c, [])
        end
  | _, _ => (c, [])
  end.

End Browser.

(** The image of the first [onExtract] call and of the first
    [onImageUpdate] call of a handler run. *)
Fixpoint extractedLayer (calls : list Callback) : option ImageData :=
  match calls with
  | [] => None
  | OnExtract img _ _ :: _ => Some img
  | _ :: rest => extractedLayer rest
  end.

Fixpoint updatedBase (calls : list Callback) : option ImageData :=
  match calls with
  | [] => None
  | OnImageUpdate img :: _ => Some img
  | _ :: rest => updatedBase rest
  end.





End KonvaCanvas.

(** ** Mask helpers of lib/api.ts *)

Module MaskOps.

(** [Math.max(a, b)] where an operand read outside an array is
    [undefined]: the result is then NaN, shown as [None]. *)
Definition mathMax (a b : option Z) : option Z :=
  match a, b with
  | Some x, Some y => Some (Z.max x y)
  | _, _ => None
  end.

(** Store of an integer or NaN into a [Uint8ClampedArray]. *)
Definition clampByte (a : option Z) : Z :=
  match a with
  | Some v => Z.max 0 (Z.min 255 v)
  | None => 0
  end.

(** *** dilateMask *)

(** The 3x3 scan around [(x, y)]: [maxValue] after the two inner loops. *)
Definition neighbourhoodMax (w h : Z) (current : list Z) (x y : Z) : option Z :=
  forRange (-1) 3 (λ maxValue dy,
    forRange (-1) 3 (λ maxValue dx,
      let nx := x + dx in
      let ny := y + dy in
      if (0 <=? nx) && (nx <? w) && (0 <=? ny) && (ny <? h)
      then mathMax maxValue (Buf.get current (pixelIndex w nx ny))
      else maxValue) maxValue) (Some 0).

(** One iteration: a fresh [ImageData] filled from [current]. *)
Definition dilateStep (w h : Z) (current : list Z) : list Z :=
  forRange 0 h (λ output y,
    forRange 0 w (λ output x,
      let idx := pixelIndex w x y in
      let maxValue := clampByte (neighbourhoodMax w h current x y) in
      Buf.set (Buf.set (Buf.set (Buf.set output idx maxValue)
                 (idx + 1) maxValue) (idx + 2) maxValue) (idx + 3) 255) output)
    (Buf.zeros (4 * w * h)).

(** [dilateMask(imageData, iterations)]; the source gives [iterations] the
    default 2 when the argument is omitted. *)
Definition dilateMask (imageData : ImageData) (iterations : Z) : ImageData :=
  let w := width imageData in
  let h := height imageData in
  mkImageData w h (forRange 0 iterations (λ current _, dilateStep w h current) (data imageData)).

(** *** applyGaussianBlur *)

Section Blur.

(** [Math.exp] is only specified up to an approximation for finite nonzero
    arguments; [expApprox] is that part of the engine. *)
Variable expApprox : JSNum.num → JSNum.num.

Definition Math_exp (x : JSNum.num) : JSNum.num :=
  match x with
  | S754_nan => JSNum.NaN
  | S754_zero _ => JSNum.ofZ 1
  | S754_infinity false => S754_infinity false
  | S754_infinity true => S754_zero false
  | S754_finite _ _ _ => expApprox x
  end.

(** The kernel loop and its normalisation. *)
Definition gaussianKernel (radius : Z) : list JSNum.num :=
  let sigma := JSNum.div (JSNum.ofZ radius) (JSNum.ofZ 3) in
  let '(kernel, kernelSum) :=
    forRange (- radius) (2 * radius + 1)
      (λ '(kernel, kernelSum) x,
         let value :=
           Math_exp (JSNum.div (JSNum.neg (JSNum.mul (JSNum.ofZ x) (JSNum.ofZ x)))
                               (JSNum.mul (JSNum.mul (JSNum.ofZ 2) sigma) sigma)) in
         (kernel ++ [value], JSNum.add kernelSum value))
      ([], JSNum.ofZ 0) in
  (λ v, JSNum.div v kernelSum) <$> kernel.

(** [kernel[i]] used as an operand. *)
Definition weightAt (kernel : list JSNum.num) (i : Z) : JSNum.num :=
  if decide (0 ≤ i) then default JSNum.NaN (kernel !! Z.to_nat i) else JSNum.NaN.

(** The innermost loop for one channel: the sum of [src[idx k + ch] * weight]
    over [k] from [-radius] to [radius]. *)
Definition weightedSum (src : list Z) (kernel : list JSNum.num) (radius : Z)
    (idx : Z → Z) (ch : Z) : JSNum.num :=
  forRange (- radius) (2 * radius + 1)
    (λ acc k,
       let weight := weightAt kernel (k + radius) in
       JSNum.add acc (JSNum.mul (JSNum.ofRead (Buf.get src (idx k + ch))) weight))
    (JSNum.ofZ 0).

(** One pass into a zero-filled byte buffer [dst]. *)
Definition blurPass (w h radius : Z) (kernel : list JSNum.num) (src dst : list Z)
    (tap : Z → Z → Z → Z) : list Z :=
  forRange 0 h (λ dst y,
    forRange 0 w (λ dst x,
      let sum := weightedSum src kernel radius (tap x y) in
      let idx := pixelIndex w x y in
      Buf.set (Buf.set (Buf.set (Buf.set dst idx (JSNum.toUint8Clamp (sum 0)))
                 (idx + 1) (JSNum.toUint8Clamp (sum 1)))
                 (idx + 2) (JSNum.toUint8Clamp (sum 2)))
                 (idx + 3) (JSNum.toUint8Clamp (sum 3))) dst) dst.

Definition applyGaussianBlur (imageData : ImageData) (radius : Z) : ImageData :=
  let w := width imageData in
  let h := height imageData in
  let kernel := gaussianKernel radius in
  (* horizontal pass *)
  let temp :=
    blurPass w h radius kernel (data imageData)
      (Buf.zeros (Z.of_nat (length (data imageData))))
      (λ x y kx, pixelIndex w (Z.min (Z.max (x + kx) 0) (w - 1)) y) in
  (* vertical pass *)
  let output :=
    blurPass w h radius kernel temp (Buf.zeros (4 * w * h))
      (λ x y ky, pixelIndex w x (Z.min (Z.max (y + ky) 0) (h - 1))) in
  mkImageData w h output.

(** *** createImprovedMask *)

(** The initial binary mask: white where alpha < 200, black elsewhere,
    opaque everywhere. *)
Definition binaryMask (imageData : ImageData) : ImageData :=
  let w := width imageData in
  let h := height imageData in
  mkImageData w h
    (forStep4 (Z.of_nat (length (data imageData)))
       (λ m i,
          let alpha := Buf.get (data imageData) (i + 3) in
          let isTransparent := Buf.lt alpha 200 in
          let m :=
            if isTransparent
            then Buf.set (Buf.set (Buf.set m i 255) (i + 1) 255) (i + 2) 255
            else Buf.set (Buf.set (Buf.set m i 0) (i + 1) 0) (i + 2) 0 in
          Buf.set m (i + 3) 255)
       (Buf.zeros (4 * w * h))).

(** [createImprovedMask({ imageData, featherRadius, expandPixels })]; an
    omitted parameter takes its default, 5 and 2. *)
Definition createImprovedMask (imageData : ImageData)
    (featherRadius expandPixels : option Z) : ImageData :=
  let featherRadius := default 5 featherRadius in
  let expandPixels := default 2 expandPixels in
  let maskData := binaryMask imageData in
  let processedMask :=
    if 0 <? expandPixels then dilateMask maskData expandPixels else maskData in
  if 0 <? featherRadius then applyGaussianBlur processedMask featherRadius
  else processedMask.

End Blur.

(** *** Vocabulary of the statements about these helpers *)

(** The value a four-channel store leaves at offset [k] of the pixel. *)
Definition pick (a b c e k : Z) : Z :=
  if k =? 0 then a else if k =? 1 then b else if k =? 2 then c else e.

(** The nine offsets in the order the two loops visit them. *)
Definition offsets3x3 : list (Z * Z) :=
  [(-1, -1); (0, -1); (1, -1); (-1, 0); (0, 0); (1, 0); (-1, 1); (0, 1); (1, 1)].

Definition inBounds (w h x y : Z) : bool :=
  (0 <=? x) && (x <? w) && (0 <=? y) && (y <? h).


End MaskOps.

(** ** The SegmentArt component: document state, history, layers *)

Module SegmentArt.

Record Layer := mkLayer {
  layer_id : string;
  layer_name : string;
  layer_url : string;
  layer_thumbnail : string;
  layer_visible : bool;
  layer_type : string;
  layer_x : Z;
  layer_y : Z;
  layer_width : Z;
  layer_height : Z
}.

Record HistoryState := mkHistoryState {
  hs_image : option string;
  hs_layers : list Layer
}.

Record Toast := mkToast {
  toast_title : string;
  toast_description : string;
  toast_destructive : bool
}.

(** The state hooks of the component that the handlers below read or set,
    and the toasts shown so far (most recent last). *)
Record State := mkState {
  uploadedImage : option string;
  layers : list Layer;
  history : list HistoryState;
  historyIndex : Z;
  selectedLayerIds : gset string;
  isMerging : bool;
  isFillingContent : bool;
  useLocalFill : bool;
  featherAmount : Z;
  maskExpandPixels : Z;
  autoPrompt : bool;
  contentFillPrompt : string;
  regionLabels : list string;          (* labels of detectedRegions *)
  dalleDebugData : option string;
  toasts : list Toast
}.

Definition setUploadedImage (v : option string) (st : State) : State :=
  mkState v (layers st) (history st) (historyIndex st) (selectedLayerIds st)
    (isMerging st) (isFillingContent st) (useLocalFill st) (featherAmount st)
    (maskExpandPixels st) (autoPrompt st) (contentFillPrompt st) (regionLabels st)
    (dalleDebugData st) (toasts st).

Definition setLayers (v : list Layer) (st : State) : State :=
  mkState (uploadedImage st) v (history st) (historyIndex st) (selectedLayerIds st)
    (isMerging st) (isFillingContent st) (useLocalFill st) (featherAmount st)
    (maskExpandPixels st) (autoPrompt st) (contentFillPrompt st) (regionLabels st)
    (dalleDebugData st) (toasts st).

Definition setHistory (v : list HistoryState) (st : State) : State :=
  mkState (uploadedImage st) (layers st) v (historyIndex st) (selectedLayerIds st)
    (isMerging st) (isFillingContent st) (useLocalFill st) (featherAmount st)
    (maskExpandPixels st) (autoPrompt st) (contentFillPrompt st) (regionLabels st)
    (dalleDebugData st) (toasts st).

Definition setHistoryIndex (v : Z) (st : State) : State :=
  mkState (uploadedImage st) (layers st) (history st) v (selectedLayerIds st)
    (isMerging st) (isFillingContent st) (useLocalFill st) (featherAmount st)
    (maskExpandPixels st) (autoPrompt st) (contentFillPrompt st) (regionLabels st)
    (dalleDebugData st) (toasts st).

Definition setSelectedLayerIds (v : gset string) (st : State) : State :=
  mkState (uploadedImage st) (layers st) (history st) (historyIndex st) v
    (isMerging st) (isFillingContent st) (useLocalFill st) (featherAmount st)
    (maskExpandPixels st) (autoPrompt st) (contentFillPrompt st) (regionLabels st)
    (dalleDebugData st) (toasts st).

Definition setIsMerging (v : bool) (st : State) : State :=
  mkState (uploadedImage st) (layers st) (history st) (historyIndex st)
    (selectedLayerIds st) v (isFillingContent st) (useLocalFill st) (featherAmount st)
    (maskExpandPixels st) (autoPrompt st) (contentFillPrompt st) (regionLabels st)
    (dalleDebugData st) (toasts st).

Definition setIsFillingContent (v : bool) (st : State) : State :=
  mkState (uploadedImage st) (layers st) (history st) (historyIndex st)
    (selectedLayerIds st) (isMerging st) v (useLocalFill st) (featherAmount st)
    (maskExpandPixels st) (autoPrompt st) (contentFillPrompt st) (regionLabels st)
    (dalleDebugData st) (toasts st).

Definition setDalleDebugData (v : option string) (st : State) : State :=
  mkState (uploadedImage st) (layers st) (history st) (historyIndex st)
    (selectedLayerIds st) (isMerging st) (isFillingContent st) (useLocalFill st)
    (featherAmount st) (maskExpandPixels st) (autoPrompt st) (contentFillPrompt st)
    (regionLabels st) v (toasts st).

Definition toast (title description : string) (destructive : bool) (st : State) : State :=
  mkState (uploadedImage st) (layers st) (history st) (historyIndex st)
    (selectedLayerIds st) (isMerging st) (isFillingContent st) (useLocalFill st)
    (featherAmount st) (maskExpandPixels st) (autoPrompt st) (contentFillPrompt st)
    (regionLabels st) (dalleDebugData st)
    (toasts st ++ [mkToast title description destructive]).

(** The document of the claims: the base image and the layer list. *)
Definition document (st : State) : option string * list Layer :=
  (uploadedImage st, layers st).

(** [l.slice(0, e)] *)
Definition slice0 {A : Type} (l : list A) (e : Z) : list A :=
  take (Z.to_nat (if e <? 0 then Z.max 0 (Z.of_nat (length l) + e) else e)) l.

(** *** History *)

(** [JSON.parse(JSON.stringify(layers))] of layers that hold strings,
    booleans and integers is a copy with equal contents. *)
Definition saveToHistory (st : State) : State :=
  let newState := mkHistoryState (uploadedImage st) (layers st) in
  let newHistory := slice0 (history st) (historyIndex st + 1) ++ [newState] in
  setHistoryIndex (Z.of_nat (length newHistory) - 1) (setHistory newHistory st).

(** A handler that reads [history[newIndex]]: [None] when that entry is
    [undefined] and the handler stops with a TypeError. *)
Definition handleUndo (st : State) : option State :=
  if 0 <? historyIndex st then
    let newIndex := historyIndex st - 1 in
    match history st !! Z.to_nat newIndex with
    | Some state =>
        Some (toast "Undo" "Reverted to previous state" false
                (setHistoryIndex newIndex
                   (setLayers (hs_layers state) (setUploadedImage (hs_image state) st))))
    | None => None
    end
  else Some st.

Definition handleRedo (st : State) : option State :=
  if historyIndex st <? Z.of_nat (length (history st)) - 1 then
    let newIndex := historyIndex st + 1 in
    if newIndex <? 0 then None
    else
      match history st !! Z.to_nat newIndex with
      | Some state =>
          Some (toast "Redo" "Restored next state" false
                  (setHistoryIndex newIndex
                     (setLayers (hs_layers state) (setUploadedImage (hs_image state) st))))
      | None => None
      end
  else Some st.

(** The effect that runs after an upload into an empty history. *)
Definition initHistory (st : State) : State :=
  match uploadedImage st, history st with
  | Some img, [] =>
      setHistoryIndex 0 (setHistory [mkHistoryState (Some img) []] st)
  | _, _ => st
  end.

Definition handleImageUpdate (dataUrl : string) (st : State) : State :=
  setUploadedImage (Some dataUrl) st.

(** [type.charAt(0).toUpperCase() + type.slice(1)] on ASCII. *)
Definition upperChar (c : ascii) : ascii :=
  let n := nat_of_ascii c in
  if ((97 <=? n) && (n <=? 122))%nat then ascii_of_nat (n - 32) else c.

Definition capitalize (s : string) : string :=
  match s with
  | EmptyString => EmptyString
  | String c t => String (upperChar c) t
  end.

(** [handleSegment(dataUrl, type, position)] at time [now = Date.now()];
    [position] is [(x, y, width, height)] when given. *)
Definition handleSegment (now : Z) (dataUrl type : string)
    (position : option (Z * Z * Z * Z)) (st : State) : State :=
  let st1 := saveToHistory st in
  let newLayer :=
    mkLayer ("layer-" +:+ pretty now)
            (capitalize type +:+ " " +:+ pretty (Z.of_nat (length (layers st)) + 1))
            dataUrl dataUrl true type
            (default 0 ((λ p, p.1.1.1) <$> position))
            (default 0 ((λ p, p.1.1.2) <$> position))
            (default 0 ((λ p, p.1.2) <$> position))
            (default 0 ((λ p, p.2) <$> position)) in
  toast "Layer Created" (layer_name newLayer +:+ " has been added to layers") false
    (setLayers (layers st1 ++ [newLayer]) st1).

(** One extraction as the canvas reports it: [onExtract] (wired to
    [handleSegment]) followed by [onImageUpdate]. *)
Definition extraction (now : Z) (layerUrl type : string)
    (position : option (Z * Z * Z * Z)) (newBase : string) (st : State) : State :=
  handleImageUpdate newBase (handleSegment now layerUrl type position st).

Definition deleteLayer (layerId : string) (st : State) : State :=
  let st1 := saveToHistory st in
  toast "Success" "Layer deleted successfully" false
    (setLayers (filter (λ l, layer_id l ≠ layerId) (layers st1)) st1).

(** *** mergeLayers *)

Section Merge.

(** The browser: the size of the image a URL decodes to ([None] when the
    image never fires [onload], so that the handler never resumes), and the
    data URL of a [w] x [h] canvas on which the images of the given URLs
    were drawn in order at (0, 0). *)
Variable imageSizeOf : string → option (Z * Z).
Variable flatten : Z → Z → list string → string.

Inductive MergeOutcome :=
| MergeDone (st : State)
| MergePending (st : State).     (* still awaiting an image; isMerging stays set *)

Definition mergeLayers (now : Z) (st : State) : MergeOutcome :=
  if (size (selectedLayerIds st) <? 2)%nat then
    MergeDone (toast "Select More Layers" "Please select at least 2 layers to merge" true st)
  else
    let st1 := saveToHistory (setIsMerging true st) in
    let selectedLayers := filter (λ l, layer_id l ∈ selectedLayerIds st) (layers st) in
    match selectedLayers with
    | [] =>
        (* selectedLayers[0].url throws; catch, then finally *)
        MergeDone (setIsMerging false
                     (toast "Error" "Cannot read properties of undefined (reading 'url')"
                        true st1))
    | first :: _ =>
        match imageSizeOf (layer_url first) with
        | None => MergePending st1
        | Some (w, h) =>
            if forallb (λ l, bool_decide (is_Some (imageSizeOf (layer_url l)))) selectedLayers
            then
              let mergedDataUrl := flatten w h (layer_url <$> selectedLayers) in
              let mergedLayer :=
                mkLayer ("layer-" +:+ pretty now)
                        ("Merged Layer " +:+ pretty (Z.of_nat (length (layers st)) + 1))
                        mergedDataUrl mergedDataUrl true "merged" 0 0 w h in
              MergeDone
                (setIsMerging false
                   (toast "Success"
                      ("Merged " +:+ pretty (Z.of_nat (length selectedLayers))
                       +:+ " layers into one") false
                      (setSelectedLayerIds ∅
                         (setLayers
                            (filter (λ l, layer_id l ∉ selectedLayerIds st) (layers st1)
                             ++ [mergedLayer]) st1))))
            else MergePending st1
        end
    end.

End Merge.

(** *** handleContentAwareFill *)

(** [s.trim()] for ASCII white space. *)
Definition isSpace (c : ascii) : bool :=
  let n := nat_of_ascii c in
  ((n =? 32) || ((9 <=? n) && (n <=? 13)))%nat.

Fixpoint trimStart (s : string) : string :=
  match s with
  | String c t => if isSpace c then trimStart t else s
  | EmptyString => EmptyString
  end.

Definition trim (s : string) : string :=
  String.rev (trimStart (String.rev (trimStart s))).

(** A string used as a condition. *)
Definition truthy (s : string) : bool :=
  match s with EmptyString => false | _ => true end.

Definition generateSmartPrompt (st : State) (hasFacialFeatures : bool) : string :=
  if negb (autoPrompt st) && truthy (trim (contentFillPrompt st)) then contentFillPrompt st
  else if hasFacialFeatures ||
          existsb (λ l, JSString.includes l "face" || JSString.includes l "eye" ||
                        JSString.includes l "nose" || JSString.includes l "mouth" ||
                        JSString.includes l "skin") (regionLabels st)
  then "smooth natural human skin, realistic skin texture, natural skin tone, seamless"
  else if truthy (trim (contentFillPrompt st)) then trim (contentFillPrompt st)
  else "natural texture matching surrounding area, seamless blend".

(** The transparency scan: some alpha byte is below 255. *)
Definition hasTransparency (pixels : list Z) : bool :=
  existsb (λ i, Buf.lt (Buf.get pixels i) 255)
          ((λ k, 4 * k + 3) <$> seqZ 0 (Z.of_nat (length pixels) / 4)).

Section Fill.

Variable expApprox : JSNum.num → JSNum.num.

(** What the handler awaits or asks of the browser:
    - the local fill of lib/api.ts: the filled data URL, or the message of
      its rejection;
    - the decoded base image ([None]: the image fails to load);
    - whether [getImageData] may read it;
    - whether [fetch(uploadedImage)] succeeds;
    - the remote fill: the result URL with its debug data, or the message
      of the error it throws. *)
Variable localContentAwareFill : string → string + string.
Variable loadImage : string → option ImageData.
Variable pixelsReadable : string → bool.
Variable fetchBlob : string → bool.
Variable contentAwareFill : string → ImageData → string → (string * option string) + string.

(** The [catch] and [finally] blocks. *)
Definition fillFailed (message : string) (st : State) : State :=
  setIsFillingContent false (toast "Error" message true st).

Definition handleContentAwareFill (st : State) : State :=
  match uploadedImage st with
  | None => toast "No Image" "Please upload an image first" true st
  | Some image =>
      let st0 := setIsFillingContent true st in
      if useLocalFill st then
        let st1 := toast "Processing"
                     "Filling with average color from surrounding pixels..." false st0 in
        match localContentAwareFill image with
        | inr message => fillFailed message st1
        | inl filledImageUrl =>
            (* saveToHistory() snapshots the image and layers of this render *)
            let saved := saveToHistory st in
            setIsFillingContent false
              (toast "Success!"
                 "Gaps filled with average surrounding color (instant, no AI)" false
                 (setUploadedImage (Some filledImageUrl)
                    (setHistoryIndex (historyIndex saved) (setHistory (history saved) st1))))
        end
      else
        let st1 := toast "Processing" "Analyzing transparent regions for AI fill..." false st0 in
        match loadImage image with
        | None => fillFailed "Failed to fill content" st1
        | Some imageData =>
            if negb (pixelsReadable image) then
              fillFailed "Cannot access image pixels - please download and re-upload the image to continue editing"
                (toast "Image Access Restricted"
                   "Cannot analyze this image due to browser security. Please download and re-upload the image to continue editing."
                   true st1)
            else if negb (hasTransparency (data imageData)) then
              setIsFillingContent false
                (toast "No Gaps Found" "The base layer has no transparent regions to fill"
                   true st1)
            else
              let improvedMaskData :=
                MaskOps.createImprovedMask expApprox imageData
                  (Some (featherAmount st)) (Some (maskExpandPixels st)) in
              let st2 := toast "AI Processing"
                "Filling transparent regions with AI inpainting (this may take a minute)..."
                false st1 in
              if negb (fetchBlob image) then
                fillFailed "Cannot fetch image - please download and re-upload to continue"
                  (toast "Cannot Access Image"
                     "Please download the current image and re-upload it to continue editing."
                     true st2)
              else
                let hasFacialFeatures := (0 <? length (regionLabels st))%nat in
                let smartPrompt := generateSmartPrompt st hasFacialFeatures in
                match contentAwareFill image improvedMaskData smartPrompt with
                | inr message => fillFailed message st2
                | inl (filledImageUrl, debugData) =>
                    let st3 := match debugData with
                               | Some d => setDalleDebugData (Some d) st2
                               | None => st2
                               end in
                    let saved := saveToHistory st in
                    setIsFillingContent false
                      (toast "Success - AI Fill Complete!"
                         "Gaps filled with matching colors. To continue editing, download this image and re-upload it."
                         false
                         (setUploadedImage (Some filledImageUrl)
                            (setHistoryIndex (historyIndex saved)
                               (setHistory (history saved) st3))))
                end
        end
  end.

End Fill.

(** Vocabulary of the statements about the fill handler. *)

(** The base image, the layers and the history of [st'] are those of [st]. *)
Definition sameDocumentAndHistory (st st' : State) : Prop :=
  uploadedImage st' = uploadedImage st ∧ layers st' = layers st ∧
  history st' = history st ∧ historyIndex st' = historyIndex st.

(** The base image of [st'] is new, and its history is the one
    [saveToHistory] builds from [st]: it ends with the snapshot of [st]. *)
Definition baseReplaced (st st' : State) : Prop :=
  ∃ url, uploadedImage st' = Some url ∧
         history st' = history (saveToHistory st) ∧
         historyIndex st' = historyIndex (saveToHistory st) ∧
         last (history st') = Some (mkHistoryState (uploadedImage st) (layers st)).

(** The last toast shown is a destructive one. *)
Definition endedOnError (st' : State) : Prop :=
  ∃ t, last (toasts st') = Some t ∧ toast_destructive t = true.

End SegmentArt.

(** ** Retry loops of lib/api.ts *)

Module Api.

(** The double-quote character. *)
Definition dquote : string := String (ascii_of_nat 34) EmptyString.

Definition maxRetries : nat := 3.          (* API_CONFIG.maxRetries *)
Definition retryDelay : Z := 1000.         (* API_CONFIG.retryDelay *)

(** What one pass through the [try] block ends with: a value returned to
    the caller, or an [Error] with its message caught by the loop. *)
Inductive Attempt (R : Type) :=
| Returned (r : R)
| Thrown (message : string).
Arguments Returned {R} r.
Arguments Thrown {R} message.

(** What the loop does that the outside sees. *)
Inductive Event :=
| Request (n : nat)          (* the n-th pass through the [try] block *)
| Delay (ms : Z).            (* [await delay(ms)] *)

(** The error thrown by [detectObjects] for a response that is not ok:
    [status] is [response.status] and [body] the parsed [error] field
    ([None]: the text is not JSON; [Some None]: JSON without [error]). A
    message thrown inside the inner [try] is caught by its own [catch],
    which classifies by status code; what that [catch] does not rethrow
    ends in the generic message. *)
Definition detectObjectsError (status : Z) (body : option (option string)) : string :=
  let byStatus :=
    if status =? 503 then Some "Model is currently loading, please wait a moment and try again"
    else if status =? 429 then Some "Rate limit exceeded, please wait before trying again"
    else if (status =? 401) || (status =? 403)
    then Some "Invalid Hugging Face API token. Please check your token configuration and ensure it has inference permissions."
    else None in
  match body with
  | Some (Some e) =>
      if JSString.includes e "loading" || JSString.includes e "rate limit" ||
         JSString.includes e "Rate limit" || JSString.includes e "unauthorized" ||
         JSString.includes e "Invalid token" || JSString.includes e "Invalid credentials"
      then default "Failed to detect objects" byStatus
      else e
  | Some None => "Failed to detect objects"
  | None => default "Failed to detect objects" byStatus
  end.

Section Loops.
Context {R : Type}.

(** The outcome of the n-th pass, n = 0, 1, 2, ... *)
Variable attempt : nat → Attempt R.

(** [while (retries > 0)] of [detectObjects], entered for pass [n]. *)
Fixpoint detectObjectsLoop (retries n : nat) (lastError : option string)
  : Attempt R * list Event :=
  match retries with
  | O => (Thrown (default "Failed to detect objects after multiple retries" lastError), [])
  | S retries' =>
      match attempt n with
      | Returned r => (Returned r, [Request n])
      | Thrown message =>
          if JSString.includes message "loading" && (1 <? retries)%nat then
            let '(res, evs) := detectObjectsLoop retries' (S n) (Some message) in
            (res, Request n :: Delay retryDelay :: evs)
          else if JSString.includes message "Rate limit" && (1 <? retries)%nat then
            let '(res, evs) := detectObjectsLoop retries' (S n) (Some message) in
            (res, Request n :: Delay retryDelay :: evs)
          else if (retries <=? 1)%nat then (Thrown message, [Request n])
          else
            let '(res, evs) := detectObjectsLoop retries' (S n) (Some message) in
            (res, Request n :: Delay retryDelay :: evs)
      end
  end.

Definition detectObjects (hfKeyValid : bool) : Attempt R * list Event :=
  if negb hfKeyValid then
    (Thrown ("Hugging Face API key is not configured or invalid. Please ensure it starts with "
             +:+ dquote +:+ "hf_" +:+ dquote +:+ " and has inference permissions."), [])
  else detectObjectsLoop maxRetries 0 None.

(** The [while (retries > 0)] loop with the [catch] block that
    [segmentImage] and [segmentLandscape] (with [slow = "loading"]) and
    [contentAwareFill] (with [slow = "rate limit"]) share: a message that
    contains [slow] doubles the delay, every other error is retried after
    [retryDelay] as long as [retries > 1]. *)
Fixpoint retryLoop (slow exhausted : string) (retries n : nat) (lastError : option string)
  : Attempt R * list Event :=
  match retries with
  | O => (Thrown (default exhausted lastError), [])
  | S retries' =>
      match attempt n with
      | Returned r => (Returned r, [Request n])
      | Thrown message =>
          if JSString.includes message slow && (1 <? retries)%nat then
            let '(res, evs) := retryLoop slow exhausted retries' (S n) (Some message) in
            (res, Request n :: Delay (retryDelay * 2) :: evs)
          else if (1 <? retries)%nat then
            let '(res, evs) := retryLoop slow exhausted retries' (S n) (Some message) in
            (res, Request n :: Delay retryDelay :: evs)
          else (Thrown message, [Request n])
      end
  end.

Definition contentAwareFill (openaiKeyValid : bool) : Attempt R * list Event :=
  if negb openaiKeyValid then
    (Thrown "OpenAI API key is not configured or invalid. Please check your .env file.", [])
  else retryLoop "rate limit" "Failed to fill transparent areas after multiple retries"
         maxRetries 0 None.

Definition segmentImage (hfKeyValid : bool) : Attempt R * list Event :=
  if negb hfKeyValid then
    (Thrown "Hugging Face API key is not configured or invalid", [])
  else retryLoop "loading" "Failed to segment image" maxRetries 0 None.

Definition segmentLandscape (hfKeyValid : bool) : Attempt R * list Event :=
  if negb hfKeyValid then
    (Thrown "Hugging Face API key is not configured or invalid", [])
  else retryLoop "loading" "Failed to segment landscape" maxRetries 0 None.

End Loops.

(** The delay [retryLoop] waits after an error with this message. *)
Definition delayAfter (slow message : string) : Z :=
  if JSString.includes message slow then retryDelay * 2 else retryDelay.

(** The events of a run whose passes [n], ..., [n + k - 1] failed with the
    messages [msg] and whose pass [n + k] ended the loop. *)
Definition runEvents (delay : string → Z) (msg : nat → string) (n k : nat) : list Event :=
  flat_map (λ j, [Request j; Delay (delay (msg j))]) (seq n k) ++ [Request (n + k)].

(** The passes and the delays of a run. *)
Definition requests (evs : list Event) : list nat :=
  omap (λ e, match e with Request n => Some n | Delay _ => None end) evs.

Definition delays (evs : list Event) : list Z :=
  omap (λ e, match e with Delay ms => Some ms | Request _ => None end) evs.

End Api.

(** ** Concrete inputs used by the examples *)

Module Fixtures.
Import KonvaCanvas.

(** [n] copies of one RGBA pixel. *)
Definition pixels (n : nat) (rgba : list Z) : list Z := concat (replicate n rgba).

Definition red8 : ImageData := mkImageData 8 8 (pixels 64 [255; 0; 0; 255]).

(** An 8x8 mask whose first six cells are black and the other 58 white. *)
Definition mask58 : ImageData :=
  mkImageData 8 8 (pixels 6 [0; 0; 0; 255] ++ pixels 58 [255; 255; 255; 255]).

Definition unitBounds : Bounds :=
  mkBounds (JSNum.ofZ 0) (JSNum.ofZ 0) (JSNum.ofZ 1) (JSNum.ofZ 1).

Definition wallComponent : Component :=
  {| stageWidth := 800; stageHeight := 600; mode := select;
     imageElement := Some red8;
     imageSize := displaySize 800 600 red8;
     detectedRegions := [mkDetectedRegion "background_wall" "" unitBounds];
     maskImages := {[ 0%nat := mask58 ]};
     selection := None; lines := [];
     isDrawing := false; hasLastPoint := false; hasCurrentLine := false;
     hasBrushLayer := true; hasOnImageUpdate := true;
hasOnHoverRegion := true; hasOnSelectionChange := true |}.

Definition red100 : ImageData :=
  mkImageData 100 100 (pixels (Z.to_nat 10000) [255; 0; 0; 255]).

(** A lasso dragged around the top-left quadrant of a 100x100 image shown
    at its own size on a 100x100 stage. *)
Definition quadrantPoints : list JSNum.num :=
  JSNum.ofZ <$> [0; 0; 50; 0; 50; 50; 0; 50].

Definition quadrantComponent : Component :=
  {| stageWidth := 100; stageHeight := 100; mode := lasso;
     imageElement := Some red100;
     imageSize := displaySize 100 100 red100;
     detectedRegions := []; maskImages := ∅;
     selection := Some (mkSelection (JSNum.ofZ 0) (JSNum.ofZ 0) (Some quadrantPoints));
     lines := [];
     isDrawing := false; hasLastPoint := false; hasCurrentLine := false;
     hasBrushLayer := true; hasOnImageUpdate := true;
     hasOnHoverRegion := true; hasOnSelectionChange := true |}.

(** A mask that is opaque white where [inside] holds and empty elsewhere. *)
Definition maskOf (w h : Z) (inside : Z → Z → bool) : list Z :=
  flat_map (λ p, if inside (p mod w) (p / w)
                 then [255; 255; 255; 255] else [0; 0; 0; 0])
           (seqZ 0 (w * h)).

Definition pathXs (path : list PathOp) : list Z :=
  omap (λ op, match op with
              | MoveTo x _ | LineTo x _ => JSNum.floor x
              | ClosePath => None
              end) path.

Definition pathYs (path : list PathOp) : list Z :=
  omap (λ op, match op with
              | MoveTo _ y | LineTo _ y => JSNum.floor y
              | ClosePath => None
              end) path.

Definition boxInside (path : list PathOp) (x y : Z) : bool :=
  (foldr Z.min (hd 0 (pathXs path)) (pathXs path) <=? x) &&
  (x <? foldr Z.max (hd 0 (pathXs path)) (pathXs path)) &&
  (foldr Z.min (hd 0 (pathYs path)) (pathYs path) <=? y) &&
  (y <? foldr Z.max (hd 0 (pathYs path)) (pathYs path)).

(** A rasterizer that is exact for rectangles with integer corners: a
    filled path covers the pixels of its bounding box. Any other canvas
    reads back empty. *)
Definition boxRender (cv : Canvas) : list Z :=
  match drawn cv with
  | [FillWhitePath path] => maskOf (canvasWidth cv) (canvasHeight cv) (boxInside path)
  | _ => Buf.zeros (4 * canvasWidth cv * canvasHeight cv)
  end.

(** A brush stroke in progress over an 8x8 image shown on an 800x600
    stage. *)
Definition brushComponent : Component :=
  {| stageWidth := 800; stageHeight := 600; mode := brush;
     imageElement := Some red8;
     imageSize := displaySize 800 600 red8;
     detectedRegions := []; maskImages := ∅;
     selection := None;
     lines := [mkBrushLine [JSNum.ofZ 390; JSNum.ofZ 300] "#ffffff"
                 (JSNum.ofZ 20) (JSNum.ofZ 1) brush];
     isDrawing := true; hasLastPoint := true; hasCurrentLine := true;
     hasBrushLayer := true; hasOnImageUpdate := true;
     hasOnHoverRegion := true; hasOnSelectionChange := true |}.

(** Two 2x2 images with the same (black) red channel; the first carries a
    mask in its alpha channel only. *)
Definition alphaMaskA : ImageData :=
  mkImageData 2 2 [0; 0; 0; 255;  0; 0; 0; 0;  0; 0; 0; 0;  0; 0; 0; 255].

Definition alphaMaskB : ImageData :=
  mkImageData 2 2 [0; 9; 9; 0;  0; 7; 0; 255;  0; 0; 3; 255;  0; 1; 1; 0].

(** One opaque white pixel. *)
Definition whitePixel : ImageData := mkImageData 1 1 [255; 255; 255; 255].

(** A stand-in for the approximated part of [Math.exp]. *)
Definition expOne (x : JSNum.num) : JSNum.num := JSNum.ofZ 1.

(** The state right after the upload of an image. *)
Definition freshState : SegmentArt.State :=
  SegmentArt.initHistory
    (SegmentArt.mkState (Some "data:image/png;base64,AAAA") [] [] (-1) ∅
       false false true 5 2 true "" [] None []).

(** Four layers, the two bottom ones selected for a merge. *)
Definition plainLayer (id : string) : SegmentArt.Layer :=
  SegmentArt.mkLayer id id ("data:" +:+ id) ("data:" +:+ id) true "mask" 0 0 100 100.

Definition mergeState : SegmentArt.State :=
  SegmentArt.mkState (Some "data:base")
    [plainLayer "a"; plainLayer "b"; plainLayer "c"; plainLayer "d"]
    [SegmentArt.mkHistoryState (Some "data:base") []] 0 {[ "a"; "b" ]}
    false false true 5 2 true "" [] None [].

Definition sizeAlways100 (url : string) : option (Z * Z) := Some (100, 100).

Definition flattenNames (w h : Z) (urls : list string) : string :=
  String.concat "+" urls.

(** A service that answers every request with the same HTTP error. *)
Definition alwaysStatus (status : Z) (n : nat) : Api.Attempt unit :=
  Api.Thrown (Api.detectObjectsError status None).

(** An inpainting service that is out of quota. *)
Definition alwaysQuota (n : nat) : Api.Attempt unit :=
  Api.Thrown "OpenAI quota exceeded. Please check your billing details.".

End Fixtures.

(** ** More of JavaScript's [Math] and comparisons *)

Module JSMath.

(** [a < b] and [a > b]; false as soon as an operand is NaN. *)
Definition ltb (a b : JSNum.num) : bool := SFltb a b.
Definition gtb (a b : JSNum.num) : bool := SFltb b a.

(** [Math.max(a, b)] *)
Definition max (a b : JSNum.num) : JSNum.num :=
  match SFcompare a b with
  | Some Lt => b
  | Some Gt => a
  | Some Eq => match a with S754_zero true => b | _ => a end
  | None => JSNum.NaN
  end.

(** [Math.PI], the binary64 value 0x400921FB54442D18. *)
Definition PI : JSNum.num := S754_finite false 7074237752028440 (-51).

(** [Math.floor] as a number: NaN and the infinities are returned as they
    are; the sign of a zero result is not tracked. *)
Definition floor (a : JSNum.num) : JSNum.num :=
  match a with
  | S754_finite _ _ _ =>
      match JSNum.floor a with Some z => JSNum.ofZ z | None => a end
  | _ => a
  end.

(** [Math.round]: the nearest integer, a tie going towards +infinity; the
    sign of a zero result is not tracked. *)
Definition round (a : JSNum.num) : JSNum.num :=
  match a with
  | S754_finite s m e =>
      if 0 <=? e then a
      else
        let n := if s then Z.neg m else Z.pos m in
        let d := 2 ^ (- e) in
        JSNum.ofZ ((2 * n + d) / (2 * d))
  | _ => a
  end.

(** A number used as an array index or compared with integer bounds: its
    value when it is an integer, [None] otherwise (NaN, an infinity, a
    fraction). *)
Definition toInteger (a : JSNum.num) : option Z :=
  match a with
  | S754_zero _ => Some 0
  | S754_finite s m e =>
      let v := if s then Z.neg m else Z.pos m in
      if 0 <=? e then Some (v * 2 ^ e)
      else if v mod 2 ^ (- e) =? 0 then Some (v / 2 ^ (- e)) else None
  | _ => None
  end.

End JSMath.

(** ** lib/api.ts: the bounding box of a mask *)

Module MaskBounds.
Import KonvaCanvas.

(** The variables of the scan of [calculateBoundsFromMaskImage]. *)
Record Scan := mkScan {
  scan_xmin : Z; scan_ymin : Z; scan_xmax : Z; scan_ymax : Z;
  hasPixels : bool
}.

(** The two loops over the pixels of the decoded mask. *)
Definition scanMask (img : ImageData) : Scan :=
  forRange 0 (height img) (λ s y,
    forRange 0 (width img) (λ s x,
      let i := pixelIndex (width img) x y in
      let alpha := Buf.get (data img) (i + 3) in
      if Buf.gt alpha 0
      then mkScan (Z.min (scan_xmin s) x) (Z.min (scan_ymin s) y)
                  (Z.max (scan_xmax s) x) (Z.max (scan_ymax s) y) true
      else s) s)
    (mkScan (width img) (height img) 0 0 false).

Definition fullBox : Bounds :=
  mkBounds (JSNum.ofZ 0) (JSNum.ofZ 0) (JSNum.ofZ 1) (JSNum.ofZ 1).

(** [calculateBoundsFromMaskImage(maskDataUrl)]: [decoded] is the image the
    URL decodes to ([None]: [onerror] fires), [hasContext] whether
    [getContext('2d')] gives a context. The promise always resolves. *)
Definition calculateBoundsFromMaskImage (decoded : option ImageData) (hasContext : bool)
  : Bounds :=
  match decoded with
  | None => fullBox
  | Some img =>
      if negb hasContext then fullBox
      else
        let s := scanMask img in
        if negb (hasPixels s) then fullBox
        else
          mkBounds (JSNum.div (JSNum.ofZ (scan_xmin s)) (JSNum.ofZ (width img)))
                   (JSNum.div (JSNum.ofZ (scan_ymin s)) (JSNum.ofZ (height img)))
                   (JSNum.div (JSNum.ofZ (scan_xmax s)) (JSNum.ofZ (width img)))
                   (JSNum.div (JSNum.ofZ (scan_ymax s)) (JSNum.ofZ (height img)))
  end.

(** The pixel [(x, y)] of [img] counts for the box: its alpha is above 0. *)
Definition marked (img : ImageData) (x y : Z) : Prop :=
  0 ≤ x < width img ∧ 0 ≤ y < height img ∧ Buf.gt (channel img x y 3) 0 = true.

End MaskBounds.

(** ** lib/api.ts: filling transparent pixels with the average colour *)

Module LocalFill.

Record Color := mkColor { col_r : option Z; col_g : option Z; col_b : option Z }.

(** The first pass of both fills: the offsets of the pixels with alpha
    below 200, in row-major order. *)
Definition transparentPixels (img : ImageData) : list Z :=
  forRange 0 (height img) (λ acc y,
    forRange 0 (width img) (λ acc x,
      let idx := pixelIndex (width img) x y in
      if Buf.lt (Buf.get (data img) (idx + 3)) 200 then acc ++ [idx] else acc) acc) [].

Section Trig.

(** [Math.cos] and [Math.sin] are implementation-approximated. *)
Variable Math_cos Math_sin : JSNum.num → JSNum.num.

(** The eight samples on the ring of one radius around the pixel at offset
    [idx]: the colours of those that fall inside the image on a pixel with
    alpha at least 200 are pushed. *)
Definition sampleRing (img : ImageData) (idx radius : Z) (colors : list Color)
  : list Color :=
  let w := width img in
  let x := (idx / 4) mod w in
  let y := JSMath.floor (JSNum.div (JSNum.ofZ (idx / 4)) (JSNum.ofZ w)) in
  forRange 0 8 (λ colors i,
    let angle := JSNum.div (JSNum.mul (JSNum.mul JSMath.PI (JSNum.ofZ 2)) (JSNum.ofZ i))
                           (JSNum.ofZ 8) in
    let sampleX := JSMath.round (JSNum.add (JSNum.ofZ x)
                                   (JSNum.mul (Math_cos angle) (JSNum.ofZ radius))) in
    let sampleY := JSMath.round (JSNum.add y
                                   (JSNum.mul (Math_sin angle) (JSNum.ofZ radius))) in
    match JSMath.toInteger sampleX, JSMath.toInteger sampleY with
    | Some sx, Some sy =>
        if (0 <=? sx) && (sx <? w) && (0 <=? sy) && (sy <? height img) then
          let sampleIdx := pixelIndex w sx sy in
          match Buf.get (data img) (sampleIdx + 3) with
          | Some sampleAlpha =>
              if 200 <=? sampleAlpha
              then colors ++ [mkColor (Buf.get (data img) sampleIdx)
                                      (Buf.get (data img) (sampleIdx + 1))
                                      (Buf.get (data img) (sampleIdx + 2))]
              else colors
          | None => colors
          end
        else colors
    | _, _ => colors
    end) colors.

(** [for (let radius = 3; radius <= 10; radius++) { ...;
    if (surroundingColors.length > 50) break; }] *)
Fixpoint sampleRings (img : ImageData) (idx : Z) (radii : list Z) (colors : list Color)
  : list Color :=
  match radii with
  | [] => colors
  | radius :: rest =>
      let colors := sampleRing img idx radius colors in
      if (50 <? length colors)%nat then colors else sampleRings img idx rest colors
  end.

Definition radii : list Z := seqZ 3 8.

(** The sampling loop over the given transparent pixels. *)
Definition surroundingColors (img : ImageData) (pixels : list Z) : list Color :=
  fold_left (λ colors idx, sampleRings img idx radii colors) pixels [].

(** [Math.round(colors.reduce((sum, c) => sum + c.r, 0) / colors.length)] *)
Definition average (channelOf : Color → option Z) (colors : list Color) : JSNum.num :=
  JSMath.round
    (JSNum.div (fold_left (λ sum c, JSNum.add sum (JSNum.ofRead (channelOf c)))
                          colors (JSNum.ofZ 0))
               (JSNum.ofZ (Z.of_nat (length colors)))).

(** The colour written into the gaps: white when nothing was sampled. *)
Definition fillColor (colors : list Color) : Z * Z * Z :=
  match colors with
  | [] => (255, 255, 255)
  | _ => (JSNum.toUint8Clamp (average col_r colors),
          JSNum.toUint8Clamp (average col_g colors),
          JSNum.toUint8Clamp (average col_b colors))
  end.

(** The last loop: every listed pixel gets the colour and alpha 255. *)
Definition paint (pixels : list Z) (color : Z * Z * Z) (d : list Z) : list Z :=
  fold_left (λ d idx,
      Buf.set (Buf.set (Buf.set (Buf.set d idx color.1.1) (idx + 1) color.1.2)
                 (idx + 2) color.2) (idx + 3) 255) pixels d.

(** [preFillTransparentAreas(imageData)]: at most the first 1000
    transparent pixels are sampled around. *)
Definition preFillTransparentAreas (imageData : ImageData) : ImageData :=
  let transparent := transparentPixels imageData in
  match transparent with
  | [] => mkImageData (width imageData) (height imageData) (data imageData)
  | _ =>
      let colors :=
        surroundingColors imageData
          (take (Nat.min 1000 (length transparent)) transparent) in
      mkImageData (width imageData) (height imageData)
        (paint transparent (fillColor colors) (data imageData))
  end.

(** The pixels [localContentAwareFill] puts back on its canvas when the
    image has transparent pixels. *)
Definition localFillPixels (img : ImageData) : ImageData :=
  let transparent := transparentPixels img in
  let colors := surroundingColors img transparent in
  mkImageData (width img) (height img) (paint transparent (fillColor colors) (data img)).

(** [localContentAwareFill(imageUrl)]: [loadImage] is the decoding of a URL
    by an [Image] ([None]: [onerror]), [toDataURL] the PNG encoding of a
    canvas. The result is the URL the promise resolves with, or the message
    of the error it rejects with. *)
Definition localContentAwareFill (loadImage : string → option ImageData)
    (hasContext : bool) (toDataURL : ImageData → string) (imageUrl : string)
  : string + string :=
  match loadImage imageUrl with
  | None => inr "Failed to load image"%string
  | Some img =>
      if negb hasContext then inr "Failed to get canvas context"%string
      else
        match transparentPixels img with
        | [] => inl imageUrl
        | _ => inl (toDataURL (localFillPixels img))
        end
  end.

End Trig.

(** A pixel the fills treat as a gap, and one they sample from. *)
Definition isGap (img : ImageData) (x y : Z) : bool :=
  Buf.lt (channel img x y 3) 200.

End LocalFill.

(** The pixels of a [w] x [h] image in the order a row-major pair of loops
    visits them. *)
Definition rowMajor (w h : Z) : list (Z * Z) :=
  y ← seqZ 0 h; x ← seqZ 0 w; [(x, y)].

(** ** KonvaCanvas: the dashed outline of a region mask *)

Module Outline.

(** [neighbors.some(n => n < 200)] over the top, bottom, left and right
    neighbours of [(x, y)]. *)
Definition hasBlackNeighbor (w : Z) (d : list Z) (x y : Z) : bool :=
  existsb (λ n, Buf.lt n 200)
    [Buf.get d (pixelIndex w x (y - 1));
     Buf.get d (pixelIndex w x (y + 1));
     Buf.get d (pixelIndex w (x - 1) y);
     Buf.get d (pixelIndex w (x + 1) y)].

(** The edge detection loops, over the pixels that are not on the border
    of the mask, into a zero-filled array of the length of the mask
    data. *)
Definition detectEdges (img : ImageData) : list Z :=
  let w := width img in
  let h := height img in
  forRange 1 (h - 2) (λ edgeData y,
    forRange 1 (w - 2) (λ edgeData x,
      let idx := pixelIndex w x y in
      let isWhite := Buf.gt (Buf.get (data img) idx) 200 in
      if isWhite then
        if hasBlackNeighbor w (data img) x y
        then Buf.set (Buf.set (Buf.set (Buf.set edgeData idx 0) (idx + 1) 150)
                        (idx + 2) 255) (idx + 3) 255
        else edgeData
      else edgeData) edgeData)
    (Buf.zeros (Z.of_nat (length (data img)))).

(** [Math.floor(x / 5) % 2 === 0] *)
Definition dashPattern (x : Z) : bool :=
  match JSNum.floor (JSNum.div (JSNum.ofZ x) (JSNum.ofZ 5)) with
  | Some q => q mod 2 =? 0
  | None => false
  end.

(** The dash loop; [x] is [(i / 4) % canvas.width]. *)
Definition applyDash (w : Z) (edgeData : list Z) : list Z :=
  forStep4 (Z.of_nat (length edgeData)) (λ e i,
      let x := (i / 4) mod w in
      if negb (dashPattern x) && Buf.gt (Buf.get e (i + 3)) 0
      then Buf.set e (i + 3) 0
      else e) edgeData.

(** The pixels of the outline image generated for a region mask. *)
Definition outlineImage (img : ImageData) : ImageData :=
  mkImageData (width img) (height img) (applyDash (width img) (detectEdges img)).

(** A pixel of the mask that the edge detection marks. *)
Definition isEdge (img : ImageData) (x y : Z) : bool :=
  (1 <=? x) && (x <? width img - 1) && (1 <=? y) && (y <? height img - 1) &&
  Buf.gt (channel img x y 0) 200 &&
  hasBlackNeighbor (width img) (data img) x y.

End Outline.

(** ** lib/psdExport.ts *)

Module PsdExport.

(** Conversion performed by a store into a [Uint8Array]. *)
Definition toUint8 (v : option Z) : Z :=
  match v with Some v => v mod 256 | None => 0 end.

Definition createLayerMask (imageData : ImageData) : list Z :=
  let n := width imageData * height imageData in
  forRange 0 n (λ mask i, Buf.set mask i (toUint8 (Buf.get (data imageData) (i * 4 + 3))))
    (Buf.zeros n).

(** The canvas [createMaskCanvas] returns, by its pixels. *)
Definition createMaskCanvas (mask : list Z) (w h : Z) : ImageData :=
  mkImageData w h
    (forRange 0 (Z.of_nat (length mask)) (λ d i,
       let value := MaskOps.clampByte (Buf.get mask i) in
       Buf.set (Buf.set (Buf.set (Buf.set d (i * 4) value) (i * 4 + 1) value)
                  (i * 4 + 2) value) (i * 4 + 3) 255)
       (Buf.zeros (4 * w * h))).

Record PsdMask := mkPsdMask {
  mask_canvas : ImageData;
  mask_left : Z; mask_top : Z; mask_right : Z; mask_bottom : Z;
  mask_defaultColor : Z;
  mask_disabled : bool;
  mask_positionRelativeToLayer : bool
}.

Record PsdLayer := mkPsdLayer {
  psd_name : string;
  psd_canvas : ImageData;
  psd_left : Z; psd_top : Z; psd_right : Z; psd_bottom : Z;
  psd_opacity : Z;
  psd_blendMode : string;
  psd_mask : option PsdMask
}.

Record Psd := mkPsd {
  psd_width : Z;
  psd_height : Z;
  children : list PsdLayer
}.

Section Exporter.

(** [dataUrlToImageData]: [None] when the promise rejects. *)
Variable dataUrlToImageData : string → option ImageData.

(** The [try] block of the loop over the layers: the PSD layer of a layer
    whose image loads. *)
Definition psdLayerOf (layer : SegmentArt.Layer) : option PsdLayer :=
  match dataUrlToImageData (SegmentArt.layer_url layer) with
  | None => None
  | Some layerImageData =>
      let mask := createLayerMask layerImageData in
      let x := SegmentArt.layer_x layer in
      let y := SegmentArt.layer_y layer in
      let right := x + SegmentArt.layer_width layer in
      let bottom := y + SegmentArt.layer_height layer in
      Some (mkPsdLayer (SegmentArt.layer_name layer) layerImageData
              x y right bottom
              (if SegmentArt.layer_visible layer then 255 else 0)
              "normal"
              (Some (mkPsdMask
                       (createMaskCanvas mask (width layerImageData) (height layerImageData))
                       x y right bottom 0 false true)))
  end.

(** [exportToPsd], up to the structure handed to [writePsd]; the error is
    the one the promise rejects with when the base image does not load. *)
Definition exportToPsd (baseImage : string) (layers : list SegmentArt.Layer)
    (canvasWidth canvasHeight : Z) : Psd + string :=
  match dataUrlToImageData baseImage with
  | None => inr "Failed to load image"%string
  | Some baseImageData =>
      let baseLayer :=
        mkPsdLayer "Base Image" baseImageData 0 0
          (width baseImageData) (height baseImageData) 255 "normal" None in
      inl (mkPsd canvasWidth canvasHeight
             (fold_left (λ children layer,
                  match psdLayerOf layer with
                  | Some psdLayer => children ++ [psdLayer]
                  | None => children        (* caught and logged *)
                  end) layers [baseLayer]))
  end.

End Exporter.

End PsdExport.

(** ** SegmentArt: the remaining handlers *)

Module Workspace.
Import SegmentArt.

Inductive ImageType := face | landscape.

(** The state hooks of the component: those of [State], and the ones the
    handlers below add to them. *)
Record Hooks := mkHooks {
  doc : State;
  selectionMode : KonvaCanvas.Mode;
  scale : JSNum.num;
  panOffset : Z * Z;
  bgRemovalPrompt : string;
  isProcessing : bool;
  isSegmenting : bool;
  imageType : option ImageType;
  isExportingPsd : bool
}.

Definition setDoc (v : State) (h : Hooks) : Hooks :=
  mkHooks v (selectionMode h) (scale h) (panOffset h) (bgRemovalPrompt h)
    (isProcessing h) (isSegmenting h) (imageType h) (isExportingPsd h).

Definition setScale (v : JSNum.num) (h : Hooks) : Hooks :=
  mkHooks (doc h) (selectionMode h) v (panOffset h) (bgRemovalPrompt h)
    (isProcessing h) (isSegmenting h) (imageType h) (isExportingPsd h).

Definition setIsProcessing (v : bool) (h : Hooks) : Hooks :=
  mkHooks (doc h) (selectionMode h) (scale h) (panOffset h) (bgRemovalPrompt h)
    v (isSegmenting h) (imageType h) (isExportingPsd h).

(** The values the hooks are created with. *)
Definition initialState : State :=
  mkState None [] [] (-1) ∅ false false true 5 2 true "" [] None [].

Definition initialHooks : Hooks :=
  mkHooks initialState KonvaCanvas.select (JSNum.ofZ 1) (0, 0) "" false false None false.

(** *** Layer toggles *)

Definition toggleLayerVisibility (layerId : string) (st : State) : State :=
  setLayers
    ((λ l, if decide (layer_id l = layerId)
           then mkLayer (layer_id l) (layer_name l) (layer_url l) (layer_thumbnail l)
                  (negb (layer_visible l)) (layer_type l)
                  (layer_x l) (layer_y l) (layer_width l) (layer_height l)
           else l) <$> layers st) st.

Definition toggleLayerSelection (layerId : string) (st : State) : State :=
  setSelectedLayerIds
    (if decide (layerId ∈ selectedLayerIds st)
     then selectedLayerIds st ∖ {[ layerId ]}
     else selectedLayerIds st ∪ {[ layerId ]}) st.

(** *** Zoom *)

Definition quarter : JSNum.num := JSNum.div (JSNum.ofZ 1) (JSNum.ofZ 4).     (* 0.25 *)
Definition half : JSNum.num := JSNum.div (JSNum.ofZ 1) (JSNum.ofZ 2).        (* 0.5 *)

Definition handleZoomIn (h : Hooks) : Hooks :=
  setScale (JSNum.min (JSNum.add (scale h) quarter) (JSNum.ofZ 3)) h.

Definition handleZoomOut (h : Hooks) : Hooks :=
  setScale (JSMath.max (JSNum.sub (scale h) quarter) half) h.

(** *** Upload and reset *)

(** [handleFileUpload]: [fileType] is [file.type], [readResult] what the
    [FileReader] delivers ([None]: [onerror]). *)
Definition handleFileUpload (fileType : string) (readResult : option string) (h : Hooks)
  : Hooks :=
  if negb (String.prefix "image/" fileType) then
    setDoc (toast "Error" "Please upload an image file" true (doc h)) h
  else
    match readResult with
    | None => setDoc (toast "Error" "Failed to read image file" true (doc h)) h
    | Some imageData =>
        if truthy imageData then
          setDoc (toast "Success"
                    "Image uploaded successfully. Click 'Detect Regions' to analyze objects."
                    false (setUploadedImage (Some imageData) (doc h))) h
        else h
    end.

Definition handleReset (h : Hooks) : Hooks :=
  let st := doc h in
  mkHooks
    (toast "Reset Complete" "All settings have been reset to default" false
       (mkState None [] [] (-1) (selectedLayerIds st) (isMerging st) (isFillingContent st)
          (useLocalFill st) 0 (maskExpandPixels st) (autoPrompt st) (contentFillPrompt st)
          [] (dalleDebugData st) (toasts st)))
    KonvaCanvas.select (JSNum.ofZ 1) (0, 0) "" false (isSegmenting h) None
    (isExportingPsd h).

(** *** What the user can do to the document, and the history effect *)

Inductive Action :=
| Upload (fileType : string) (readResult : option string)
| Extract (now : Z) (layerUrl type : string) (position : option (Z * Z * Z * Z))
          (newBase : option string)
| DeleteLayer (layerId : string)
| ToggleVisibility (layerId : string)
| ToggleSelection (layerId : string)
| Undo
| Redo
| Reset
| ZoomIn
| ZoomOut.

(** The handler an action runs; [None] when the handler stops on a
    TypeError. *)
Definition handler (a : Action) (h : Hooks) : option Hooks :=
  match a with
  | Upload fileType readResult => Some (handleFileUpload fileType readResult h)
  | Extract now layerUrl type position newBase =>
      let st := handleSegment now layerUrl type position (doc h) in
      Some (setDoc (match newBase with
                    | Some url => handleImageUpdate url st
                    | None => st
                    end) h)
  | DeleteLayer layerId => Some (setDoc (deleteLayer layerId (doc h)) h)
  | ToggleVisibility layerId => Some (setDoc (toggleLayerVisibility layerId (doc h)) h)
  | ToggleSelection layerId => Some (setDoc (toggleLayerSelection layerId (doc h)) h)
  | Undo => (λ st, setDoc st h) <$> handleUndo (doc h)
  | Redo => (λ st, setDoc st h) <$> handleRedo (doc h)
  | Reset => Some (handleReset h)
  | ZoomIn => Some (handleZoomIn h)
  | ZoomOut => Some (handleZoomOut h)
  end.

(** A handler followed by the effect that initialises the history. *)
Definition act (a : Action) (h : Hooks) : option Hooks :=
  (λ h', setDoc (initHistory (doc h')) h') <$> handler a h.

Fixpoint run (actions : list Action) (h : Hooks) : option Hooks :=
  match actions with
  | [] => Some h
  | a :: rest => match act a h with Some h' => run rest h' | None => None end
  end.

(** The history index points at an entry of the history, or is -1 when
    the history is empty. *)
Definition historyInRange (st : State) : Prop :=
  -1 ≤ historyIndex st < Z.of_nat (length (history st)).

(** The eleven zoom levels. *)
Definition zoomLevel (k : Z) : JSNum.num := JSNum.div (JSNum.ofZ k) (JSNum.ofZ 4).

(** *** Prompt segmentation *)

(** [s.replace(pat, rep)] with a string pattern: the first occurrence. *)
Fixpoint replaceFirst (pat rep s : string) : string :=
  if String.prefix pat s then rep +:+ String.substring (String.length pat)
                                       (String.length s - String.length pat) s
  else
    match s with
    | EmptyString => EmptyString
    | String c t => String c (replaceFirst pat rep t)
    end.

Definition FEATURE_GROUPS : list (string * list string) :=
  [("eyes", ["l_eye"; "r_eye"]);
   ("eye", ["l_eye"; "r_eye"]);
   ("eyebrows", ["l_brow"; "r_brow"]);
   ("eyebrow", ["l_brow"; "r_brow"]);
   ("brows", ["l_brow"; "r_brow"]);
   ("brow", ["l_brow"; "r_brow"]);
   ("ears", ["l_ear"; "r_ear"]);
   ("ear", ["l_ear"; "r_ear"]);
   ("lips", ["u_lip"; "l_lip"]);
   ("lip", ["u_lip"; "l_lip"]);
   ("mouth", ["mouth"; "u_lip"; "l_lip"]);
   ("face", ["skin"; "nose"; "l_eye"; "r_eye"; "l_brow"; "r_brow"; "l_ear"; "r_ear";
             "mouth"; "u_lip"; "l_lip"]);
   ("facial features", ["nose"; "l_eye"; "r_eye"; "l_brow"; "r_brow"; "mouth"]);
   ("nose", ["nose"]);
   ("hair", ["hair"]);
   ("neck", ["neck"]);
   ("cloth", ["cloth"]);
   ("clothes", ["cloth"]);
   ("clothing", ["cloth"]);
   ("skin", ["skin"]);
   ("head", ["skin"; "nose"; "l_eye"; "r_eye"; "l_brow"; "r_brow"; "l_ear"; "r_ear";
             "mouth"; "u_lip"; "l_lip"; "hair"])]%string.

(** What the language model answers to [parseSegmentationPrompt]. *)
Inductive PromptReply :=
| ReplyUnusable                (* the request fails, the response is not ok,
                                  or its content has no [labels] array *)
| ReplyLabels (labels : list string) (confidence : option string).

(** [parseSegmentationPrompt(userPrompt, availableLabels)], for the reply
    the prompt gets: the labels and the confidence of the result. *)
Definition parseSegmentationPrompt (openaiKeyValid : bool) (reply : PromptReply)
    (availableLabels : list string) : list string * string :=
  if negb openaiKeyValid then ([], "fallback"%string)
  else
    match reply with
    | ReplyUnusable => ([], "fallback"%string)
    | ReplyLabels labels confidence =>
        (filter (λ label, label ∈ availableLabels) labels,
         default "medium"%string confidence)
    end.

(** The keyword step: the labels added to [regionsToSegment]. *)
Definition keywordLabels (prompt : string) (regionLabels : list string) : list string :=
  flat_map (λ '(keyword, labels),
              if JSString.includes prompt keyword then labels else [])
           FEATURE_GROUPS
  ++ filter (λ label,
       let regionLabel := JSString.toLowerCase label in
       JSString.includes prompt regionLabel = true ∨
       JSString.includes prompt (replaceFirst "_" " " regionLabel) = true ∨
       JSString.includes prompt (replaceFirst "_" "" regionLabel) = true)
     regionLabels.

(** [regionsToSegment] once the prompt is understood. *)
Definition regionsToSegment (openaiKeyValid : bool) (reply : PromptReply)
    (prompt : string) (regionLabels : list string) : list string :=
  let aiResult := parseSegmentationPrompt openaiKeyValid reply regionLabels in
  if negb (String.eqb aiResult.2 "fallback") && (0 <? length aiResult.1)%nat
  then aiResult.1
  else keywordLabels prompt regionLabels.

(** [handleBgRemoval]: the new hooks and the indices sent with the
    'segmentRegion' events, in order. *)
Definition handleBgRemoval (openaiKeyValid : bool) (reply : PromptReply) (h : Hooks)
  : Hooks * list nat :=
  let st := doc h in
  if negb (from_option truthy false (uploadedImage st))
     || negb (truthy (trim (bgRemovalPrompt h)))
  then (setDoc (toast "Error" "Please enter what you want to extract" true st) h, [])
  else if (length (regionLabels st) =? 0)%nat
  then (setDoc (toast "No Regions Detected"
                  "Please wait for region detection to complete or upload a face image"
                  true st) h, [])
  else
    let prompt := trim (JSString.toLowerCase (bgRemovalPrompt h)) in
    let aiResult := parseSegmentationPrompt openaiKeyValid reply (regionLabels st) in
    let usesAi := negb (String.eqb aiResult.2 "fallback") && (0 <? length aiResult.1)%nat in
    let wanted := regionsToSegment openaiKeyValid reply prompt (regionLabels st) in
    let st1 :=
      if usesAi
      then toast "AI Understanding"
             ("Understanding your request with " +:+ aiResult.2 +:+ " confidence...")
             false st
      else st in
    let matchedRegions :=
      filter (λ '(_, label), label ∈ wanted) (imap (λ i label, (i, label)) (regionLabels st)) in
    match matchedRegions with
    | [] =>
        (setIsProcessing false
           (setDoc (toast "No Matches Found"
                      "Could not find features matching your description. Try: eyes, nose, face, hair, etc."
                      true st1) h), [])
    | _ =>
        let saved := saveToHistory st in
        let st2 := setHistoryIndex (historyIndex saved) (setHistory (history saved) st1) in
        (setIsProcessing false
           (setDoc (toast "Success"
                      ("Segmented " +:+ pretty (Z.of_nat (length matchedRegions))
                       +:+ " feature(s): "
                       +:+ String.concat ", "
                             ((λ '(_, label), replaceFirst "_" " " label) <$> matchedRegions))
                      false st2) h),
         fst <$> matchedRegions)
    end.

End Workspace.

(** ** lib/api.ts: the rate limiter *)

Module RateLimit.

Definition maxRequestsPerMinute : nat := 20.   (* API_CONFIG.maxRequestsPerMinute *)
Definition requestWindow : Z := 60000.         (* API_CONFIG.requestWindow *)
Definition pause : Z := 5000.                  (* the [setTimeout] of the wait *)

(** [API_CONFIG.requests], and the number of times [Date.now()] has been
    read so far. *)
Record Limiter := mkLimiter { requests : list Z; tick : nat }.

(** The requests recorded in the window of one minute that ends at [T]. *)
Definition inWindow (T : Z) (times : list Z) : list Z :=
  filter (λ time, T - requestWindow < time ∧ time ≤ T) times.

Section Clock.

(** What [Date.now()] returns at its k-th reading. *)
Variable clock : nat → Z.

Definition canMakeRequest (s : Limiter) : bool * Limiter :=
  let now := clock (tick s) in
  let kept := filter (λ time, now - time < requestWindow) (requests s) in
  ((length kept <? maxRequestsPerMinute)%nat, mkLimiter kept (S (tick s))).

Definition addRequest (s : Limiter) : Limiter :=
  mkLimiter (requests s ++ [clock (tick s)]) (S (tick s)).

(** [while (!canMakeRequest()) { await ...5000 }]: the state the loop is
    left in and the number of pauses it made; [None] when [fuel] tests do
    not end it. *)
Fixpoint waitForRateLimit (fuel : nat) (s : Limiter) : option (Limiter * nat) :=
  match fuel with
  | O => None
  | S fuel =>
      let '(ok, s) := canMakeRequest s in
      if ok then Some (s, O)
      else
        match waitForRateLimit fuel s with
        | Some (s, pauses) => Some (s, S pauses)
        | None => None
        end
  end.

(** [await waitForRateLimit(); addRequest();], the two lines every request
    of the module starts with: the new state and the time recorded for the
    request. *)
Definition guardedRequest (fuel : nat) (s : Limiter) : option (Limiter * Z) :=
  match waitForRateLimit fuel s with
  | Some (s, _) => Some (addRequest s, clock (tick s))
  | None => None
  end.

(** [n] requests made one after the other, with the times recorded for
    them. *)
Fixpoint session (fuel n : nat) (s : Limiter) : option (Limiter * list Z) :=
  match n with
  | O => Some (s, [])
  | S n =>
      match guardedRequest fuel s with
      | Some (s, time) =>
          match session fuel n s with
          | Some (s, times) => Some (s, time :: times)
          | None => None
          end
      | None => None
      end
  end.

(** What the limiter keeps true of the times [sent] recorded so far: none
    is later than the last reading [L] of the clock, the list it holds
    agrees with them on every window that ends at [L] or later, and no
    window of a minute holds more than twenty of them. *)
Definition limiterInv (L : Z) (s : Limiter) (sent : list Z) : Prop :=
  L ≤ clock (tick s) ∧
  (∀ t, t ∈ sent → t ≤ L) ∧
  (∀ T, L ≤ T → filter (λ t, T - t < requestWindow) (requests s)
                = filter (λ t, T - t < requestWindow) sent) ∧
  (∀ T, (length (inWindow T sent) ≤ maxRequestsPerMinute)%nat).

End Clock.

End RateLimit.

(** ** lib/api.ts: face or landscape *)

Module ImageTypeDetection.
Import Workspace.

Record Box := mkBox {
  xmin : JSNum.num; ymin : JSNum.num; xmax : JSNum.num; ymax : JSNum.num
}.

Record Detection := mkDetection { label : string; score : JSNum.num; box : Box }.

(** What one pass through the [try] block meets. *)
Inductive Response :=
| Failed                                   (* an exception is thrown *)
| NotOk (status : Z) (errorText : string)  (* [!response.ok] *)
| Ok (detections : list Detection).

Definition scoreThreshold : JSNum.num := JSNum.div (JSNum.ofZ 7) (JSNum.ofZ 10).   (* 0.7 *)
Definition areaThreshold : JSNum.num := JSNum.div (JSNum.ofZ 20) (JSNum.ofZ 100).  (* 0.20 *)

Definition area (d : Detection) : JSNum.num :=
  JSNum.mul (JSNum.sub (xmax (box d)) (xmin (box d)))
            (JSNum.sub (ymax (box d)) (ymin (box d))).

Definition isPerson (d : Detection) : bool :=
  String.eqb (label d) "person" && JSMath.gtb (score d) scoreThreshold.

(** [personDetections.reduce(...)], without an initial value. *)
Definition largestPerson (first : Detection) (rest : list Detection) : Detection :=
  fold_left (λ largest current,
               if JSMath.gtb (area current) (area largest) then current else largest)
            rest first.

(** The classification of an ok response. *)
Definition classify (detections : list Detection) : ImageType :=
  match List.filter isPerson detections with
  | [] => landscape
  | first :: rest =>
      if JSMath.gtb (area (largestPerson first rest)) areaThreshold then face
      else landscape
  end.

Section Passes.

(** What the n-th pass meets, n = 0, 1, ... *)
Variable response : nat → Response.

(** [while (retries > 0)], entered for pass [n]. *)
Fixpoint detectLoop (retries n : nat) : ImageType * list Api.Event :=
  match retries with
  | O => (landscape, [])
  | S retries' =>
      match response n with
      | NotOk status errorText =>
          if (status =? 503) ||
             (SegmentArt.truthy errorText && JSString.includes errorText "loading")
          then
            let '(result, evs) := detectLoop retries' (S n) in
            (result, Api.Request n :: Api.Delay 3000 :: evs)
          else (landscape, [Api.Request n])
      | Ok detections => (classify detections, [Api.Request n])
      | Failed =>
          if (retries' =? 0)%nat then (landscape, [Api.Request n])
          else
            let '(result, evs) := detectLoop retries' (S n) in
            (result, Api.Request n :: Api.Delay 1000 :: evs)
      end
  end.

Definition detectImageType (hfKeyValid : bool) : ImageType * list Api.Event :=
  if negb hfKeyValid then (landscape, []) else detectLoop 2 0.

End Passes.

End ImageTypeDetection.

(** ** Strings that are not blank *)

(** Some character of the string is not white space. *)
Fixpoint hasInk (s : string) : bool :=
  match s with
  | EmptyString => false
  | String c t => negb (SegmentArt.isSpace c) || hasInk t
  end.

(** * Properties *)

(** Well-formedness of a concrete image, by evaluation. *)
Lemma wfImageData_checked (img : ImageData) :
  (0 <? width img) && (0 <? height img) &&
  (Z.of_nat (length (data img)) =? 4 * width img * height img) &&
  forallb (λ v, (0 <=? v) && (v <=? 255)) (data img) = true →
  wfImageData img.
Proof.
  rewrite !andb_true_iff, !Z.ltb_lt, Z.eqb_eq, forallb_forall.
  intros [[[Hw Hh] Hlen] Hall]. repeat split; try done.
  apply Forall_forall. intros v Hv. apply list_elem_of_In in Hv.
  specialize (Hall v Hv). lia.
Qed.

(** ** Typed-array reads and writes *)

Lemma get_pixels (n : nat) (r g b a i : Z) :
  0 ≤ i < 4 * Z.of_nat n →
  Buf.get (Fixtures.pixels n [r; g; b; a]) i = [r; g; b; a] !! Z.to_nat (i mod 4).
Proof.
  revert i. induction n as [|n IH]; intros i Hi; [lia|].
  unfold Fixtures.pixels. simpl.
  destruct (decide (i < 4)) as [Hlt|Hge].
  - assert (i = 0 ∨ i = 1 ∨ i = 2 ∨ i = 3) as [->|[->|[->| ->]]] by lia; reflexivity.
  - unfold Buf.get. rewrite decide_True by lia.
    replace (Z.to_nat i) with (S (S (S (S (Z.to_nat (i - 4)))))) by lia. simpl.
    specialize (IH (i - 4)). unfold Buf.get, Fixtures.pixels in IH.
    rewrite decide_True in IH by lia. rewrite IH by lia.
    replace (i - 4) with (i + (-1) * 4) by lia. rewrite Z_mod_plus_full. done.
Qed.

Lemma get_set (d : list Z) (i j v : Z) :
  Buf.get (Buf.set d i v) j =
  if decide (i = j) then (λ _, v) <$> Buf.get d j else Buf.get d j.
Proof.
  unfold Buf.get, Buf.set.
  destruct (decide (0 ≤ j)) as [Hj|Hj].
  - destruct (decide (0 ≤ i)) as [Hi|Hi].
    + destruct (decide (i = j)) as [->|Hne].
      * destruct (decide (Z.to_nat j < length d)%nat) as [Hlt|Hge].
        -- rewrite list_lookup_insert_eq by done.
           destruct (lookup_lt_is_Some_2 d _ Hlt) as [w ->]. done.
        -- rewrite list_insert_ge by lia.
           rewrite (lookup_ge_None_2 d) by lia. done.
      * rewrite list_lookup_insert_ne by lia. done.
    + destruct (decide (i = j)); [lia | done].
  - destruct (decide (i = j)); done.
Qed.

Lemma length_set (d : list Z) (i v : Z) : length (Buf.set d i v) = length d.
Proof. unfold Buf.set. case_decide; [apply length_insert | done]. Qed.

Lemma get_is_Some (d : list Z) (i : Z) :
  0 ≤ i < Z.of_nat (length d) → is_Some (Buf.get d i).
Proof.
  intros [H0 H1]. unfold Buf.get. rewrite decide_True by done.
  apply lookup_lt_is_Some_2. lia.
Qed.

Lemma get_zeros (n i : Z) : 0 ≤ i < n → Buf.get (Buf.zeros n) i = Some 0.
Proof.
  intros [H0 H1]. unfold Buf.get, Buf.zeros. rewrite decide_True by done.
  apply lookup_replicate_2. lia.
Qed.

Lemma list_get_ext (d1 d2 : list Z) :
  length d1 = length d2 →
  (∀ i, 0 ≤ i < Z.of_nat (length d1) → Buf.get d1 i = Buf.get d2 i) →
  d1 = d2.
Proof.
  intros Hlen Hget. apply list_eq. intros n.
  destruct (decide (n < length d1)%nat) as [Hlt|Hge].
  - specialize (Hget (Z.of_nat n)). unfold Buf.get in Hget.
    rewrite !decide_True, Nat2Z.id in Hget by lia. apply Hget. lia.
  - rewrite !lookup_ge_None_2 by lia. done.
Qed.

(** ** Loops observed at one index *)

Lemma fold_left_observe {S A B : Type} (obs : S → B) (body : S → A → S)
    (g : A → B → B) (l : list A) (s : S) :
  (∀ s a, a ∈ l → obs (body s a) = g a (obs s)) →
  obs (fold_left body l s) = fold_left (λ o a, g a o) l (obs s).
Proof.
  revert s. induction l as [|a l IH]; intros s Hbody; simpl; [done|].
  rewrite IH.
  - rewrite Hbody by left. done.
  - intros s' a' Hin. apply Hbody. by right.
Qed.

Lemma fold_left_neutral {A B : Type} (g : A → B → B) (l : list A) (o : B) :
  (∀ a o, a ∈ l → g a o = o) → fold_left (λ o a, g a o) l o = o.
Proof.
  induction l as [|a l IH]; intros Hg; simpl; [done|].
  rewrite Hg by left. apply IH. intros a' o' Hin. apply Hg. by right.
Qed.

Lemma fold_left_single {A B : Type} (g : A → B → B) (l : list A) (a0 : A) (o : B) :
  NoDup l → a0 ∈ l →
  (∀ a o, a ∈ l → a ≠ a0 → g a o = o) →
  fold_left (λ o a, g a o) l o = g a0 o.
Proof.
  intros Hnd Hin Hg.
  apply list_elem_of_split in Hin as (l1 & l2 & ->).
  apply NoDup_app in Hnd as (_ & Hdisj & Hnd2).
  apply NoDup_cons in Hnd2 as [Hnotin2 _].
  rewrite fold_left_app. simpl.
  rewrite (fold_left_neutral g l1).
  - apply fold_left_neutral. intros a o' Ha. apply Hg.
    + apply elem_of_app. right. by right.
    + intros ->. done.
  - intros a o' Ha. apply Hg.
    + apply elem_of_app. by left.
    + intros ->. apply (Hdisj a0 Ha). left.
Qed.

Lemma fold_left_length_inv {A : Type} (body : list Z → A → list Z) (l : list A) (d : list Z) :
  (∀ d a, length (body d a) = length d) → length (fold_left body l d) = length d.
Proof.
  intros Hbody. revert d. induction l as [|a l IH]; intros d; simpl; [done|].
  rewrite IH. apply Hbody.
Qed.

(** Distinct pixels occupy disjoint four-byte blocks. *)
Lemma pixelIndex_block_inj (w x y c x' y' c' : Z) :
  0 ≤ x < w → 0 ≤ x' < w → 0 ≤ c < 4 → 0 ≤ c' < 4 →
  pixelIndex w x y + c = pixelIndex w x' y' + c' →
  x = x' ∧ y = y' ∧ c = c'.
Proof.
  unfold pixelIndex. intros Hx Hx' Hc Hc' Heq.
  assert (c = c') as -> by lia.
  assert (y * w + x = y' * w + x') as Hp by lia.
  assert (y = y') as -> by nia.
  split; [lia | done].
Qed.

(** A row-major loop whose body at [(x, y)] changes the buffer only inside
    the block of that pixel, and there as a function [g y x c] of the old
    value: the final value of channel [c] of pixel [(x0, y0)] is the one
    its own iteration wrote. *)
Lemma pixel_loop_get (w h : Z) (body : list Z → Z → Z → list Z)
    (g : Z → Z → Z → option Z → option Z) (d : list Z) (x0 y0 c : Z) :
  0 ≤ x0 < w → 0 ≤ y0 < h → 0 ≤ c < 4 →
  (∀ d y x j, 0 ≤ y < h → 0 ≤ x < w →
     Buf.get (body d y x) j =
     if decide (pixelIndex w x y ≤ j < pixelIndex w x y + 4)
     then g y x (j - pixelIndex w x y) (Buf.get d j)
     else Buf.get d j) →
  Buf.get (forRange 0 h (λ d y, forRange 0 w (λ d x, body d y x) d) d)
          (pixelIndex w x0 y0 + c)
  = g y0 x0 c (Buf.get d (pixelIndex w x0 y0 + c)).
Proof.
  intros Hx0 Hy0 Hc Hbody. unfold forRange.
  set (j := pixelIndex w x0 y0 + c).
  pose (gx := λ (y x : Z) (o : option Z),
          if decide (pixelIndex w x y ≤ j < pixelIndex w x y + 4)
          then g y x (j - pixelIndex w x y) o else o).
  pose (gy := λ (y : Z) (o : option Z), fold_left (λ o x, gx y x o) (seqZ 0 w) o).
  rewrite (fold_left_observe (λ d, Buf.get d j) _ gy).
  - rewrite (fold_left_single gy _ y0).
    + unfold gy. rewrite (fold_left_single (gx y0) _ x0).
      * unfold gx. rewrite decide_True by (unfold j; lia).
        replace (j - pixelIndex w x0 y0) with c by (unfold j; lia). done.
      * apply NoDup_seqZ.
      * apply elem_of_seqZ. lia.
      * intros x o Hx Hne. apply elem_of_seqZ in Hx. unfold gx.
        rewrite decide_False; [done|]. intros Hr.
        destruct (pixelIndex_block_inj w x0 y0 c x y0 (j - pixelIndex w x y0))
          as (? & _); [lia.. | unfold j in *; lia | congruence].
    + apply NoDup_seqZ.
    + apply elem_of_seqZ. lia.
    + intros y o Hy Hne. unfold gy. apply fold_left_neutral.
      intros x o' Hx. apply elem_of_seqZ in Hx. unfold gx.
      rewrite decide_False; [done|]. intros Hr.
      destruct (pixelIndex_block_inj w x0 y0 c x y (j - pixelIndex w x y))
        as (_ & ? & _); [lia.. | unfold j in *; lia | congruence].
  - intros d' y Hy. apply elem_of_seqZ in Hy. unfold gy.
    apply (fold_left_observe (λ d, Buf.get d j) _ (gx y)).
    intros d'' x Hx. apply elem_of_seqZ in Hx. unfold gx.
    apply Hbody; lia.
Qed.

(** ** Region extraction *)

Section ExtractRegionFacts.
Import KonvaCanvas.


Lemma applyMask_get (isBackground : bool) (maskData : ImageData) (w h : Z)
    (d : list Z) (x y c : Z) :
  0 ≤ x < w → 0 ≤ y < h → 0 ≤ c < 4 →
  Buf.get (applyMask isBackground maskData w h d) (pixelIndex w x y + c) =
  let isWhite := Buf.gt (maskRead maskData w h x y) 128 in
  let shouldKeep := if isBackground then negb isWhite else isWhite in
  if negb shouldKeep && (c =? 3)
  then (λ _, 0) <$> Buf.get d (pixelIndex w x y + c)
  else Buf.get d (pixelIndex w x y + c).
Proof.
  intros Hx Hy Hc. unfold applyMask.
  rewrite (pixel_loop_get w h _
    (λ y x c o,
       let isWhite := Buf.gt (maskRead maskData w h x y) 128 in
       let shouldKeep := if isBackground then negb isWhite else isWhite in
       if negb shouldKeep && (c =? 3) then (λ _, 0) <$> o else o)); [done.. |].
  intros d' y' x' j Hy' Hx'. cbv zeta.
  destruct (negb _) eqn:Ek; simpl.
  - rewrite get_set. repeat case_decide; try lia.
    + replace (j - pixelIndex w x' y' =? 3) with true by lia. done.
    + replace (j - pixelIndex w x' y' =? 3) with false by lia. done.
    + done.
  - case_decide; done.
Qed.

Lemma removeRegion_get (maskData : ImageData) (w h : Z) (d : list Z) (x y c : Z) :
  0 ≤ x < w → 0 ≤ y < h → 0 ≤ c < 4 →
  Buf.get (removeRegion maskData w h d) (pixelIndex w x y + c) =
  if Buf.gt (maskRead maskData w h x y) 200 && (c =? 3)
  then (λ _, 0) <$> Buf.get d (pixelIndex w x y + c)
  else Buf.get d (pixelIndex w x y + c).
Proof.
  intros Hx Hy Hc. unfold removeRegion.
  rewrite (pixel_loop_get w h _
    (λ y x c o,
       if Buf.gt (maskRead maskData w h x y) 200 && (c =? 3)
       then (λ _, 0) <$> o else o)); [done.. |].
  intros d' y' x' j Hy' Hx'. cbv zeta.
  destruct (Buf.gt _ 200) eqn:Ek; simpl.
  - rewrite get_set. repeat case_decide; try lia.
    + replace (j - pixelIndex w x' y' =? 3) with true by lia. done.
    + replace (j - pixelIndex w x' y' =? 3) with false by lia. done.
    + done.
  - case_decide; done.
Qed.

(** Every channel of every pixel of a well-formed image can be read. *)
Lemma channel_is_Some (img : ImageData) (x y c : Z) :
  wfImageData img → 0 ≤ x < width img → 0 ≤ y < height img → 0 ≤ c < 4 →
  is_Some (channel img x y c).
Proof.
  intros (Hw & Hh & Hlen & _) Hx Hy Hc. unfold channel.
  apply get_is_Some. unfold pixelIndex. nia.
Qed.

End ExtractRegionFacts.

Section ExtractRegionClaims.
Import KonvaCanvas.



End ExtractRegionClaims.

Section ExtractRegionWitness.
Import KonvaCanvas Fixtures.


End ExtractRegionWitness.


Section BaseUpdateClaims.
Import KonvaCanvas Fixtures.



End BaseUpdateClaims.

(** ** Lasso extraction *)

(** A loop over the offsets 0, 4, 8, ... whose body at offset [i] changes
    the buffer only inside [i, i + 4). *)
Lemma step4_loop_get (len : Z) (body : list Z → Z → list Z)
    (g : Z → Z → option Z → option Z) (d : list Z) (i0 c : Z) :
  0 ≤ i0 < len → i0 mod 4 = 0 → 0 ≤ c < 4 →
  (∀ d i j,
     Buf.get (body d i) j =
     if decide (i ≤ j < i + 4) then g i (j - i) (Buf.get d j) else Buf.get d j) →
  Buf.get (forStep4 len body d) (i0 + c) = g i0 c (Buf.get d (i0 + c)).
Proof.
  intros Hi0 Hmod Hc Hbody. unfold forStep4.
  set (j := i0 + c).
  pose (gi := λ (i : Z) (o : option Z),
          if decide (i ≤ j < i + 4) then g i (j - i) o else o).
  rewrite (fold_left_observe (λ d, Buf.get d j) _ gi).
  - rewrite (fold_left_single gi _ i0).
    + unfold gi. rewrite decide_True by (unfold j; lia).
      replace (j - i0) with c by (unfold j; lia). done.
    + apply NoDup_fmap_2; [|apply NoDup_seqZ]. intros a b. lia.
    + apply list_elem_of_fmap. exists (i0 / 4). split.
      * pose proof (Z.div_mod i0 4). lia.
      * apply elem_of_seqZ. split; [apply Z.div_pos; lia|].
        simpl. apply Z.div_lt_upper_bound; [lia|].
        pose proof (Z.div_mod (len + 3) 4). pose proof (Z.mod_pos_bound (len + 3) 4). lia.
    + intros i o Hi Hne. apply list_elem_of_fmap in Hi as (k & -> & _).
      unfold gi. rewrite decide_False; [done|]. unfold j.
      pose proof (Z.div_mod i0 4). lia.
  - intros d' i _. unfold gi. apply Hbody.
Qed.

Lemma pixelIndex_mod4 (w x y : Z) : pixelIndex w x y mod 4 = 0.
Proof. unfold pixelIndex. apply Z_mod_mult. Qed.

Section LassoFacts.
Import KonvaCanvas.
Variable render : Canvas → list Z.

Lemma lasso_layer_get (maskData d : list Z) (len i c : Z) :
  0 ≤ i < len → i mod 4 = 0 → 0 ≤ c < 4 →
  Buf.get (forStep4 len
             (λ d i, let maskAlpha := Buf.get maskData i in
                     if isZero maskAlpha then Buf.set d (i + 3) 0 else d) d) (i + c)
  = if isZero (Buf.get maskData i) && (c =? 3)
    then (λ _, 0) <$> Buf.get d (i + c) else Buf.get d (i + c).
Proof.
  intros Hi Hmod Hc.
  rewrite (step4_loop_get len _
    (λ i c o, if isZero (Buf.get maskData i) && (c =? 3) then (λ _, 0) <$> o else o));
    [done.. |].
  intros d' i' j. cbv zeta.
  destruct (isZero _) eqn:E; simpl.
  - rewrite get_set. repeat case_decide; try lia.
    + replace (j - i' =? 3) with true by lia. done.
    + replace (j - i' =? 3) with false by lia. done.
    + done.
  - case_decide; done.
Qed.

Lemma lasso_base_get (maskData d : list Z) (len i c : Z) :
  0 ≤ i < len → i mod 4 = 0 → 0 ≤ c < 4 →
  Buf.get (forStep4 len
             (λ d i, let maskAlpha := Buf.get maskData i in
                     if Buf.gt maskAlpha 0 then Buf.set d (i + 3) 0 else d) d) (i + c)
  = if Buf.gt (Buf.get maskData i) 0 && (c =? 3)
    then (λ _, 0) <$> Buf.get d (i + c) else Buf.get d (i + c).
Proof.
  intros Hi Hmod Hc.
  rewrite (step4_loop_get len _
    (λ i c o, if Buf.gt (Buf.get maskData i) 0 && (c =? 3) then (λ _, 0) <$> o else o));
    [done.. |].
  intros d' i' j. cbv zeta.
  destruct (Buf.gt _ 0) eqn:E; simpl.
  - rewrite get_set. repeat case_decide; try lia.
    + replace (j - i' =? 3) with true by lia. done.
    + replace (j - i' =? 3) with false by lia. done.
    + done.
  - case_decide; done.
Qed.

(** C3. For a fully opaque source and a lasso whose mask the browser
    rasterizes, at the size of the source, as 255 inside the polygon and 0
    outside, the extracted layer has alpha 255 exactly at the pixels inside
    and 0 elsewhere, the updated base has alpha 0 exactly inside and 255
    elsewhere, and the RGB channels of both are those of the source. *)
Theorem extractLassoSelection_partition
    (c : Component) (sel : Selection) (pts : list JSNum.num) (image : ImageData)
    (inside : Z → Z → bool) :
  selection c = Some sel →
  points sel = Some pts →
  imageElement c = Some image →
  hasOnImageUpdate c = true →
  wfImageData image →
  fullyOpaque image →
  (∀ x y, 0 ≤ x < width image → 0 ≤ y < height image →
     Buf.get (render (lassoMaskCanvas c image pts)) (pixelIndex (width image) x y)
     = Some (if inside x y then 255 else 0)) →
  canvasWidth (lassoMaskCanvas c image pts) = width image ∧
  canvasHeight (lassoMaskCanvas c image pts) = height image ∧
  ∃ layer base,
    extractedLayer (extractLassoSelection render c) = Some layer ∧
    updatedBase (extractLassoSelection render c) = Some base ∧
    width layer = width image ∧ height layer = height image ∧
    width base = width image ∧ height base = height image ∧
    ∀ x y, 0 ≤ x < width image → 0 ≤ y < height image →
      channel layer x y 3 = Some (if inside x y then 255 else 0) ∧
      channel base x y 3 = Some (if inside x y then 0 else 255) ∧
      ∀ ch, 0 ≤ ch < 3 →
        channel layer x y ch = channel image x y ch ∧
        channel base x y ch = channel image x y ch.
Proof.
  intros Hsel Hpts Himage Hupd Hwf Hopaque Hmask.
  split; [done|]. split; [done|].
  unfold extractLassoSelection. rewrite Hsel, Hpts, Himage, Hupd. simpl.
  eexists. eexists. split; [reflexivity|]. split; [reflexivity|]. simpl.
  repeat (split; [done|]).
  intros x y Hx Hy.
  assert (Hidx : 0 ≤ pixelIndex (width image) x y
                 ∧ pixelIndex (width image) x y + 4 ≤ Z.of_nat (length (data image))).
  { destruct Hwf as (Hw & Hh & Hlen & _). unfold pixelIndex. nia. }
  pose proof (pixelIndex_mod4 (width image) x y) as Hmod.
  specialize (Hmask x y Hx Hy).
  specialize (Hopaque x y Hx Hy). unfold channel in Hopaque.
  unfold channel; simpl.
  split; [|split].
  - rewrite lasso_layer_get by lia. rewrite Hmask, Hopaque. simpl.
    destruct (inside x y); done.
  - rewrite lasso_base_get by lia. rewrite Hmask, Hopaque. simpl.
    destruct (inside x y); done.
  - intros ch Hch. split.
    + rewrite lasso_layer_get by lia.
      replace (ch =? 3) with false by lia. rewrite andb_false_r. done.
    + rewrite lasso_base_get by lia.
      replace (ch =? 3) with false by lia. rewrite andb_false_r. done.
Qed.

End LassoFacts.

Section LassoWitness.
Import KonvaCanvas Fixtures.

Lemma get_blocks (f : Z → list Z) (l : list Z) (k : nat) (p c : Z) :
  (∀ q, length (f q) = 4%nat) → l !! k = Some p → 0 ≤ c < 4 →
  Buf.get (flat_map f l) (4 * Z.of_nat k + c) = f p !! Z.to_nat c.
Proof.
  intros Hf. revert k. induction l as [|q l IH]; intros k Hk Hc; [done|].
  simpl. unfold Buf.get. rewrite decide_True by lia.
  destruct k as [|k]; simpl in Hk.
  - injection Hk as ->. rewrite lookup_app_l by (rewrite Hf; lia).
    f_equal; lia.
  - rewrite lookup_app_r by (rewrite Hf; lia). rewrite Hf.
    specialize (IH k Hk Hc). unfold Buf.get in IH.
    rewrite decide_True in IH by lia. rewrite <- IH. f_equal; lia.
Qed.

Lemma get_maskOf (w h : Z) (inside : Z → Z → bool) (x y : Z) :
  0 ≤ x < w → 0 ≤ y < h →
  Buf.get (maskOf w h inside) (pixelIndex w x y) = Some (if inside x y then 255 else 0).
Proof.
  intros Hx Hy. unfold maskOf, pixelIndex.
  replace ((y * w + x) * 4) with (4 * Z.of_nat (Z.to_nat (y * w + x)) + 0) by nia.
  rewrite (get_blocks _ _ _ (y * w + x)).
  - replace ((y * w + x) mod w) with x.
    + replace ((y * w + x) / w) with y.
      * destruct (inside x y); done.
      * apply (Z.div_unique_pos _ _ y x); lia.
    + apply (Z.mod_unique_pos _ _ y x); lia.
  - intros q. destruct (inside _ _); done.
  - rewrite lookup_seqZ_lt by nia. f_equal. nia.
  - lia.
Qed.

Lemma extractLassoSelection_partition_witness :
  wfImageData red100 ∧ fullyOpaque red100 ∧
  ∃ layer base,
    extractedLayer (extractLassoSelection boxRender quadrantComponent) = Some layer ∧
    updatedBase (extractLassoSelection boxRender quadrantComponent) = Some base ∧
    ∀ x y, 0 ≤ x < 100 → 0 ≤ y < 100 →
      channel layer x y 3 = Some (if (x <? 50) && (y <? 50) then 255 else 0) ∧
      channel base x y 3 = Some (if (x <? 50) && (y <? 50) then 0 else 255) ∧
      (channel base x y 0 = Some 255 ∧ channel base x y 1 = Some 0 ∧
       channel base x y 2 = Some 0).
Proof.
  assert (Hwf : wfImageData red100) by (apply wfImageData_checked; vm_compute; reflexivity).
  assert (Hch : ∀ x y c, 0 ≤ x < 100 → 0 ≤ y < 100 → 0 ≤ c < 4 →
            channel red100 x y c = [255; 0; 0; 255] !! Z.to_nat c).
  { intros x y c Hx Hy Hc. unfold channel, red100, pixelIndex; simpl.
    rewrite get_pixels by lia.
    replace ((y * 100 + x) * 4 + c) with (c + (y * 100 + x) * 4) by lia.
    rewrite Z_mod_plus_full, Z.mod_small by lia. done. }
  assert (Hop : fullyOpaque red100).
  { intros x y Hx Hy. simpl in *. rewrite Hch by lia. done. }
  split; [exact Hwf|]. split; [exact Hop|].
  destruct (extractLassoSelection_partition boxRender quadrantComponent
              (mkSelection (JSNum.ofZ 0) (JSNum.ofZ 0) (Some quadrantPoints))
              quadrantPoints red100 (λ x y, (x <? 50) && (y <? 50))
              eq_refl eq_refl eq_refl eq_refl Hwf Hop)
    as (_ & _ & layer & base & Hlayer & Hbase & _ & _ & _ & _ & Hpix).
  { intros x y Hx Hy. simpl in Hx, Hy.
    replace (width red100) with 100 by reflexivity.
    assert (Hcv : boxRender (lassoMaskCanvas quadrantComponent red100 quadrantPoints)
                  = maskOf 100 100 (boxInside
                      (lassoPath quadrantComponent red100 quadrantPoints))) by reflexivity.
    rewrite Hcv, get_maskOf by lia. f_equal.
    unfold boxInside.
    replace (pathXs (lassoPath quadrantComponent red100 quadrantPoints))
      with [0; 50; 50; 0] by (vm_compute; reflexivity).
    replace (pathYs (lassoPath quadrantComponent red100 quadrantPoints))
      with [0; 0; 50; 50] by (vm_compute; reflexivity).
    set (x0 := foldr Z.min _ [0; 50; 50; 0]). vm_compute in x0. subst x0.
    set (x1 := foldr Z.max _ [0; 50; 50; 0]). vm_compute in x1. subst x1.
    set (y0 := foldr Z.min _ [0; 0; 50; 50]). vm_compute in y0. subst y0.
    set (y1 := foldr Z.max _ [0; 0; 50; 50]). vm_compute in y1. subst y1.
    replace (0 <=? x) with true by lia. replace (0 <=? y) with true by lia.
    simpl. rewrite andb_true_r. done. }
  exists layer, base. split; [exact Hlayer|]. split; [exact Hbase|].
  intros x y Hx Hy. destruct (Hpix x y Hx Hy) as (Hl & Hb & Hrgb).
  split; [exact Hl|]. split; [exact Hb|].
  destruct (Hrgb 0) as [_ H0]; [lia|].
  destruct (Hrgb 1) as [_ H1]; [lia|].
  destruct (Hrgb 2) as [_ H2]; [lia|].
  rewrite H0, H1, H2, !Hch by lia. done.
Defined.

End LassoWitness.

(** ** Masks built from pointer drags *)

Section DragMaskFacts.
Import KonvaCanvas Fixtures.
Variable render : Canvas → list Z.

Lemma fold_left_snoc_map {A B : Type} (f : A → B) (l : list A) (acc : list B) :
  fold_left (λ acc a, acc ++ [f a]) l acc = acc ++ (f <$> l).
Proof.
  revert acc. induction l as [|a l IH]; intros acc; simpl.
  - by rewrite app_nil_r.
  - rewrite IH, <- app_assoc. done.
Qed.

Lemma lookup_flatten_pairs (pairs : list (JSNum.num * JSNum.num)) (k : nat) :
  flat_map (λ p, [p.1; p.2]) pairs !! (2 * k)%nat = fst <$> pairs !! k ∧
  flat_map (λ p, [p.1; p.2]) pairs !! (2 * k + 1)%nat = snd <$> pairs !! k.
Proof.
  revert k. induction pairs as [|p pairs IH]; intros k; [done|].
  destruct k as [|k]; [done|].
  replace (2 * S k)%nat with (S (S (2 * k))) by lia.
  replace (S (S (2 * k)) + 1)%nat with (S (S (2 * k + 1))) by lia.
  simpl. apply IH.
Qed.

Lemma length_flatten_pairs (pairs : list (JSNum.num * JSNum.num)) :
  length (flat_map (λ p, [p.1; p.2]) pairs) = (2 * length pairs)%nat.
Proof. induction pairs as [|p pairs IH]; simpl; lia. Qed.

(** The path drawn for a selection that holds the points [pairs]: a
    [moveTo] for the first converted point, a [lineTo] for each later one,
    and [closePath]. *)
Lemma lassoPath_pairs (c : Component) (image : ImageData)
    (pairs : list (JSNum.num * JSNum.num)) :
  lassoPath c image (flat_map (λ p, [p.1; p.2]) pairs) =
  imap (λ k p, if decide (k = 0%nat)
               then MoveTo (toOriginalX c image p.1) (toOriginalY c image p.2)
               else LineTo (toOriginalX c image p.1) (toOriginalY c image p.2)) pairs
  ++ [ClosePath].
Proof.
  unfold lassoPath. f_equal. cbv zeta.
  rewrite (fold_left_snoc_map
    (λ i, if decide (i = 0%nat)
          then MoveTo (toOriginalX c image (readPoint (flat_map (λ p, [p.1; p.2]) pairs) i))
                      (toOriginalY c image (readPoint (flat_map (λ p, [p.1; p.2]) pairs) (i + 1)))
          else LineTo (toOriginalX c image (readPoint (flat_map (λ p, [p.1; p.2]) pairs) i))
                      (toOriginalY c image (readPoint (flat_map (λ p, [p.1; p.2]) pairs) (i + 1))))).
  rewrite app_nil_l, length_flatten_pairs.
  replace ((2 * length pairs + 1) / 2)%nat with (length pairs).
  2:{ apply (Nat.div_unique _ _ _ 1); lia. }
  apply list_eq. intros k.
  rewrite !list_lookup_fmap, list_lookup_imap.
  destruct (pairs !! k) as [p|] eqn:Hk.
  - rewrite lookup_seq_lt by (by eapply lookup_lt_Some). simpl.
    destruct (lookup_flatten_pairs pairs k) as [H1 H2]. rewrite Hk in H1, H2.
    unfold readPoint.
    replace (k + (k + 0))%nat with (2 * k)%nat by lia. rewrite H1, H2. simpl.
    destruct k; done.
  - rewrite lookup_seq_ge by (by apply lookup_ge_None). done.
Qed.

(** Whatever [handleDrawMove] hands to [onExtract] is the brush snapshot:
    a mask of the size of the stage. *)
Lemma handleDrawMove_extract (c c' : Component) (pos : option Point)
    (calls : list Callback) (img : ImageData) (ty : string) (position : option Position) :
  handleDrawMove render c pos = (c', calls) →
  OnExtract img ty position ∈ calls →
  img = mkImageData (stageWidth c) (stageHeight c) (render (brushMaskCanvas c)) ∧
  ty = "mask" ∧ position = None.
Proof.
  unfold handleDrawMove. intros Hrun Hin.
  repeat (match type of Hrun with
          | context [match ?x with _ => _ end] => destruct x eqn:?
          end; simpl in Hrun);
    injection Hrun as <- <-;
    repeat (apply elem_of_cons in Hin as [Hin|Hin]; [try discriminate Hin|]);
    try (by apply elem_of_nil in Hin).
  all: injection Hin as -> -> ->; done.
Qed.

End DragMaskFacts.

Section DragMaskClaims.
Import KonvaCanvas Fixtures.

(** C5, as the code has it. The mask canvas of a lasso has the size of the
    original image, and its path visits the selection's points converted
    from display coordinates by subtracting the display offset of the image
    and multiplying by original size / display size. The mask that each
    brush step hands to [onExtract] has the size of the stage: it is the
    brush layer drawn at (0, 0) over black, in display coordinates. *)
Theorem drag_mask_resolution (render : Canvas → list Z) (c : Component) (image : ImageData) :
  (∀ pairs : list (JSNum.num * JSNum.num),
     let cv := lassoMaskCanvas c image (flat_map (λ p, [p.1; p.2]) pairs) in
     canvasWidth cv = width image ∧ canvasHeight cv = height image ∧
     drawn cv =
       [FillWhitePath
          (imap (λ k p, if decide (k = 0%nat)
                        then MoveTo (toOriginalX c image p.1) (toOriginalY c image p.2)
                        else LineTo (toOriginalX c image p.1) (toOriginalY c image p.2))
                pairs ++ [ClosePath])]) ∧
  (∀ p : JSNum.num,
     toOriginalX c image p =
       JSNum.mul
         (JSNum.sub p (JSNum.div (JSNum.sub (JSNum.ofZ (stageWidth c))
                                            (size_width (imageSize c))) (JSNum.ofZ 2)))
         (JSNum.div (JSNum.ofZ (width image)) (size_width (imageSize c))) ∧
     toOriginalY c image p =
       JSNum.mul
         (JSNum.sub p (JSNum.div (JSNum.sub (JSNum.ofZ (stageHeight c))
                                            (size_height (imageSize c))) (JSNum.ofZ 2)))
         (JSNum.div (JSNum.ofZ (height image)) (size_height (imageSize c)))) ∧
  (∀ pos c' calls img ty position,
     handleDrawMove render c pos = (c', calls) →
     OnExtract img ty position ∈ calls →
     width img = stageWidth c ∧ height img = stageHeight c ∧
     data img = render (brushMaskCanvas c) ∧
     canvasWidth (brushMaskCanvas c) = stageWidth c ∧
     canvasHeight (brushMaskCanvas c) = stageHeight c ∧
     drawn (brushMaskCanvas c) =
       [FillBlackRect 0 0 (stageWidth c) (stageHeight c); DrawBrushLayer (lines c) 0 0]).
Proof.
  split; [|split].
  - intros pairs. cbv zeta. unfold lassoMaskCanvas. simpl.
    rewrite lassoPath_pairs. done.
  - intros p. split; reflexivity.
  - intros pos c' calls img ty position Hrun Hin.
    destruct (handleDrawMove_extract render c c' pos calls img ty position Hrun Hin)
      as (-> & _ & _).
    done.
Qed.

Lemma brush_step_calls (render : Canvas → list Z) :
  (handleDrawMove render brushComponent
     (Some (mkPoint (JSNum.ofZ 400) (JSNum.ofZ 300)))).2
  = [OnExtract (mkImageData 800 600 (render (brushMaskCanvas brushComponent))) "mask" None].
Proof. vm_compute. reflexivity. Qed.

(** A brush step over an 8x8 image shown on an 800x600 stage hands out an
    800x600 mask. *)
Lemma brush_snapshot_not_native :
  ∃ img,
    (handleDrawMove boxRender brushComponent
       (Some (mkPoint (JSNum.ofZ 400) (JSNum.ofZ 300)))).2
      = [OnExtract img "mask" None] ∧
    imageElement brushComponent = Some red8 ∧
    width img = 800 ∧ height img = 600 ∧
    width img ≠ width red8 ∧ height img ≠ height red8.
Proof.
  eexists. split; [apply brush_step_calls|]. simpl. repeat split; done.
Qed.

End DragMaskClaims.

(** ** Dilation *)

Section DilateFacts.
Import MaskOps.

Lemma four_sets_get (d : list Z) (i a b c e j : Z) :
  Buf.get (Buf.set (Buf.set (Buf.set (Buf.set d i a) (i + 1) b) (i + 2) c) (i + 3) e) j =
  if decide (i ≤ j < i + 4) then (λ _, pick a b c e (j - i)) <$> Buf.get d j
  else Buf.get d j.
Proof.
  rewrite !get_set. unfold pick.
  repeat case_decide; try lia; destruct (Buf.get d j); simpl; try done.
  - replace (j - i =? 0) with false by lia. replace (j - i =? 1) with false by lia.
    replace (j - i =? 2) with false by lia. done.
  - replace (j - i =? 0) with false by lia. replace (j - i =? 1) with false by lia.
    replace (j - i =? 2) with true by lia. done.
  - replace (j - i =? 0) with false by lia. replace (j - i =? 1) with true by lia. done.
  - replace (j - i =? 0) with true by lia. done.
Qed.

Lemma four_sets_length (d : list Z) (i a b c e : Z) :
  length (Buf.set (Buf.set (Buf.set (Buf.set d i a) (i + 1) b) (i + 2) c) (i + 3) e)
  = length d.
Proof. by rewrite !length_set. Qed.

Lemma length_zeros (n : Z) : length (Buf.zeros n) = Z.to_nat n.
Proof. apply length_replicate. Qed.

Lemma dilateStep_length (w h : Z) (current : list Z) :
  length (dilateStep w h current) = Z.to_nat (4 * w * h).
Proof.
  unfold dilateStep, forRange. rewrite fold_left_length_inv; [apply length_zeros|].
  intros d y. apply fold_left_length_inv. intros d' x. apply four_sets_length.
Qed.

Lemma dilateStep_get (w h : Z) (current : list Z) (x y c : Z) :
  0 ≤ x < w → 0 ≤ y < h → 0 ≤ c < 4 →
  Buf.get (dilateStep w h current) (pixelIndex w x y + c) =
  Some (let m := clampByte (neighbourhoodMax w h current x y) in pick m m m 255 c).
Proof.
  intros Hx Hy Hc. unfold dilateStep.
  rewrite (pixel_loop_get w h _
    (λ y x k o, (λ _, let m := clampByte (neighbourhoodMax w h current x y) in
                      pick m m m 255 k) <$> o)); [|done..|].
  - rewrite get_zeros; [done|]. unfold pixelIndex. nia.
  - intros d y' x' j Hy' Hx'. cbv zeta. apply four_sets_get.
Qed.

Lemma neighbourhoodMax_flat (w h : Z) (current : list Z) (x y : Z) :
  neighbourhoodMax w h current x y =
  fold_left (λ m '(dx, dy),
      if inBounds w h (x + dx) (y + dy)
      then mathMax m (Buf.get current (pixelIndex w (x + dx) (y + dy)))
      else m) offsets3x3 (Some 0).
Proof.
  unfold neighbourhoodMax, forRange.
  replace (seqZ (-1) 3) with [-1; 0; 1] by reflexivity.
  reflexivity.
Qed.

Lemma fold_max_spec (cand : list (Z * Z)) (ok : Z * Z → bool) (rd : Z * Z → option Z)
    (m0 : Z) :
  (∀ e, e ∈ cand → ok e = true → is_Some (rd e)) →
  ∃ m, fold_left (λ m e, if ok e then mathMax m (rd e) else m) cand (Some m0) = Some m ∧
       m0 ≤ m ∧
       (∀ e v, e ∈ cand → ok e = true → rd e = Some v → v ≤ m) ∧
       (m = m0 ∨ ∃ e, e ∈ cand ∧ ok e = true ∧ rd e = Some m).
Proof.
  revert m0. induction cand as [|e cand IH]; intros m0 Hrd; simpl.
  - exists m0. split; [done|]. split; [lia|]. split; [|by left].
    intros e v He. by apply elem_of_nil in He.
  - destruct (ok e) eqn:Hok.
    + destruct (Hrd e) as [v Hv]; [left | done |]. rewrite Hv. simpl.
      destruct (IH (Z.max m0 v)) as (m & Hm & Hle & Hub & Hatt).
      { intros e' He'. apply Hrd. by right. }
      exists m. split; [done|]. split; [lia|]. split.
      * intros e' v' He' Hok' Hv'. apply elem_of_cons in He' as [->|He'].
        -- assert (v' = v) as -> by congruence. lia.
        -- by eapply Hub.
      * destruct Hatt as [->|(e' & He' & Hok' & Hv')].
        -- destruct (Z.max_spec m0 v) as [[_ ->]|[_ ->]].
           ++ right. exists e. split; [left|done].
           ++ by left.
        -- right. exists e'. split; [by right|done].
    + destruct (IH m0) as (m & Hm & Hle & Hub & Hatt).
      { intros e' He'. apply Hrd. by right. }
      exists m. split; [done|]. split; [done|]. split.
      * intros e' v' He' Hok' Hv'. apply elem_of_cons in He' as [->|He'].
        -- congruence.
        -- by eapply Hub.
      * destruct Hatt as [->|(e' & He' & Hok' & Hv')]; [by left|].
        right. exists e'. split; [by right|done].
Qed.

End DilateFacts.

Section DilateClaims.
Import MaskOps.

Lemma fold_left_invariant {S A : Type} (P : S → Prop) (body : S → A → S)
    (l : list A) (s : S) :
  P s → (∀ s a, P s → P (body s a)) → P (fold_left body l s).
Proof.
  intros Hs Hbody. revert s Hs. induction l as [|a l IH]; intros s Hs; simpl; [done|].
  apply IH, Hbody, Hs.
Qed.

Lemma fold_left_cong {S A : Type} (f g : S → A → S) (l : list A) (s : S) :
  (∀ s a, a ∈ l → f s a = g s a) → fold_left f l s = fold_left g l s.
Proof.
  revert s. induction l as [|a l IH]; intros s Hfg; simpl; [done|].
  rewrite Hfg by left. apply IH. intros s' a' Ha'. apply Hfg. by right.
Qed.

Lemma set_bytes (d : list Z) (i v : Z) :
  Forall (λ v, 0 ≤ v ≤ 255) d → 0 ≤ v ≤ 255 →
  Forall (λ v, 0 ≤ v ≤ 255) (Buf.set d i v).
Proof. intros Hd Hv. unfold Buf.set. case_decide; [by apply Forall_insert | done]. Qed.

Lemma clampByte_range (a : option Z) : 0 ≤ clampByte a ≤ 255.
Proof. destruct a; simpl; lia. Qed.

Lemma dilateStep_bytes (w h : Z) (current : list Z) :
  Forall (λ v, 0 ≤ v ≤ 255) (dilateStep w h current).
Proof.
  unfold dilateStep, forRange.
  apply (fold_left_invariant (Forall (λ v, 0 ≤ v ≤ 255))).
  - apply Forall_replicate. lia.
  - intros d y Hd. apply (fold_left_invariant (Forall (λ v, 0 ≤ v ≤ 255))); [done|].
    intros d' x Hd'. cbv zeta.
    pose proof (clampByte_range (neighbourhoodMax w h current x y)).
    repeat apply set_bytes; (done || lia).
Qed.

Lemma dilateMask_wf (img : ImageData) (iterations : Z) :
  wfImageData img → wfImageData (dilateMask img iterations).
Proof.
  intros Hwf. unfold dilateMask, forRange.
  apply (fold_left_invariant
           (λ d, wfImageData (mkImageData (width img) (height img) d))).
  - by destruct img.
  - intros d _ (Hw & Hh & _ & _). simpl in *. repeat split; try done.
    + simpl. rewrite dilateStep_length. lia.
    + apply dilateStep_bytes.
Qed.

Lemma dilateMask_succ (img : ImageData) (n : Z) :
  0 ≤ n →
  data (dilateMask img (n + 1)) =
  dilateStep (width img) (height img) (data (dilateMask img n)).
Proof.
  intros Hn. unfold dilateMask, forRange. simpl.
  rewrite seqZ_app by lia. rewrite fold_left_app.
  rewrite (seqZ_cons _ 1) by lia. rewrite seqZ_nil by lia. done.
Qed.

Lemma get_byte (img : ImageData) (i v : Z) :
  wfImageData img → Buf.get (data img) i = Some v → 0 ≤ v ≤ 255.
Proof.
  intros (_ & _ & _ & Hall) Hget. unfold Buf.get in Hget. case_decide; [|done].
  by eapply (Forall_lookup_1 _ _ _ _ Hall).
Qed.

Lemma offsets3x3_elem (dx dy : Z) :
  (dx, dy) ∈ offsets3x3 ↔ -1 ≤ dx ≤ 1 ∧ -1 ≤ dy ≤ 1.
Proof.
  unfold offsets3x3. rewrite !elem_of_cons, elem_of_nil. split.
  - intros H. repeat (destruct H as [H|H]; [injection H as -> ->; lia|]). done.
  - intros [Hx Hy].
    assert (dx = -1 ∨ dx = 0 ∨ dx = 1) as [->|[->| ->]] by lia;
    assert (dy = -1 ∨ dy = 0 ∨ dy = 1) as [->|[->| ->]] by lia; tauto.
Qed.



End DilateClaims.

Section DilateTheorem.
Import MaskOps.


End DilateTheorem.

Section DilateWitness.
Import MaskOps Fixtures.


End DilateWitness.

(** ** Gaussian blur at radius zero *)

Section BlurFacts.
Import MaskOps.
Variable expApprox : JSNum.num → JSNum.num.

Lemma gaussianKernel_0 : gaussianKernel expApprox 0 = [JSNum.NaN].
Proof. vm_compute. reflexivity. Qed.

Lemma mul_NaN (a : JSNum.num) : JSNum.mul a JSNum.NaN = JSNum.NaN.
Proof. by destruct a. Qed.

Lemma add_NaN (a : JSNum.num) : JSNum.add a JSNum.NaN = JSNum.NaN.
Proof. by destruct a. Qed.

Lemma weightedSum_0 (src : list Z) (idx : Z → Z) (ch : Z) :
  weightedSum src [JSNum.NaN] 0 idx ch = JSNum.NaN.
Proof.
  unfold weightedSum, forRange.
  replace (seqZ (- 0) (2 * 0 + 1)) with [0] by reflexivity. cbn [fold_left].
  replace (weightAt [JSNum.NaN] (0 + 0)) with JSNum.NaN by reflexivity.
  by rewrite mul_NaN, add_NaN.
Qed.

Lemma set_zeros (n i : Z) : Buf.set (Buf.zeros n) i 0 = Buf.zeros n.
Proof.
  unfold Buf.set, Buf.zeros. case_decide; [|done]. apply insert_replicate.
Qed.

Lemma blurPass_0 (w h n : Z) (src : list Z) (tap : Z → Z → Z → Z) :
  blurPass w h 0 [JSNum.NaN] src (Buf.zeros n) tap = Buf.zeros n.
Proof.
  unfold blurPass, forRange.
  apply (fold_left_invariant (λ d, d = Buf.zeros n)); [done|].
  intros d y ->. apply (fold_left_invariant (λ d, d = Buf.zeros n)); [done|].
  intros d x ->. cbv zeta. rewrite !weightedSum_0.
  replace (JSNum.toUint8Clamp JSNum.NaN) with 0 by reflexivity.
  by rewrite !set_zeros.
Qed.

(** With radius 0 the kernel is [NaN] and every byte of the result is 0,
    whatever the input holds. *)
Lemma applyGaussianBlur_0 (img : ImageData) :
  applyGaussianBlur expApprox img 0 =
  mkImageData (width img) (height img) (Buf.zeros (4 * width img * height img)).
Proof.
  unfold applyGaussianBlur. cbv zeta. rewrite gaussianKernel_0.
  by rewrite !blurPass_0.
Qed.

End BlurFacts.

Section ZeroParameterClaims.
Import MaskOps Fixtures.

(** C7, as the code has it. [dilateMask] with zero iterations returns a
    pixel-for-pixel equal copy of its input. A zero feather radius is a
    no-op one level up: [createImprovedMask] calls [applyGaussianBlur]
    only for a radius above 0, so with radius 0 its result is the binary
    mask, dilated when [expandPixels] is above 0 and untouched
    otherwise. *)
Theorem zero_parameter_geometry (expApprox : JSNum.num → JSNum.num) (img : ImageData) :
  dilateMask img 0 = img ∧
  createImprovedMask expApprox img (Some 0) (Some 0) = binaryMask img ∧
  (∀ featherRadius expandPixels : Z,
     let processed := if 0 <? expandPixels
                      then dilateMask (binaryMask img) expandPixels
                      else binaryMask img in
     createImprovedMask expApprox img (Some featherRadius) (Some expandPixels) =
     if 0 <? featherRadius then applyGaussianBlur expApprox processed featherRadius
     else processed) ∧
  (∀ expandPixels : Z,
     createImprovedMask expApprox img (Some 0) (Some expandPixels) =
     if 0 <? expandPixels then dilateMask (binaryMask img) expandPixels
     else binaryMask img).
Proof.
  split; [by destruct img|]. split; [done|]. split; [done|]. done.
Qed.

(** [applyGaussianBlur] with radius 0 on one opaque white pixel returns a
    transparent black pixel. *)
Lemma applyGaussianBlur_0_not_identity :
  applyGaussianBlur expOne whitePixel 0 = mkImageData 1 1 [0; 0; 0; 0] ∧
  data whitePixel = [255; 255; 255; 255] ∧
  applyGaussianBlur expOne whitePixel 0 ≠ whitePixel.
Proof.
  rewrite applyGaussianBlur_0. split; [reflexivity|]. split; [reflexivity|].
  discriminate.
Qed.

End ZeroParameterClaims.

(** ** History *)

Section HistoryFacts.
Import SegmentArt Fixtures.

Lemma slice0_in_range {A : Type} (l : list A) (e : Z) :
  0 ≤ e → slice0 l e = take (Z.to_nat e) l.
Proof. intros He. unfold slice0. replace (e <? 0) with false by lia. done. Qed.

(** What the code does around one extraction, from any state whose history
    index points into the history: undo restores the snapshot stored at
    that index, and redo then restores the document from before the
    extraction, not the document the extraction produced. *)
Theorem extraction_undo_redo (now : Z) (layerUrl type : string)
    (position : option (Z * Z * Z * Z)) (newBase : string) (st : State) :
  0 ≤ historyIndex st < Z.of_nat (length (history st)) →
  let s1 := extraction now layerUrl type position newBase st in
  ∃ s2 s3 snap,
    history st !! Z.to_nat (historyIndex st) = Some snap ∧
    handleUndo s1 = Some s2 ∧
    document s2 = (hs_image snap, hs_layers snap) ∧
    handleRedo s2 = Some s3 ∧
    document s3 = document st ∧
    document s3 ≠ document s1.
Proof.
  intros Hidx s1.
  destruct (lookup_lt_is_Some_2 (history st) (Z.to_nat (historyIndex st)))
    as [snap Hsnap]; [lia|].
  set (newHistory := take (Z.to_nat (historyIndex st + 1)) (history st)
                     ++ [mkHistoryState (uploadedImage st) (layers st)]).
  assert (Hlen : Z.of_nat (length newHistory) = historyIndex st + 2).
  { unfold newHistory. rewrite length_app, length_take. simpl. lia. }
  assert (Hh1 : history s1 = newHistory).
  { unfold s1, extraction, handleImageUpdate, handleSegment, saveToHistory. simpl.
    rewrite slice0_in_range by lia. done. }
  assert (Hi1 : historyIndex s1 = historyIndex st + 1).
  { unfold s1, extraction, handleImageUpdate, handleSegment, saveToHistory. simpl.
    rewrite slice0_in_range by lia. fold newHistory. lia. }
  assert (Hl1 : length (layers s1) = S (length (layers st))).
  { unfold s1, extraction, handleImageUpdate, handleSegment, saveToHistory. simpl.
    rewrite length_app. simpl. lia. }
  clearbody s1.
  assert (Hat0 : newHistory !! Z.to_nat (historyIndex st) = Some snap).
  { unfold newHistory. rewrite lookup_app_l by (rewrite length_take; lia).
    rewrite lookup_take_lt by lia. done. }
  assert (Hat1 : newHistory !! Z.to_nat (historyIndex st + 1)
                 = Some (mkHistoryState (uploadedImage st) (layers st))).
  { unfold newHistory. rewrite lookup_app_r by (rewrite length_take; lia).
    rewrite length_take.
    replace (Z.to_nat (historyIndex st + 1)
             - Z.to_nat (historyIndex st + 1) `min` length (history st))%nat
      with 0%nat by lia.
    done. }
  exists (toast "Undo" "Reverted to previous state" false
            (setHistoryIndex (historyIndex st)
               (setLayers (hs_layers snap) (setUploadedImage (hs_image snap) s1)))).
  exists (toast "Redo" "Restored next state" false
            (setHistoryIndex (historyIndex st + 1)
               (setLayers (layers st) (setUploadedImage (uploadedImage st)
                  (toast "Undo" "Reverted to previous state" false
                     (setHistoryIndex (historyIndex st)
                        (setLayers (hs_layers snap)
                           (setUploadedImage (hs_image snap) s1)))))))).
  exists snap. split; [done|].
  split.
  { unfold handleUndo. rewrite Hi1, Hh1.
    replace (0 <? historyIndex st + 1) with true by lia.
    replace (historyIndex st + 1 - 1) with (historyIndex st) by lia.
    rewrite Hat0. reflexivity. }
  split; [reflexivity|].
  split.
  { unfold handleRedo. simpl. rewrite Hh1, Hlen.
    replace (historyIndex st <? historyIndex st + 2 - 1) with true by lia.
    replace (historyIndex st + 1 <? 0) with false by lia.
    rewrite Hat1. reflexivity. }
  split; [reflexivity|].
  unfold document. simpl. intros Heq.
  injection Heq as _ Hl. rewrite Hl in Hl1. lia.
Qed.

Lemma extraction_undo_redo_witness :
  0 ≤ historyIndex freshState < Z.of_nat (length (history freshState)) ∧
  ∃ s2 s3,
    handleUndo (extraction 1700000000000 "data:layer" "Lasso Selection" None
                  "data:base1" freshState) = Some s2 ∧
    handleRedo s2 = Some s3 ∧
    document s2 = document freshState ∧
    document s3 = document freshState ∧
    document s3 ≠ document (extraction 1700000000000 "data:layer" "Lasso Selection" None
                              "data:base1" freshState).
Proof.
  split; [vm_compute; split; [discriminate | reflexivity]|].
  destruct (extraction_undo_redo 1700000000000 "data:layer" "Lasso Selection" None
              "data:base1" freshState)
    as (s2 & s3 & snap & Hsnap & Hundo & Hdoc2 & Hredo & Hdoc3 & Hne).
  { vm_compute. split; [discriminate | reflexivity]. }
  exists s2, s3. split; [exact Hundo|]. split; [exact Hredo|].
  split; [|split; [exact Hdoc3 | exact Hne]].
  rewrite Hdoc2. injection Hsnap as <-. reflexivity.
Defined.

(** After a second extraction, undo goes back to the upload, skipping the
    document that the first extraction produced. *)
Example undo_after_second_extraction :
  let sA := extraction 1 "data:layerA" "mask" None "data:baseA" freshState in
  let sB := extraction 2 "data:layerB" "mask" None "data:baseB" sA in
  (document <$> handleUndo sB) = Some (document freshState) ∧
  document freshState ≠ document sA.
Proof. split; [reflexivity | discriminate]. Qed.

End HistoryFacts.

(** ** Merging layers *)

Section MergeClaims.
Import SegmentArt Fixtures.

(** C6, as the code has it. With fewer than two selected ids the merge is
    refused with a destructive toast and the layers, the base image and the
    history stay as they were. With two or more ids, when the selected
    layers of the stack are [first :: rest] in stack order and their images
    load, the images are drawn in that order on a canvas of the size of
    [first], the selected layers leave the stack, and the flattened layer
    becomes the last element of the stack, above every remaining layer. *)
Theorem mergeLayers_result (imageSizeOf : string → option (Z * Z))
    (flatten : Z → Z → list string → string) (now : Z) (st : State) :
  ((size (selectedLayerIds st) < 2)%nat →
   ∃ st', mergeLayers imageSizeOf flatten now st = MergeDone st' ∧
          layers st' = layers st ∧ length (layers st') = length (layers st) ∧
          uploadedImage st' = uploadedImage st ∧
          history st' = history st ∧ historyIndex st' = historyIndex st ∧
          last (toasts st') =
            Some (mkToast "Select More Layers"
                    "Please select at least 2 layers to merge" true)) ∧
  (∀ first rest w h,
     (2 ≤ size (selectedLayerIds st))%nat →
     filter (λ l, layer_id l ∈ selectedLayerIds st) (layers st) = first :: rest →
     imageSizeOf (layer_url first) = Some (w, h) →
     (∀ l, l ∈ rest → is_Some (imageSizeOf (layer_url l))) →
     ∃ st' merged,
       mergeLayers imageSizeOf flatten now st = MergeDone st' ∧
       layers st' =
         filter (λ l, layer_id l ∉ selectedLayerIds st) (layers st) ++ [merged] ∧
       last (layers st') = Some merged ∧
       layer_url merged = flatten w h (layer_url <$> first :: rest) ∧
       layer_width merged = w ∧ layer_height merged = h ∧
       layer_type merged = "merged" ∧
       selectedLayerIds st' = ∅ ∧ isMerging st' = false).
Proof.
  split.
  - intros Hsize. unfold mergeLayers.
    replace (size (selectedLayerIds st) <? 2)%nat with true
      by (symmetry; apply Nat.ltb_lt; lia).
    eexists. split; [reflexivity|]. simpl.
    repeat (split; [done|]). by rewrite last_snoc.
  - intros first rest w h Hsize Hsel Hfirst Hrest. unfold mergeLayers.
    replace (size (selectedLayerIds st) <? 2)%nat with false
      by (symmetry; apply Nat.ltb_ge; lia).
    rewrite Hsel, Hfirst.
    assert (Hall : forallb (λ l, bool_decide (is_Some (imageSizeOf (layer_url l))))
                     (first :: rest) = true).
    { apply forallb_forall. intros l Hl. apply bool_decide_eq_true.
      apply list_elem_of_In in Hl. apply elem_of_cons in Hl as [->|Hl].
      - rewrite Hfirst. by eexists.
      - by apply Hrest. }
    rewrite Hall. eexists _, _. split; [reflexivity|]. simpl.
    split; [reflexivity|]. split; [by rewrite last_snoc|].
    repeat (split; [done|]). done.
Qed.

(** With layers a, b, c, d and a, b selected, the merged layer ends up on
    top of c and d, which lay above b. *)
Lemma mergeLayers_appends_on_top :
  ∃ st' : State,
    mergeLayers sizeAlways100 flattenNames 7 mergeState = MergeDone st' ∧
    layer_id <$> layers mergeState = ["a"; "b"; "c"; "d"] ∧
    layer_id <$> layers st' = ["c"; "d"; "layer-7"].
Proof. eexists. split; [vm_compute; reflexivity|]. split; reflexivity. Qed.

End MergeClaims.

(** ** Hole fill *)

Lemma last_toast_snoc (title description : string) (destructive : bool)
    (st : SegmentArt.State) :
  last (SegmentArt.toasts (SegmentArt.toast title description destructive st))
  = Some (SegmentArt.mkToast title description destructive).
Proof. unfold SegmentArt.toast. simpl. apply last_snoc. Qed.

Section FillClaims.
Import SegmentArt.

Variable expApprox : JSNum.num → JSNum.num.
Variable localContentAwareFill : string → string + string.
Variable loadImage : string → option ImageData.
Variable pixelsReadable : string → bool.
Variable fetchBlob : string → bool.
Variable contentAwareFill : string → ImageData → string → (string * option string) + string.

(** C8. Whatever the local fill, the browser and the remote fill answer,
    [handleContentAwareFill] leaves the layer stack and the layer selection
    as they were. Either the base image and the history are untouched as
    well, or the run succeeded: the base image is replaced and the history
    is the one [saveToHistory] builds from the state before the fill. A run
    that ends on a destructive toast, and in particular a remote fill that
    throws, changes neither the base image nor any layer nor the
    history. *)
Theorem handleContentAwareFill_frame (st : State) :
  let st' := handleContentAwareFill expApprox localContentAwareFill loadImage
               pixelsReadable fetchBlob contentAwareFill st in
  layers st' = layers st ∧
  selectedLayerIds st' = selectedLayerIds st ∧
  (sameDocumentAndHistory st st' ∨ (baseReplaced st st' ∧ ¬ endedOnError st')) ∧
  (endedOnError st' → sameDocumentAndHistory st st') ∧
  (∀ image imageData message,
     uploadedImage st = Some image → useLocalFill st = false →
     loadImage image = Some imageData →
     contentAwareFill image
       (MaskOps.createImprovedMask expApprox imageData
          (Some (featherAmount st)) (Some (maskExpandPixels st)))
       (generateSmartPrompt st (0 <? length (regionLabels st))%nat) = inr message →
     sameDocumentAndHistory st st' ∧ endedOnError st').
Proof.
  intros st'.
  assert (Hcases :
    (layers st' = layers st ∧ selectedLayerIds st' = selectedLayerIds st ∧
     sameDocumentAndHistory st st' ∧ endedOnError st') ∨
    (layers st' = layers st ∧ selectedLayerIds st' = selectedLayerIds st ∧
     (baseReplaced st st' ∧ ¬ endedOnError st') ∧
     (useLocalFill st = true ∨
      ∃ image imageData r,
        uploadedImage st = Some image ∧ loadImage image = Some imageData ∧
        contentAwareFill image
          (MaskOps.createImprovedMask expApprox imageData
             (Some (featherAmount st)) (Some (maskExpandPixels st)))
          (generateSmartPrompt st (0 <? length (regionLabels st))%nat) = inl r))).
  { unfold st', handleContentAwareFill, fillFailed. clear st'.
    unfold sameDocumentAndHistory, baseReplaced, endedOnError.
    destruct (uploadedImage st) as [image|] eqn:Himg.
    2:{ left. simpl. rewrite last_snoc, Himg. repeat split; try done. by eexists. }
    destruct (useLocalFill st) eqn:Hlocal.
    { destruct (localContentAwareFill image) as [url|message].
      - right. simpl. rewrite !last_snoc, Himg.
        split; [done|]. split; [done|]. split; [|by left].
        split; [exists url; done|].
        intros (t & Ht & Hd). injection Ht as <-. discriminate Hd.
      - left. simpl. rewrite last_snoc, Himg. repeat split; try done. by eexists. }
    destruct (loadImage image) as [imageData|] eqn:Hload.
    2:{ left. simpl. rewrite last_snoc, Himg. repeat split; try done. by eexists. }
    destruct (pixelsReadable image); simpl negb; cbv iota.
    2:{ left. simpl. rewrite last_snoc, Himg. repeat split; try done. by eexists. }
    destruct (hasTransparency (data imageData)); simpl negb; cbv iota.
    2:{ left. simpl. rewrite last_snoc, Himg. repeat split; try done. by eexists. }
    destruct (fetchBlob image); simpl negb; cbv iota.
    2:{ left. simpl. rewrite last_snoc, Himg. repeat split; try done. by eexists. }
    destruct (contentAwareFill image _ _) as [[url debugData]|message] eqn:Hfill.
    - right. destruct debugData as [d|]; simpl; rewrite !last_snoc, Himg.
      + split; [done|]. split; [done|]. split.
        * split; [exists url; done|].
          intros (t & Ht & Hd). injection Ht as <-. discriminate Hd.
        * right. exists image, imageData, (url, Some d). done.
      + split; [done|]. split; [done|]. split.
        * split; [exists url; done|].
          intros (t & Ht & Hd). injection Ht as <-. discriminate Hd.
        * right. exists image, imageData, (url, None). done.
    - left. simpl. rewrite last_snoc, Himg. repeat split; try done. by eexists. }
  destruct Hcases as [(H1 & H2 & H3 & H4) | (H1 & H2 & [H3 H4] & H5)].
  - split; [exact H1|]. split; [exact H2|]. split; [by left|]. split; [done|]. done.
  - split; [exact H1|]. split; [exact H2|]. split; [by right|]. split; [done|].
    intros image imageData message Hi Hl Hload Hfill.
    destruct H5 as [H5 | (image' & imageData' & r & Hi' & Hload' & Hfill')].
    + congruence.
    + rewrite Hi in Hi'. injection Hi' as <-. rewrite Hload in Hload'.
      injection Hload' as <-. rewrite Hfill in Hfill'. discriminate.
Qed.
End FillClaims.

(** ** Retries *)

Section RetryFacts.
Import Api.
Context {R : Type}.
Variable attempt : nat → Attempt R.
Variable msg : nat → string.

Lemma detectObjectsLoop_returned (k retries n : nat) (lastError : option string) (r : R) :
  (k < retries)%nat →
  (∀ j, (j < k)%nat → attempt (n + j) = Thrown (msg (n + j))) →
  attempt (n + k) = Returned r →
  detectObjectsLoop attempt retries n lastError
  = (Returned r, runEvents (λ _, retryDelay) msg n k).
Proof.
  revert retries n lastError.
  induction k as [|k IH]; intros retries n lastError Hk Hthrown Hret.
  - destruct retries as [|retries]; [lia|]. simpl.
    rewrite Nat.add_0_r in Hret. rewrite Hret. unfold runEvents. simpl.
    by rewrite Nat.add_0_r.
  - destruct retries as [|retries]; [lia|].
    assert (Hn : attempt n = Thrown (msg n)).
    { specialize (Hthrown 0%nat). rewrite Nat.add_0_r in Hthrown. apply Hthrown. lia. }
    assert (Hrec : detectObjectsLoop attempt retries (S n) (Some (msg n))
                   = (Returned r, runEvents (λ _, retryDelay) msg (S n) k)).
    { apply IH; [lia | |].
      - intros j Hj. replace (S n + j)%nat with (n + S j)%nat by lia. apply Hthrown. lia.
      - replace (S n + k)%nat with (n + S k)%nat by lia. done. }
    cbn [detectObjectsLoop]. rewrite Hn.
    replace (1 <? S retries)%nat with true by (symmetry; apply Nat.ltb_lt; lia).
    replace (S retries <=? 1)%nat with false by (symmetry; apply Nat.leb_gt; lia).
    rewrite Hrec, !andb_true_r.
    replace (runEvents (λ _, retryDelay) msg n (S k))
      with (Request n :: Delay retryDelay :: runEvents (λ _, retryDelay) msg (S n) k).
    + by destruct (JSString.includes (msg n) "loading"),
           (JSString.includes (msg n) "Rate limit").
    + unfold runEvents. simpl. by replace (n + S k)%nat with (S (n + k)) by lia.
Qed.

Lemma detectObjectsLoop_exhausted (retries n : nat) (lastError : option string) :
  (∀ j, (j ≤ retries)%nat → attempt (n + j) = Thrown (msg (n + j))) →
  detectObjectsLoop attempt (S retries) n lastError
  = (Thrown (msg (n + retries)), runEvents (λ _, retryDelay) msg n retries).
Proof.
  revert n lastError.
  induction retries as [|retries IH]; intros n lastError Hthrown.
  - specialize (Hthrown 0%nat). rewrite Nat.add_0_r in *.
    cbn [detectObjectsLoop]. rewrite Hthrown by lia.
    replace (1 <? 1)%nat with false by reflexivity. rewrite !andb_false_r.
    replace (1 <=? 1)%nat with true by reflexivity.
    unfold runEvents. simpl. by rewrite Nat.add_0_r.
  - assert (Hn : attempt n = Thrown (msg n)).
    { specialize (Hthrown 0%nat). rewrite Nat.add_0_r in Hthrown. apply Hthrown. lia. }
    assert (Hrec : detectObjectsLoop attempt (S retries) (S n) (Some (msg n))
                   = (Thrown (msg (S n + retries)),
                      runEvents (λ _, retryDelay) msg (S n) retries)).
    { apply IH. intros j Hj.
      replace (S n + j)%nat with (n + S j)%nat by lia. apply Hthrown. lia. }
    cbn [detectObjectsLoop] in *. rewrite Hn.
    replace (1 <? S (S retries))%nat with true by (symmetry; apply Nat.ltb_lt; lia).
    replace (S (S retries) <=? 1)%nat with false by (symmetry; apply Nat.leb_gt; lia).
    rewrite Hrec, !andb_true_r.
    replace (n + S retries)%nat with (S n + retries)%nat by lia.
    replace (runEvents (λ _, retryDelay) msg n (S retries))
      with (Request n :: Delay retryDelay :: runEvents (λ _, retryDelay) msg (S n) retries).
    + by destruct (JSString.includes (msg n) "loading"),
           (JSString.includes (msg n) "Rate limit").
    + unfold runEvents. simpl. by replace (n + S retries)%nat with (S (n + retries)) by lia.
Qed.

Lemma retryLoop_returned (slow exhausted : string) (k retries n : nat)
    (lastError : option string) (r : R) :
  (k < retries)%nat →
  (∀ j, (j < k)%nat → attempt (n + j) = Thrown (msg (n + j))) →
  attempt (n + k) = Returned r →
  retryLoop attempt slow exhausted retries n lastError
  = (Returned r, runEvents (delayAfter slow) msg n k).
Proof.
  revert retries n lastError.
  induction k as [|k IH]; intros retries n lastError Hk Hthrown Hret.
  - destruct retries as [|retries]; [lia|]. simpl.
    rewrite Nat.add_0_r in Hret. rewrite Hret. unfold runEvents. simpl.
    by rewrite Nat.add_0_r.
  - destruct retries as [|retries]; [lia|].
    assert (Hn : attempt n = Thrown (msg n)).
    { specialize (Hthrown 0%nat). rewrite Nat.add_0_r in Hthrown. apply Hthrown. lia. }
    assert (Hrec : retryLoop attempt slow exhausted retries (S n) (Some (msg n))
                   = (Returned r, runEvents (delayAfter slow) msg (S n) k)).
    { apply IH; [lia | |].
      - intros j Hj. replace (S n + j)%nat with (n + S j)%nat by lia. apply Hthrown. lia.
      - replace (S n + k)%nat with (n + S k)%nat by lia. done. }
    cbn [retryLoop]. rewrite Hn.
    replace (1 <? S retries)%nat with true by (symmetry; apply Nat.ltb_lt; lia).
    rewrite Hrec, !andb_true_r.
    replace (runEvents (delayAfter slow) msg n (S k))
      with (Request n :: Delay (delayAfter slow (msg n))
            :: runEvents (delayAfter slow) msg (S n) k).
    + unfold delayAfter. by destruct (JSString.includes (msg n) slow).
    + unfold runEvents. simpl. by replace (n + S k)%nat with (S (n + k)) by lia.
Qed.

Lemma retryLoop_exhausted (slow exhausted : string) (retries n : nat)
    (lastError : option string) :
  (∀ j, (j ≤ retries)%nat → attempt (n + j) = Thrown (msg (n + j))) →
  retryLoop attempt slow exhausted (S retries) n lastError
  = (Thrown (msg (n + retries)), runEvents (delayAfter slow) msg n retries).
Proof.
  revert n lastError.
  induction retries as [|retries IH]; intros n lastError Hthrown.
  - specialize (Hthrown 0%nat). rewrite Nat.add_0_r in *.
    cbn [retryLoop]. rewrite Hthrown by lia.
    replace (1 <? 1)%nat with false by reflexivity. rewrite !andb_false_r.
    unfold runEvents. simpl. by rewrite Nat.add_0_r.
  - assert (Hn : attempt n = Thrown (msg n)).
    { specialize (Hthrown 0%nat). rewrite Nat.add_0_r in Hthrown. apply Hthrown. lia. }
    assert (Hrec : retryLoop attempt slow exhausted (S retries) (S n) (Some (msg n))
                   = (Thrown (msg (S n + retries)),
                      runEvents (delayAfter slow) msg (S n) retries)).
    { apply IH. intros j Hj.
      replace (S n + j)%nat with (n + S j)%nat by lia. apply Hthrown. lia. }
    cbn [retryLoop] in *. rewrite Hn.
    replace (1 <? S (S retries))%nat with true by (symmetry; apply Nat.ltb_lt; lia).
    rewrite Hrec, !andb_true_r.
    replace (n + S retries)%nat with (S n + retries)%nat by lia.
    replace (runEvents (delayAfter slow) msg n (S retries))
      with (Request n :: Delay (delayAfter slow (msg n))
            :: runEvents (delayAfter slow) msg (S n) retries).
    + unfold delayAfter. by destruct (JSString.includes (msg n) slow).
    + unfold runEvents. simpl. by replace (n + S retries)%nat with (S (n + retries)) by lia.
Qed.

End RetryFacts.

Section RetryClaims.
Import Api Fixtures.

(** C9, as the code has it. Each loop makes at most [maxRetries] = 3
    passes and retries after every error thrown inside a pass, whatever its
    message: a pass that returns ends the run, and three failing passes
    give three requests and the error of the last one. The class of the
    error only sets the delay before the next pass: [detectObjects] always
    waits [retryDelay]; [segmentImage] and [segmentLandscape] wait twice as
    long after a "loading" message, [contentAwareFill] after a "rate
    limit" message. Only the key validation, which runs before the first
    pass, fails without any request. *)
Theorem retry_policy {R : Type} (attempt : nat → Attempt R) (msg : nat → string) :
  ((detectObjects attempt false).2 = [] ∧ (segmentImage attempt false).2 = [] ∧
   (segmentLandscape attempt false).2 = [] ∧ (contentAwareFill attempt false).2 = []) ∧
  (∀ k r, (k < maxRetries)%nat →
     (∀ j, (j < k)%nat → attempt j = Thrown (msg j)) →
     attempt k = Returned r →
     detectObjects attempt true = (Returned r, runEvents (λ _, retryDelay) msg 0 k) ∧
     segmentImage attempt true = (Returned r, runEvents (delayAfter "loading") msg 0 k) ∧
     segmentLandscape attempt true = (Returned r, runEvents (delayAfter "loading") msg 0 k) ∧
     contentAwareFill attempt true
       = (Returned r, runEvents (delayAfter "rate limit") msg 0 k)) ∧
  ((∀ j, (j < maxRetries)%nat → attempt j = Thrown (msg j)) →
   detectObjects attempt true
     = (Thrown (msg 2%nat),
        [Request 0; Delay retryDelay; Request 1; Delay retryDelay; Request 2]) ∧
   segmentImage attempt true
     = (Thrown (msg 2%nat),
        [Request 0; Delay (delayAfter "loading" (msg 0%nat));
         Request 1; Delay (delayAfter "loading" (msg 1%nat)); Request 2]) ∧
   segmentLandscape attempt true
     = (Thrown (msg 2%nat),
        [Request 0; Delay (delayAfter "loading" (msg 0%nat));
         Request 1; Delay (delayAfter "loading" (msg 1%nat)); Request 2]) ∧
   contentAwareFill attempt true
     = (Thrown (msg 2%nat),
        [Request 0; Delay (delayAfter "rate limit" (msg 0%nat));
         Request 1; Delay (delayAfter "rate limit" (msg 1%nat)); Request 2])).
Proof.
  split; [by repeat split|]. split.
  - intros k r Hk Hthrown Hret.
    unfold detectObjects, segmentImage, segmentLandscape, contentAwareFill. simpl negb.
    cbv iota.
    rewrite (detectObjectsLoop_returned attempt msg k maxRetries 0 None r); [|done..].
    rewrite !(retryLoop_returned attempt msg _ _ k maxRetries 0 None r); done.
  - intros Hthrown.
    unfold detectObjects, segmentImage, segmentLandscape, contentAwareFill. simpl negb.
    cbv iota. unfold maxRetries in *.
    rewrite (detectObjectsLoop_exhausted attempt msg 2 0 None);
      [|intros j Hj; apply Hthrown; lia].
    rewrite !(retryLoop_exhausted attempt msg _ _ 2 0 None);
      [|intros j Hj; apply Hthrown; lia..].
    done.
Qed.

(** A service that answers 401 to every request is asked three times by
    [detectObjects], and an inpainting service out of quota three times by
    [contentAwareFill]; neither message counts as "loading" or "rate
    limit". *)
Lemma auth_and_quota_errors_are_retried :
  JSString.includes (detectObjectsError 401 None) "loading" = false ∧
  JSString.includes (detectObjectsError 401 None) "Rate limit" = false ∧
  requests (detectObjects (alwaysStatus 401) true).2 = [0; 1; 2]%nat ∧
  delays (detectObjects (alwaysStatus 401) true).2 = [1000; 1000] ∧
  JSString.includes "OpenAI quota exceeded. Please check your billing details."
    "rate limit" = false ∧
  requests (contentAwareFill alwaysQuota true).2 = [0; 1; 2]%nat ∧
  delays (contentAwareFill alwaysQuota true).2 = [1000; 1000].
Proof. vm_compute. repeat split; reflexivity. Qed.

End RetryClaims.

(** ** Row-major loops as one fold *)

Lemma forRange_rowMajor {S : Type} (w h : Z) (f : S → Z → Z → S) (s : S) :
  forRange 0 h (λ s y, forRange 0 w (λ s x, f s x y) s) s
  = fold_left (λ s c, f s c.1 c.2) (rowMajor w h) s.
Proof.
  unfold forRange, rowMajor. generalize (seqZ 0 h) as ys. intros ys. revert s.
  induction ys as [|y ys IH]; intros s; [done|].
  cbn [fold_left mbind list_bind]. rewrite fold_left_app, <- IH. f_equal.
  generalize (seqZ 0 w) as xs. intros xs. revert s.
  induction xs as [|x xs IHx]; intros s; [done|].
  cbn. apply IHx.
Qed.

Lemma elem_of_rowMajor (w h x y : Z) :
  (x, y) ∈ rowMajor w h ↔ 0 ≤ x < w ∧ 0 ≤ y < h.
Proof.
  unfold rowMajor. rewrite list_elem_of_bind. split.
  - intros (y' & Hin & Hy'). apply list_elem_of_bind in Hin as (x' & Hin & Hx').
    apply list_elem_of_singleton in Hin. injection Hin as -> ->.
    apply elem_of_seqZ in Hy', Hx'. lia.
  - intros [Hx Hy]. exists y. split; [|apply elem_of_seqZ; lia].
    apply list_elem_of_bind. exists x. split; [by apply list_elem_of_singleton|].
    apply elem_of_seqZ. lia.
Qed.

Section MaskBoundsFacts.
Import KonvaCanvas MaskBounds.

(** The scan over any list of cells, from any starting values. *)
Lemma scan_fold (p : Z * Z → bool) (l : list (Z * Z)) (s : Scan) :
  let step := λ (s : Scan) (c : Z * Z),
    if p c
    then mkScan (Z.min (scan_xmin s) c.1) (Z.min (scan_ymin s) c.2)
                (Z.max (scan_xmax s) c.1) (Z.max (scan_ymax s) c.2) true
    else s in
  let s' := fold_left step l s in
  hasPixels s' = hasPixels s || existsb p l ∧
  (∀ c, c ∈ l → p c = true →
     scan_xmin s' ≤ c.1 ≤ scan_xmax s' ∧ scan_ymin s' ≤ c.2 ≤ scan_ymax s') ∧
  (scan_xmin s' ≤ scan_xmin s ∧ scan_ymin s' ≤ scan_ymin s ∧
   scan_xmax s ≤ scan_xmax s' ∧ scan_ymax s ≤ scan_ymax s') ∧
  (scan_xmin s' = scan_xmin s ∨ ∃ c, c ∈ l ∧ p c = true ∧ c.1 = scan_xmin s') ∧
  (scan_ymin s' = scan_ymin s ∨ ∃ c, c ∈ l ∧ p c = true ∧ c.2 = scan_ymin s') ∧
  (scan_xmax s' = scan_xmax s ∨ ∃ c, c ∈ l ∧ p c = true ∧ c.1 = scan_xmax s') ∧
  (scan_ymax s' = scan_ymax s ∨ ∃ c, c ∈ l ∧ p c = true ∧ c.2 = scan_ymax s').
Proof.
  intros step. revert s. induction l as [|c l IH]; intros s; cbn [fold_left existsb].
  - rewrite orb_false_r. split; [done|].
    split; [intros c0 Hc0; by apply elem_of_nil in Hc0|].
    split; [lia|]. repeat split; by left.
  - specialize (IH (step s c)).
    destruct IH as (Hhas & Hin & (Hm1 & Hm2 & Hm3 & Hm4) & Ha1 & Ha2 & Ha3 & Ha4).
    set (s' := fold_left step l (step s c)) in *.
    assert (Hstep : (p c = true ∧ step s c =
               mkScan (Z.min (scan_xmin s) c.1) (Z.min (scan_ymin s) c.2)
                      (Z.max (scan_xmax s) c.1) (Z.max (scan_ymax s) c.2) true)
            ∨ (p c = false ∧ step s c = s)).
    { unfold step. destruct (p c); [left|right]; done. }
    destruct Hstep as [[Hp Hs]|[Hp Hs]]; rewrite Hs in *; cbn in *; rewrite Hp.
    + split; [by rewrite Hhas, orb_true_r|].
      split.
      { intros c' Hc' Hp'. apply elem_of_cons in Hc' as [->|Hc']; [lia|by apply Hin]. }
      split; [lia|].
      assert (Hhere : ∀ (v : Z), v = c.1 ∨ v = c.2 → True) by done.
      repeat split.
      * destruct Ha1 as [Ha|(c' & ? & ? & ?)]; [|right; exists c'; by rewrite elem_of_cons; auto].
        destruct (Z.min_spec (scan_xmin s) c.1) as [[_ Hmin]|[_ Hmin]]; [left; lia|].
        right. exists c. split; [left|]. split; [done|lia].
      * destruct Ha2 as [Ha|(c' & ? & ? & ?)]; [|right; exists c'; by rewrite elem_of_cons; auto].
        destruct (Z.min_spec (scan_ymin s) c.2) as [[_ Hmin]|[_ Hmin]]; [left; lia|].
        right. exists c. split; [left|]. split; [done|lia].
      * destruct Ha3 as [Ha|(c' & ? & ? & ?)]; [|right; exists c'; by rewrite elem_of_cons; auto].
        destruct (Z.max_spec (scan_xmax s) c.1) as [[_ Hmax]|[_ Hmax]]; [|left; lia].
        right. exists c. split; [left|]. split; [done|lia].
      * destruct Ha4 as [Ha|(c' & ? & ? & ?)]; [|right; exists c'; by rewrite elem_of_cons; auto].
        destruct (Z.max_spec (scan_ymax s) c.2) as [[_ Hmax]|[_ Hmax]]; [|left; lia].
        right. exists c. split; [left|]. split; [done|lia].
    + split; [done|].
      split.
      { intros c' Hc' Hp'. apply elem_of_cons in Hc' as [->|Hc']; [congruence|by apply Hin]. }
      split; [lia|].
      repeat split.
      * destruct Ha1 as [Ha|(c' & ? & ? & ?)]; [by left|right; exists c'; by rewrite elem_of_cons; auto].
      * destruct Ha2 as [Ha|(c' & ? & ? & ?)]; [by left|right; exists c'; by rewrite elem_of_cons; auto].
      * destruct Ha3 as [Ha|(c' & ? & ? & ?)]; [by left|right; exists c'; by rewrite elem_of_cons; auto].
      * destruct Ha4 as [Ha|(c' & ? & ? & ?)]; [by left|right; exists c'; by rewrite elem_of_cons; auto].
Qed.

End MaskBoundsFacts.

Section MaskBoundsTheorems.
Import KonvaCanvas MaskBounds.

Lemma scanMask_fold (img : ImageData) :
  scanMask img =
  fold_left (λ (s : Scan) (c : Z * Z),
      if Buf.gt (channel img c.1 c.2 3) 0
      then mkScan (Z.min (scan_xmin s) c.1) (Z.min (scan_ymin s) c.2)
                  (Z.max (scan_xmax s) c.1) (Z.max (scan_ymax s) c.2) true
      else s)
    (rowMajor (width img) (height img))
    (mkScan (width img) (height img) 0 0 false).
Proof. unfold scanMask. by rewrite forRange_rowMajor. Qed.

(** X1. When some pixel of the decoded mask has alpha above 0, the box
    [calculateBoundsFromMaskImage] resolves with is the exact bounding box
    of those pixels, in pixel indices divided by the image size: every such
    pixel lies inside, and each of the four sides is touched by one. *)
Theorem calculateBoundsFromMaskImage_tight (img : ImageData) (x0 y0 : Z) :
  marked img x0 y0 →
  ∃ xmin ymin xmax ymax,
    calculateBoundsFromMaskImage (Some img) true =
      mkBounds (JSNum.div (JSNum.ofZ xmin) (JSNum.ofZ (width img)))
               (JSNum.div (JSNum.ofZ ymin) (JSNum.ofZ (height img)))
               (JSNum.div (JSNum.ofZ xmax) (JSNum.ofZ (width img)))
               (JSNum.div (JSNum.ofZ ymax) (JSNum.ofZ (height img))) ∧
    (∀ x y, marked img x y → xmin ≤ x ≤ xmax ∧ ymin ≤ y ≤ ymax) ∧
    (∃ y, marked img xmin y) ∧ (∃ y, marked img xmax y) ∧
    (∃ x, marked img x ymin) ∧ (∃ x, marked img x ymax).
Proof.
  intros (Hx0 & Hy0 & Hm0).
  pose proof (scan_fold (λ c, Buf.gt (channel img c.1 c.2 3) 0)
                (rowMajor (width img) (height img))
                (mkScan (width img) (height img) 0 0 false)) as Hscan.
  cbv beta zeta in Hscan. rewrite <- scanMask_fold in Hscan.
  destruct Hscan as (Hhas & Hin & _ & Ha1 & Ha2 & Ha3 & Ha4). cbn in Hhas, Ha1, Ha2, Ha3, Ha4.
  assert (Hcell : (x0, y0) ∈ rowMajor (width img) (height img))
    by (apply elem_of_rowMajor; lia).
  assert (Hex : existsb (λ c, Buf.gt (channel img c.1 c.2 3) 0)
                  (rowMajor (width img) (height img)) = true).
  { apply existsb_exists. exists (x0, y0). split; [by apply list_elem_of_In|done]. }
  rewrite Hex in Hhas.
  pose proof (Hin (x0, y0) Hcell Hm0) as Hb0. cbn in Hb0.
  assert (Hmarked : ∀ c, c ∈ rowMajor (width img) (height img) →
            Buf.gt (channel img c.1 c.2 3) 0 = true → marked img c.1 c.2).
  { intros [x y] Hc Hp. apply elem_of_rowMajor in Hc. cbn in *.
    split; [lia|]. split; [lia|done]. }
  set (s := scanMask img) in *.
  exists (scan_xmin s), (scan_ymin s), (scan_xmax s), (scan_ymax s).
  split; [|split; [|split; [|split; [|split]]]].
  - unfold calculateBoundsFromMaskImage. cbn. fold s. by rewrite Hhas.
  - intros x y (Hx & Hy & Hm). apply (Hin (x, y)); [apply elem_of_rowMajor; lia | done].
  - destruct Ha1 as [Heq|(c & Hc & Hp & Heq)]; [lia|].
    exists c.2. rewrite <- Heq. by apply Hmarked.
  - destruct Ha3 as [Heq|(c & Hc & Hp & Heq)].
    + exists y0. assert (x0 = scan_xmax s) as <- by lia.
      split; [lia|]. split; [lia|done].
    + exists c.2. rewrite <- Heq. by apply Hmarked.
  - destruct Ha2 as [Heq|(c & Hc & Hp & Heq)]; [lia|].
    exists c.1. rewrite <- Heq. by apply Hmarked.
  - destruct Ha4 as [Heq|(c & Hc & Hp & Heq)].
    + exists x0. assert (y0 = scan_ymax s) as <- by lia.
      split; [lia|]. split; [lia|done].
    + exists c.1. rewrite <- Heq. by apply Hmarked.
Qed.

Lemma calculateBoundsFromMaskImage_tight_witness :
  marked Fixtures.alphaMaskA 0 0 ∧
  ∃ xmin ymin xmax ymax,
    calculateBoundsFromMaskImage (Some Fixtures.alphaMaskA) true =
      mkBounds (JSNum.div (JSNum.ofZ xmin) (JSNum.ofZ 2))
               (JSNum.div (JSNum.ofZ ymin) (JSNum.ofZ 2))
               (JSNum.div (JSNum.ofZ xmax) (JSNum.ofZ 2))
               (JSNum.div (JSNum.ofZ ymax) (JSNum.ofZ 2)) ∧
    (∃ y, marked Fixtures.alphaMaskA xmin y).
Proof.
  assert (Hm : marked Fixtures.alphaMaskA 0 0).
  { split; [simpl; lia|]. split; [simpl; lia|]. reflexivity. }
  split; [exact Hm|].
  destruct (calculateBoundsFromMaskImage_tight Fixtures.alphaMaskA 0 0 Hm)
    as (xmin & ymin & xmax & ymax & Heq & _ & Hleft & _).
  exists xmin, ymin, xmax, ymax. split; [exact Heq | exact Hleft].
Defined.

(** X2. A mask that fails to decode, a missing 2D context, or a mask
    without any pixel of alpha above 0 all give the whole-image box
    (0, 0, 1, 1); the promise never rejects. *)
Theorem calculateBoundsFromMaskImage_default (decoded : option ImageData)
    (hasContext : bool) :
  (∀ img, decoded = Some img → hasContext = true → ∀ x y, ¬ marked img x y) →
  calculateBoundsFromMaskImage decoded hasContext = fullBox.
Proof.
  intros Hnone. unfold calculateBoundsFromMaskImage.
  destruct decoded as [img|]; [|done].
  destruct hasContext; [|done]. cbn.
  pose proof (scan_fold (λ c, Buf.gt (channel img c.1 c.2 3) 0)
                (rowMajor (width img) (height img))
                (mkScan (width img) (height img) 0 0 false)) as Hscan.
  cbv beta zeta in Hscan. rewrite <- scanMask_fold in Hscan.
  destruct Hscan as (Hhas & _). cbn in Hhas.
  destruct (existsb _ _) eqn:Hex; [|by rewrite Hhas].
  apply existsb_exists in Hex as ([x y] & Hc & Hp).
  apply list_elem_of_In, elem_of_rowMajor in Hc.
  exfalso. apply (Hnone img eq_refl eq_refl x y). cbn in Hp.
  split; [lia|]. split; [lia|done].
Qed.

Lemma calculateBoundsFromMaskImage_default_witness :
  calculateBoundsFromMaskImage
    (Some (mkImageData 2 1 [9; 9; 9; 0; 7; 7; 7; 0])) true = fullBox ∧
  calculateBoundsFromMaskImage None true = fullBox.
Proof.
  split.
  - apply calculateBoundsFromMaskImage_default.
    intros img Himg _ x y (Hx & Hy & Hm). injection Himg as <-.
    simpl in Hx, Hy. assert (y = 0) as -> by lia.
    assert (x = 0 ∨ x = 1) as [->| ->] by lia; discriminate Hm.
  - apply calculateBoundsFromMaskImage_default. intros img Himg. discriminate Himg.
Defined.

End MaskBoundsTheorems.

(** ** Filling gaps with the average colour *)

Section LocalFillFacts.
Import LocalFill.

Lemma fold_left_collect {A B : Type} (p : A → bool) (f : A → B) (l : list A) (acc : list B) :
  fold_left (λ acc a, if p a then acc ++ [f a] else acc) l acc
  = acc ++ (f <$> filter (λ a, p a = true) l).
Proof.
  revert acc. induction l as [|a l IH]; intros acc; cbn [fold_left].
  - by rewrite app_nil_r.
  - rewrite IH, filter_cons. destruct (p a) eqn:Hp.
    + rewrite decide_True by done. by rewrite fmap_cons, <- app_assoc.
    + rewrite decide_False by (by intros ?). done.
Qed.

Lemma transparentPixels_filter (img : ImageData) :
  transparentPixels img =
  (λ c : Z * Z, pixelIndex (width img) c.1 c.2) <$>
    filter (λ c : Z * Z, isGap img c.1 c.2 = true) (rowMajor (width img) (height img)).
Proof.
  unfold transparentPixels.
  rewrite (forRange_rowMajor (width img) (height img)
             (λ acc x y, if Buf.lt (Buf.get (data img) (pixelIndex (width img) x y + 3)) 200
                         then acc ++ [pixelIndex (width img) x y] else acc)).
  apply (fold_left_collect (λ c : Z * Z, isGap img c.1 c.2)
           (λ c : Z * Z, pixelIndex (width img) c.1 c.2)).
Qed.

Lemma elem_of_transparentPixels (img : ImageData) (x y : Z) :
  0 ≤ x < width img → 0 ≤ y < height img →
  pixelIndex (width img) x y ∈ transparentPixels img ↔ isGap img x y = true.
Proof.
  intros Hx Hy. rewrite transparentPixels_filter, list_elem_of_fmap. split.
  - intros ([x' y'] & Heq & Hin). apply list_elem_of_filter in Hin as [Hgap Hin].
    apply elem_of_rowMajor in Hin. cbn in *.
    destruct (pixelIndex_block_inj (width img) x y 0 x' y' 0) as (-> & -> & _);
      [lia.. | done].
  - intros Hgap. exists (x, y). split; [done|].
    apply list_elem_of_filter. split; [done|]. apply elem_of_rowMajor. lia.
Qed.

Lemma transparentPixels_mod4 (img : ImageData) :
  Forall (λ idx, idx mod 4 = 0) (transparentPixels img).
Proof.
  rewrite transparentPixels_filter. apply Forall_fmap, Forall_forall.
  intros c _. apply pixelIndex_mod4.
Qed.

Lemma transparentPixels_nil (img : ImageData) :
  (∀ x y, 0 ≤ x < width img → 0 ≤ y < height img → isGap img x y = false) →
  transparentPixels img = [].
Proof.
  intros Hno. rewrite transparentPixels_filter.
  destruct (filter _ _) as [|[x y] l] eqn:Hf; [done|].
  assert (Hin : (x, y) ∈ filter (λ c : Z * Z, isGap img c.1 c.2 = true)
                          (rowMajor (width img) (height img))) by (rewrite Hf; left).
  apply list_elem_of_filter in Hin as [Hgap Hin]. apply elem_of_rowMajor in Hin.
  cbn in Hgap. rewrite Hno in Hgap by lia. done.
Qed.

(** The painting loop seen at one byte: the bytes of a listed pixel are
    replaced, all others stay. *)
Lemma paint_get (pixels : list Z) (color : Z * Z * Z) (d : list Z) (j : Z) :
  Forall (λ idx, idx mod 4 = 0) pixels →
  Buf.get (paint pixels color d) j =
  if bool_decide (4 * (j / 4) ∈ pixels)
  then (λ _, MaskOps.pick color.1.1 color.1.2 color.2 255 (j mod 4)) <$> Buf.get d j
  else Buf.get d j.
Proof.
  unfold paint. revert d. induction pixels as [|idx pixels IH]; intros d Hmod; cbn [fold_left].
  - done.
  - apply Forall_cons in Hmod as [Hidx Hmod]. rewrite IH by done.
    rewrite four_sets_get.
    pose proof (Z.div_mod j 4 ltac:(lia)) as Hdm.
    pose proof (Z.div_mod idx 4 ltac:(lia)) as Hdi.
    pose proof (Z.mod_pos_bound j 4 ltac:(lia)) as Hb.
    destruct (decide (idx ≤ j < idx + 4)) as [Hhere|Hnot].
    + assert (idx = 4 * (j / 4)) as Heq by lia.
      assert (j - idx = j mod 4) as -> by lia.
      rewrite (bool_decide_eq_true_2 (4 * (j / 4) ∈ idx :: pixels)) by (rewrite <- Heq; left).
      destruct (bool_decide (4 * (j / 4) ∈ pixels)); destruct (Buf.get d j); done.
    + assert (idx ≠ 4 * (j / 4)) as Hne by lia.
      destruct (bool_decide (4 * (j / 4) ∈ pixels)) eqn:Hin.
      * apply bool_decide_eq_true in Hin.
        rewrite bool_decide_eq_true_2 by (by right). done.
      * apply bool_decide_eq_false in Hin.
        rewrite bool_decide_eq_false_2; [done|].
        intros [H|H]%elem_of_cons; [lia|done].
Qed.

Lemma paint_length (pixels : list Z) (color : Z * Z * Z) (d : list Z) :
  length (paint pixels color d) = length d.
Proof.
  unfold paint. apply fold_left_length_inv. intros d' idx. apply four_sets_length.
Qed.

(** The painted image, pixel by pixel. *)
Lemma paint_channel (img : ImageData) (color : Z * Z * Z) (x y c : Z) :
  0 ≤ x < width img → 0 ≤ y < height img → 0 ≤ c < 4 →
  channel (mkImageData (width img) (height img)
             (paint (transparentPixels img) color (data img))) x y c
  = if isGap img x y
    then (λ _, MaskOps.pick color.1.1 color.1.2 color.2 255 c) <$> channel img x y c
    else channel img x y c.
Proof.
  intros Hx Hy Hc. unfold channel. cbn [width height data].
  rewrite paint_get by apply transparentPixels_mod4.
  pose proof (pixelIndex_mod4 (width img) x y) as Hmod.
  pose proof (Z.div_mod (pixelIndex (width img) x y) 4 ltac:(lia)) as Hdm.
  assert (Hdiv : (pixelIndex (width img) x y + c) / 4 = pixelIndex (width img) x y / 4).
  { symmetry. apply (Z.div_unique _ 4 _ c); lia. }
  assert (Hrem : (pixelIndex (width img) x y + c) mod 4 = c).
  { symmetry. apply (Z.mod_unique _ 4 (pixelIndex (width img) x y / 4) c); lia. }
  rewrite Hdiv, Hrem.
  replace (4 * (pixelIndex (width img) x y / 4)) with (pixelIndex (width img) x y) by lia.
  destruct (isGap img x y) eqn:Hgap.
  - rewrite bool_decide_eq_true_2; [done|]. by apply elem_of_transparentPixels.
  - rewrite bool_decide_eq_false_2; [done|].
    intros Hin. apply elem_of_transparentPixels in Hin; [congruence|done..].
Qed.

Lemma toUint8Clamp_range (a : JSNum.num) : 0 ≤ JSNum.toUint8Clamp a ≤ 255.
Proof.
  destruct a as [s|s| |s m e]; cbn; try lia.
  - destruct s; lia.
  - destruct s; [lia|].
    destruct (0 <=? e) eqn:He.
    + pose proof (Z.pow_nonneg 2 e ltac:(lia)). nia.
    + assert (0 < 2 ^ (- e)) by (apply Z.pow_pos_nonneg; lia).
      pose proof (Z.div_pos (Z.pos m) (2 ^ (- e)) ltac:(lia) ltac:(lia)).
      destruct (2 * (Z.pos m mod 2 ^ (- e)) ?= 2 ^ (- e)); [destruct (Z.even _)|..]; lia.
Qed.

Lemma fillColor_range (colors : list Color) :
  let '(r, g, b) := fillColor colors in
  0 ≤ r ≤ 255 ∧ 0 ≤ g ≤ 255 ∧ 0 ≤ b ≤ 255.
Proof.
  unfold fillColor. destruct colors; [lia|].
  split; [|split]; apply toUint8Clamp_range.
Qed.

End LocalFillFacts.

Section LocalFillTheorems.
Import LocalFill.
Variable Math_cos Math_sin : JSNum.num → JSNum.num.

Lemma sampleRing_nil (img : ImageData) (idx radius : Z) :
  (∀ x y, 0 ≤ x < width img → 0 ≤ y < height img → isGap img x y = true) →
  sampleRing Math_cos Math_sin img idx radius [] = [].
Proof.
  intros Hgaps. unfold sampleRing, forRange.
  apply (fold_left_invariant (λ colors, colors = [])); [done|].
  intros colors i ->. cbv zeta.
  destruct (JSMath.toInteger _) as [sx|]; [|done].
  destruct (JSMath.toInteger _) as [sy|]; [|done].
  destruct (_ && _) eqn:Hin; [|done].
  specialize (Hgaps sx sy ltac:(lia) ltac:(lia)). unfold isGap, channel in Hgaps.
  destruct (Buf.get (data img) _) as [a|]; [|done].
  cbn in Hgaps. replace (200 <=? a) with false by lia. done.
Qed.

Lemma sampleRings_nil (img : ImageData) (idx : Z) (rs : list Z) :
  (∀ x y, 0 ≤ x < width img → 0 ≤ y < height img → isGap img x y = true) →
  sampleRings Math_cos Math_sin img idx rs [] = [].
Proof.
  intros Hgaps. induction rs as [|r rs IH]; [done|].
  cbn [sampleRings]. rewrite sampleRing_nil by done. cbn. apply IH.
Qed.

Lemma surroundingColors_nil (img : ImageData) (pixels : list Z) :
  (∀ x y, 0 ≤ x < width img → 0 ≤ y < height img → isGap img x y = true) →
  surroundingColors Math_cos Math_sin img pixels = [].
Proof.
  intros Hgaps. unfold surroundingColors.
  apply (fold_left_invariant (λ colors, colors = [])); [done|].
  intros colors idx ->. by apply sampleRings_nil.
Qed.

(** What painting the gaps of a well-formed image with one colour gives. *)
Lemma painted_frame (img : ImageData) (color : Z * Z * Z) :
  wfImageData img →
  let output := mkImageData (width img) (height img)
                  (paint (transparentPixels img) color (data img)) in
  ∀ x y, 0 ≤ x < width img → 0 ≤ y < height img →
    (isGap img x y = true →
       channel output x y 0 = Some color.1.1 ∧ channel output x y 1 = Some color.1.2 ∧
       channel output x y 2 = Some color.2 ∧ channel output x y 3 = Some 255) ∧
    (isGap img x y = false → ∀ c, 0 ≤ c < 4 → channel output x y c = channel img x y c).
Proof.
  intros Hwf output x y Hx Hy. split.
  - intros Hgap. unfold output.
    rewrite !paint_channel by lia. rewrite Hgap.
    destruct (channel_is_Some img x y 0 Hwf Hx Hy ltac:(lia)) as [v0 ->].
    destruct (channel_is_Some img x y 1 Hwf Hx Hy ltac:(lia)) as [v1 ->].
    destruct (channel_is_Some img x y 2 Hwf Hx Hy ltac:(lia)) as [v2 ->].
    destruct (channel_is_Some img x y 3 Hwf Hx Hy ltac:(lia)) as [v3 ->].
    done.
  - intros Hgap c Hc. unfold output. rewrite paint_channel by lia. by rewrite Hgap.
Qed.

(** Both fills are a painting of the gaps with one colour. *)
Lemma preFillTransparentAreas_painted (img : ImageData) :
  ∃ color : Z * Z * Z,
    (0 ≤ color.1.1 ≤ 255 ∧ 0 ≤ color.1.2 ≤ 255 ∧ 0 ≤ color.2 ≤ 255) ∧
    preFillTransparentAreas Math_cos Math_sin img =
    mkImageData (width img) (height img)
      (paint (transparentPixels img) color (data img)).
Proof.
  unfold preFillTransparentAreas.
  destruct (transparentPixels img) as [|idx rest] eqn:Htp.
  - exists (0, 0, 0). split; [cbn; lia | done].
  - set (colors := surroundingColors _ _ _ _).
    pose proof (fillColor_range colors) as Hrange.
    exists (fillColor colors). split; [|done].
    by destruct (fillColor colors) as [[r g] b].
Qed.

Lemma localFillPixels_painted (img : ImageData) :
  ∃ color : Z * Z * Z,
    (0 ≤ color.1.1 ≤ 255 ∧ 0 ≤ color.1.2 ≤ 255 ∧ 0 ≤ color.2 ≤ 255) ∧
    ((∀ x y, 0 ≤ x < width img → 0 ≤ y < height img → isGap img x y = true) →
     color = (255, 255, 255)) ∧
    localFillPixels Math_cos Math_sin img =
    mkImageData (width img) (height img)
      (paint (transparentPixels img) color (data img)).
Proof.
  unfold localFillPixels.
  set (colors := surroundingColors _ _ _ _).
  pose proof (fillColor_range colors) as Hrange.
  exists (fillColor colors). split; [|split; [|done]].
  - by destruct (fillColor colors) as [[r g] b].
  - intros Hgaps. unfold colors. by rewrite surroundingColors_nil.
Qed.

(** No gap is left in a painted image. *)
Lemma painted_no_gap (img : ImageData) (color : Z * Z * Z) (x y : Z) :
  wfImageData img → 0 ≤ x < width img → 0 ≤ y < height img →
  isGap (mkImageData (width img) (height img)
           (paint (transparentPixels img) color (data img))) x y = false.
Proof.
  intros Hwf Hx Hy.
  destruct (painted_frame img color Hwf x y Hx Hy) as [Hgap Hkeep].
  unfold isGap at 1. destruct (isGap img x y) eqn:Hg.
  - destruct Hgap as (_ & _ & _ & ->); done.
  - rewrite Hkeep by (done || lia). exact Hg.
Qed.

(** X3. [preFillTransparentAreas] keeps the size of the image, leaves
    every pixel with alpha of at least 200 exactly as it is, and gives
    every pixel with alpha below 200 one and the same colour with alpha
    255. *)
Theorem preFillTransparentAreas_frame (img : ImageData) :
  wfImageData img →
  let output := preFillTransparentAreas Math_cos Math_sin img in
  width output = width img ∧ height output = height img ∧
  ∃ r g b, 0 ≤ r ≤ 255 ∧ 0 ≤ g ≤ 255 ∧ 0 ≤ b ≤ 255 ∧
    ∀ x y, 0 ≤ x < width img → 0 ≤ y < height img →
      (isGap img x y = true →
         channel output x y 0 = Some r ∧ channel output x y 1 = Some g ∧
         channel output x y 2 = Some b ∧ channel output x y 3 = Some 255) ∧
      (isGap img x y = false → ∀ c, 0 ≤ c < 4 → channel output x y c = channel img x y c).
Proof.
  intros Hwf output.
  destruct (preFillTransparentAreas_painted img) as ([[r g] b] & (Hr & Hg & Hb) & Heq).
  unfold output. rewrite Heq.
  split; [done|]. split; [done|].
  exists r, g, b. repeat (split; [done|]).
  apply (painted_frame img (r, g, b) Hwf).
Qed.

(** X4. Pre-filling is idempotent: the result has no pixel with alpha
    below 200 left, so a second pass returns it unchanged. *)
Theorem preFillTransparentAreas_idempotent (img : ImageData) :
  wfImageData img →
  preFillTransparentAreas Math_cos Math_sin (preFillTransparentAreas Math_cos Math_sin img)
  = preFillTransparentAreas Math_cos Math_sin img.
Proof.
  intros Hwf.
  destruct (preFillTransparentAreas_painted img) as (color & _ & Heq).
  rewrite Heq. set (out := mkImageData _ _ _).
  assert (Hnil : transparentPixels out = []).
  { apply transparentPixels_nil. intros x y Hx Hy. by apply painted_no_gap. }
  unfold preFillTransparentAreas at 1. rewrite Hnil. done.
Qed.

(** X5. [localContentAwareFill] resolves with the URL it was given when the
    image has no pixel with alpha below 200. Otherwise it resolves with the
    encoding of an image of the same size in which the pixels with alpha of
    at least 200 are unchanged and all others have one colour and alpha
    255; when no pixel at all has alpha of at least 200 that colour is
    white. *)
Theorem localContentAwareFill_result (loadImage : string → option ImageData)
    (toDataURL : ImageData → string) (imageUrl : string) (img : ImageData) :
  loadImage imageUrl = Some img →
  wfImageData img →
  let result := localContentAwareFill Math_cos Math_sin loadImage true toDataURL imageUrl in
  ((∀ x y, 0 ≤ x < width img → 0 ≤ y < height img → isGap img x y = false) →
   result = inl imageUrl) ∧
  (∀ x0 y0, 0 ≤ x0 < width img → 0 ≤ y0 < height img → isGap img x0 y0 = true →
   ∃ filled r g b,
     result = inl (toDataURL filled) ∧
     width filled = width img ∧ height filled = height img ∧
     ((∀ x y, 0 ≤ x < width img → 0 ≤ y < height img → isGap img x y = true) →
      r = 255 ∧ g = 255 ∧ b = 255) ∧
     ∀ x y, 0 ≤ x < width img → 0 ≤ y < height img →
       (isGap img x y = true →
          channel filled x y 0 = Some r ∧ channel filled x y 1 = Some g ∧
          channel filled x y 2 = Some b ∧ channel filled x y 3 = Some 255) ∧
       (isGap img x y = false →
          ∀ c, 0 ≤ c < 4 → channel filled x y c = channel img x y c)).
Proof.
  intros Hload Hwf result. unfold result, localContentAwareFill. rewrite Hload. cbn [negb].
  split.
  - intros Hno. by rewrite transparentPixels_nil.
  - intros x0 y0 Hx0 Hy0 Hgap0.
    apply elem_of_transparentPixels in Hgap0; [|done..].
    destruct (transparentPixels img) as [|idx rest] eqn:Htp;
      [by apply elem_of_nil in Hgap0|].
    destruct (localFillPixels_painted img) as ([[r g] b] & _ & Hwhite & Heq).
    exists (localFillPixels Math_cos Math_sin img), r, g, b.
    split; [done|]. rewrite Heq.
    split; [done|]. split; [done|]. split.
    + intros Hall. specialize (Hwhite Hall). by injection Hwhite as -> -> ->.
    + apply (painted_frame img (r, g, b) Hwf).
Qed.

End LocalFillTheorems.

Lemma preFillTransparentAreas_frame_witness :
  wfImageData Fixtures.alphaMaskA ∧
  channel (LocalFill.preFillTransparentAreas (λ _, JSNum.ofZ 1) (λ _, JSNum.ofZ 0)
             Fixtures.alphaMaskA) 1 0 3 = Some 255 ∧
  channel (LocalFill.preFillTransparentAreas (λ _, JSNum.ofZ 1) (λ _, JSNum.ofZ 0)
             Fixtures.alphaMaskA) 0 0 3 = channel Fixtures.alphaMaskA 0 0 3.
Proof.
  assert (Hwf : wfImageData Fixtures.alphaMaskA)
    by (apply wfImageData_checked; vm_compute; reflexivity).
  split; [exact Hwf|].
  destruct (preFillTransparentAreas_frame (λ _, JSNum.ofZ 1) (λ _, JSNum.ofZ 0)
              Fixtures.alphaMaskA Hwf) as (_ & _ & r & g & b & _ & _ & _ & Hpix).
  split.
  - destruct (Hpix 1 0) as [Hgap _]; [simpl; lia..|].
    destruct Hgap as (_ & _ & _ & Ha); [reflexivity | exact Ha].
  - destruct (Hpix 0 0) as [_ Hkeep]; [simpl; lia..|].
    apply Hkeep; [reflexivity | lia].
Defined.

Lemma preFillTransparentAreas_idempotent_witness :
  wfImageData Fixtures.alphaMaskA ∧
  LocalFill.preFillTransparentAreas (λ _, JSNum.ofZ 1) (λ _, JSNum.ofZ 0)
    (LocalFill.preFillTransparentAreas (λ _, JSNum.ofZ 1) (λ _, JSNum.ofZ 0)
       Fixtures.alphaMaskA)
  = LocalFill.preFillTransparentAreas (λ _, JSNum.ofZ 1) (λ _, JSNum.ofZ 0)
      Fixtures.alphaMaskA.
Proof.
  assert (Hwf : wfImageData Fixtures.alphaMaskA)
    by (apply wfImageData_checked; vm_compute; reflexivity).
  split; [exact Hwf|].
  exact (preFillTransparentAreas_idempotent (λ _, JSNum.ofZ 1) (λ _, JSNum.ofZ 0)
           Fixtures.alphaMaskA Hwf).
Defined.

Lemma localContentAwareFill_result_witness :
  wfImageData Fixtures.whitePixel ∧
  LocalFill.localContentAwareFill (λ _, JSNum.ofZ 1) (λ _, JSNum.ofZ 0)
    (λ _, Some Fixtures.whitePixel) true (λ _, "data:image/png;base64,BBBB"%string)
    "blob:base"%string
  = inl "blob:base"%string.
Proof.
  assert (Hwf : wfImageData Fixtures.whitePixel)
    by (apply wfImageData_checked; vm_compute; reflexivity).
  split; [exact Hwf|].
  apply (localContentAwareFill_result (λ _, JSNum.ofZ 1) (λ _, JSNum.ofZ 0)
           (λ _, Some Fixtures.whitePixel) (λ _, "data:image/png;base64,BBBB"%string)
           "blob:base"%string Fixtures.whitePixel eq_refl Hwf).
  intros x y Hx Hy. simpl in Hx, Hy.
  assert (x = 0) as -> by lia. assert (y = 0) as -> by lia. reflexivity.
Defined.

Section LocalFillInHandler.
Import SegmentArt.

Variable Math_cos Math_sin expApprox : JSNum.num → JSNum.num.
Variable loadImage : string → option ImageData.
Variable toDataURL : ImageData → string.
Variable pixelsReadable : string → bool.
Variable fetchBlob : string → bool.
Variable contentAwareFill : string → ImageData → string → (string * option string) + string.

(** X6. With the local fill selected, [handleContentAwareFill] on a base
    image without any pixel of alpha below 200 keeps the base image URL and
    the layers, yet appends a snapshot of the unchanged document to the
    history and ends on the non-destructive toast 'Success!'. *)
Theorem handleContentAwareFill_local_without_gaps (st : State) (url : string)
    (img : ImageData) :
  uploadedImage st = Some url →
  useLocalFill st = true →
  loadImage url = Some img →
  (∀ x y, 0 ≤ x < width img → 0 ≤ y < height img → LocalFill.isGap img x y = false) →
  let st' := handleContentAwareFill expApprox
               (LocalFill.localContentAwareFill Math_cos Math_sin loadImage true toDataURL)
               loadImage pixelsReadable fetchBlob contentAwareFill st in
  uploadedImage st' = Some url ∧
  layers st' = layers st ∧
  history st' = slice0 (history st) (historyIndex st + 1)
                ++ [mkHistoryState (Some url) (layers st)] ∧
  historyIndex st' = Z.of_nat (length (history st')) - 1 ∧
  isFillingContent st' = false ∧
  last (toasts st') =
    Some (mkToast "Success!" "Gaps filled with average surrounding color (instant, no AI)"
            false).
Proof.
  intros Himg Hlocal Hload Hno st'.
  unfold st', handleContentAwareFill. rewrite Himg, Hlocal.
  unfold LocalFill.localContentAwareFill. rewrite Hload. cbn [negb].
  rewrite transparentPixels_nil by done.
  cbn. rewrite Himg, last_snoc. done.
Qed.

End LocalFillInHandler.

Lemma handleContentAwareFill_local_without_gaps_witness :
  let st := SegmentArt.handleImageUpdate "blob:base" Fixtures.freshState in
  let st' := SegmentArt.handleContentAwareFill Fixtures.expOne
               (LocalFill.localContentAwareFill (λ _, JSNum.ofZ 1) (λ _, JSNum.ofZ 0)
                  (λ _, Some Fixtures.whitePixel) true (λ _, "data:filled"%string))
               (λ _, Some Fixtures.whitePixel) (λ _, true) (λ _, true)
               (λ _ _ _, inr "unused"%string) st in
  SegmentArt.uploadedImage st' = Some "blob:base"%string ∧
  length (SegmentArt.history st') = 2%nat.
Proof.
  intros st st'.
  destruct (handleContentAwareFill_local_without_gaps
              (λ _, JSNum.ofZ 1) (λ _, JSNum.ofZ 0) Fixtures.expOne
              (λ _, Some Fixtures.whitePixel) (λ _, "data:filled"%string)
              (λ _, true) (λ _, true) (λ _ _ _, inr "unused"%string)
              st "blob:base"%string Fixtures.whitePixel eq_refl eq_refl eq_refl)
    as (Hu & _ & Hh & _).
  - intros x y Hx Hy. simpl in Hx, Hy.
    assert (x = 0) as -> by lia. assert (y = 0) as -> by lia. reflexivity.
  - split; [exact Hu|]. fold st' in Hh. rewrite Hh. reflexivity.
Defined.

(** ** The fill mask: binary mask and its expansion *)

Section ImprovedMaskFacts.
Import MaskOps.

Lemma binaryMask_channel (img : ImageData) (x y c : Z) :
  wfImageData img → 0 ≤ x < width img → 0 ≤ y < height img → 0 ≤ c < 4 →
  channel (binaryMask img) x y c =
  Some (let v := if LocalFill.isGap img x y then 255 else 0 in pick v v v 255 c).
Proof.
  intros (Hw & Hh & Hlen & _) Hx Hy Hc. unfold channel, binaryMask. cbn [width height data].
  rewrite (step4_loop_get _ _
    (λ i k o, (λ _, let v := if Buf.lt (Buf.get (data img) (i + 3)) 200 then 255 else 0 in
                    pick v v v 255 k) <$> o)).
  - rewrite get_zeros by (unfold pixelIndex; nia). done.
  - unfold pixelIndex. nia.
  - apply pixelIndex_mod4.
  - done.
  - intros d i j. cbv zeta.
    destruct (Buf.lt _ 200); apply four_sets_get.
Qed.

Lemma binaryMask_wf (img : ImageData) : wfImageData img → wfImageData (binaryMask img).
Proof.
  intros (Hw & Hh & Hlen & _). unfold binaryMask. repeat split; cbn [width height data]; try done.
  - unfold forStep4. rewrite fold_left_length_inv.
    + rewrite length_zeros. lia.
    + intros d i. cbv zeta. destruct (Buf.lt _ 200); by rewrite !length_set.
  - unfold forStep4. apply (fold_left_invariant (Forall (λ v, 0 ≤ v ≤ 255))).
    + apply Forall_replicate. lia.
    + intros d i Hd. cbv zeta.
      destruct (Buf.lt _ 200); repeat apply set_bytes; (done || lia).
Qed.

(** One dilation step on the red channel: the maximum over the
    neighbours inside the image. *)
Lemma dilateStep_red_max (img : ImageData) (x y : Z) :
  wfImageData img → 0 ≤ x < width img → 0 ≤ y < height img →
  let w := width img in
  let h := height img in
  ∃ m, 0 ≤ m ≤ 255 ∧
    (∀ c, 0 ≤ c < 4 →
       Buf.get (dilateStep w h (data img)) (pixelIndex w x y + c) = Some (pick m m m 255 c)) ∧
    (∀ dx dy v, -1 ≤ dx ≤ 1 → -1 ≤ dy ≤ 1 → inBounds w h (x + dx) (y + dy) = true →
       channel img (x + dx) (y + dy) 0 = Some v → v ≤ m) ∧
    (∃ dx dy, -1 ≤ dx ≤ 1 ∧ -1 ≤ dy ≤ 1 ∧ inBounds w h (x + dx) (y + dy) = true ∧
       channel img (x + dx) (y + dy) 0 = Some m).
Proof.
  intros Hwf Hx Hy w h.
  assert (Hrd : ∀ x' y', inBounds w h x' y' = true →
            is_Some (Buf.get (data img) (pixelIndex w x' y'))).
  { intros x' y' Hin. unfold inBounds in Hin.
    pose proof (channel_is_Some img x' y' 0 Hwf ltac:(lia) ltac:(lia) ltac:(lia)) as Hs.
    unfold channel in Hs. by rewrite Z.add_0_r in Hs. }
  destruct (fold_max_spec offsets3x3
              (λ e, inBounds w h (x + e.1) (y + e.2))
              (λ e, Buf.get (data img) (pixelIndex w (x + e.1) (y + e.2))) 0)
    as (m & Hm & Hge & Hub & Hatt).
  { intros [dx dy] _ Hok. by apply Hrd. }
  assert (Hnm : neighbourhoodMax w h (data img) x y = Some m).
  { rewrite neighbourhoodMax_flat. rewrite <- Hm.
    apply fold_left_cong. intros m' [dx dy] _. done. }
  assert (Hcentre : inBounds w h (x + 0) (y + 0) = true).
  { unfold inBounds. rewrite !Z.add_0_r. lia. }
  assert (Hatt' : ∃ e, e ∈ offsets3x3 ∧ inBounds w h (x + e.1) (y + e.2) = true ∧
            Buf.get (data img) (pixelIndex w (x + e.1) (y + e.2)) = Some m).
  { destruct Hatt as [Hm0|Hatt]; [|done].
    exists (0, 0). split; [apply offsets3x3_elem; lia|]. split; [done|].
    destruct (Hrd _ _ Hcentre) as [v Hv].
    change (Buf.get (data img) (pixelIndex w (x + 0) (y + 0)) = Some m).
    rewrite Hv. f_equal.
    pose proof (get_byte img _ _ Hwf Hv).
    assert (v ≤ m); [|lia].
    apply (Hub (0, 0) v); [apply offsets3x3_elem; lia | done | done]. }
  assert (Hm255 : 0 ≤ m ≤ 255).
  { destruct Hatt' as (e & _ & _ & He). split; [done|].
    by apply (get_byte img _ _ Hwf He). }
  exists m. split; [done|]. split; [|split].
  - intros c Hc. rewrite dilateStep_get by done. cbv zeta. rewrite Hnm.
    replace (clampByte (Some m)) with m by (simpl; lia). done.
  - intros dx dy v Hdx Hdy Hin Hv. unfold channel in Hv. rewrite Z.add_0_r in Hv.
    apply (Hub (dx, dy) v); [by apply offsets3x3_elem | done | done].
  - destruct Hatt' as ([dx dy] & He & Hin & Hv).
    apply offsets3x3_elem in He as [Hdx Hdy].
    exists dx, dy. split; [done|]. split; [done|]. split; [done|].
    unfold channel. by rewrite Z.add_0_r.
Qed.

(** [n] dilation steps: the maximum of the red channel over the square of
    half-side [n] around the pixel, clipped to the image. *)
Lemma dilateMask_red_ball (img : ImageData) (n : nat) (x y : Z) :
  wfImageData img → 0 ≤ x < width img → 0 ≤ y < height img →
  ∃ m,
    channel (dilateMask img (Z.of_nat n)) x y 0 = Some m ∧
    (∀ x' y' v, inBounds (width img) (height img) x' y' = true →
       Z.abs (x' - x) ≤ Z.of_nat n → Z.abs (y' - y) ≤ Z.of_nat n →
       channel img x' y' 0 = Some v → v ≤ m) ∧
    (∃ x' y', inBounds (width img) (height img) x' y' = true ∧
       Z.abs (x' - x) ≤ Z.of_nat n ∧ Z.abs (y' - y) ≤ Z.of_nat n ∧
       channel img x' y' 0 = Some m).
Proof.
  intros Hwf. revert x y. induction n as [|n IH]; intros x y Hx Hy.
  - destruct (channel_is_Some img x y 0 Hwf Hx Hy ltac:(lia)) as [v Hv].
    exists v. split; [exact Hv|]. split.
    + intros x' y' v' _ Hax Hay Hv'.
      assert (x' = x) as -> by lia. assert (y' = y) as -> by lia.
      rewrite Hv in Hv'. injection Hv' as ->. lia.
    + exists x, y. unfold inBounds. repeat split; try lia. exact Hv.
  - pose proof (dilateMask_wf img (Z.of_nat n) Hwf) as Hwfp.
    set (prev := dilateMask img (Z.of_nat n)) in *.
    destruct (dilateStep_red_max prev x y Hwfp Hx Hy) as (m & Hm & Hget & Hub & Hatt).
    change (width prev) with (width img) in *. change (height prev) with (height img) in *.
    assert (Hout : data (dilateMask img (Z.of_nat (S n))) =
              dilateStep (width img) (height img) (data prev)).
    { replace (Z.of_nat (S n)) with (Z.of_nat n + 1) by lia.
      apply dilateMask_succ. lia. }
    exists m. split; [|split].
    + unfold channel. change (width (dilateMask img (Z.of_nat (S n)))) with (width img).
      rewrite Hout. apply (Hget 0). lia.
    + intros x' y' v Hin Hax Hay Hv.
      set (px := Z.max (x - 1) (Z.min (x + 1) x')).
      set (py := Z.max (y - 1) (Z.min (y + 1) y')).
      unfold inBounds in Hin.
      destruct (IH px py) as (m' & Hm' & Hub' & _); [unfold px; lia | unfold py; lia |].
      assert (v ≤ m').
      { apply (Hub' x' y' v); [unfold inBounds; lia | unfold px; lia | unfold py; lia | done]. }
      assert (m' ≤ m); [|lia].
      apply (Hub (px - x) (py - y) m'); [unfold px; lia | unfold py; lia | |].
      * unfold inBounds. unfold px, py. lia.
      * replace (x + (px - x)) with px by lia. replace (y + (py - y)) with py by lia. done.
    + destruct Hatt as (dx & dy & Hdx & Hdy & Hin & Hv).
      unfold inBounds in Hin.
      destruct (IH (x + dx) (y + dy)) as (m' & Hm' & _ & (x' & y' & Hin' & Hax & Hay & Hv'));
        [lia..|].
      fold prev in Hm'. rewrite Hv in Hm'. injection Hm' as <-.
      exists x', y'. split; [done|]. split; [lia|]. split; [lia|done].
Qed.

End ImprovedMaskFacts.

Section ImprovedMaskTheorem.
Import MaskOps.
Variable expApprox : JSNum.num → JSNum.num.

(** X7. With feathering switched off, [createImprovedMask] is opaque,
    grey (R = G = B) and black or white everywhere, and a pixel is white
    exactly when some pixel of the image with alpha below 200 lies within
    [expandPixels] of it in both coordinates. *)
Theorem createImprovedMask_expansion (img : ImageData) (expandPixels : Z) (x y : Z) :
  wfImageData img → 0 ≤ expandPixels →
  0 ≤ x < width img → 0 ≤ y < height img →
  let mask := createImprovedMask expApprox img (Some 0) (Some expandPixels) in
  ∃ v,
    channel mask x y 0 = Some v ∧ channel mask x y 1 = Some v ∧
    channel mask x y 2 = Some v ∧ channel mask x y 3 = Some 255 ∧
    (v = 0 ∨ v = 255) ∧
    (v = 255 ↔
     ∃ x' y', 0 ≤ x' < width img ∧ 0 ≤ y' < height img ∧
              Z.abs (x' - x) ≤ expandPixels ∧ Z.abs (y' - y) ≤ expandPixels ∧
              LocalFill.isGap img x' y' = true).
Proof.
  intros Hwf Hk Hx Hy mask.
  pose proof (binaryMask_wf img Hwf) as Hwfb.
  assert (Hred : ∀ x' y', 0 ≤ x' < width img → 0 ≤ y' < height img →
            channel (binaryMask img) x' y' 0
            = Some (if LocalFill.isGap img x' y' then 255 else 0)).
  { intros x' y' Hx' Hy'. by rewrite binaryMask_channel by (done || lia). }
  destruct (dilateMask_red_ball (binaryMask img) (Z.to_nat expandPixels) x y Hwfb Hx Hy)
    as (m & Hm & Hub & (xa & ya & Hina & Haxa & Haya & Hva)).
  rewrite Z2Nat.id in * by lia.
  change (width (binaryMask img)) with (width img) in *.
  change (height (binaryMask img)) with (height img) in *.
  unfold inBounds in Hina. rewrite Hred in Hva by lia.
  assert (Hchar : (m = 0 ∨ m = 255) ∧
            (m = 255 ↔
             ∃ x' y', 0 ≤ x' < width img ∧ 0 ≤ y' < height img ∧
                      Z.abs (x' - x) ≤ expandPixels ∧ Z.abs (y' - y) ≤ expandPixels ∧
                      LocalFill.isGap img x' y' = true)).
  { split.
    - injection Hva as Hva. destruct (LocalFill.isGap img xa ya); lia.
    - split.
      + intros ->. exists xa, ya. repeat (split; [lia|]).
        destruct (LocalFill.isGap img xa ya); [done|]. by injection Hva.
      + intros (x' & y' & Hx' & Hy' & Hax & Hay & Hgap).
        assert (255 ≤ m).
        { apply (Hub x' y' 255); [unfold inBounds; lia | done | done |].
          rewrite Hred by lia. by rewrite Hgap. }
        injection Hva as Hva. destruct (LocalFill.isGap img xa ya); lia. }
  destruct Hchar as [H01 Hiff].
  unfold mask, createImprovedMask. cbn [default from_option id].
  replace (0 <? 0) with false by done.
  destruct (0 <? expandPixels) eqn:Hpos.
  - exists m. split; [exact Hm|].
    assert (Hstep : ∀ c, 0 ≤ c < 4 →
              channel (dilateMask (binaryMask img) expandPixels) x y c
              = Some (pick m m m 255 c)).
    { intros c Hc.
      pose proof (dilateMask_wf (binaryMask img) (expandPixels - 1) Hwfb) as Hwfp.
      destruct (dilateStep_red_max _ x y Hwfp Hx Hy) as (m' & _ & Hget & _).
      pose proof (dilateMask_succ (binaryMask img) (expandPixels - 1) ltac:(lia)) as Hout.
      replace (expandPixels - 1 + 1) with expandPixels in Hout by lia.
      assert (Hall : ∀ c, 0 ≤ c < 4 →
                channel (dilateMask (binaryMask img) expandPixels) x y c
                = Some (pick m' m' m' 255 c)).
      { intros c' Hc'. unfold channel.
        change (width (dilateMask (binaryMask img) expandPixels)) with (width img).
        rewrite Hout. by apply Hget. }
      pose proof (Hall 0 ltac:(lia)) as H0. rewrite Hm in H0. injection H0 as ->.
      by apply Hall. }
    rewrite (Hstep 1), (Hstep 2), (Hstep 3) by lia. done.
  - assert (expandPixels = 0) as -> by lia.
    assert (xa = x) as -> by lia. assert (ya = y) as -> by lia.
    exists m. rewrite !binaryMask_channel by (done || lia). cbv zeta.
    injection Hva as Hva. rewrite Hva. done.
Qed.

End ImprovedMaskTheorem.

Lemma createImprovedMask_expansion_witness :
  wfImageData Fixtures.alphaMaskA ∧ 0 ≤ 1 ∧
  ∃ v, channel (MaskOps.createImprovedMask Fixtures.expOne Fixtures.alphaMaskA
                  (Some 0) (Some 1)) 0 0 0 = Some v ∧ (v = 0 ∨ v = 255).
Proof.
  assert (Hwf : wfImageData Fixtures.alphaMaskA)
    by (apply wfImageData_checked; vm_compute; reflexivity).
  split; [exact Hwf|]. split; [lia|].
  destruct (createImprovedMask_expansion Fixtures.expOne Fixtures.alphaMaskA 1 0 0 Hwf)
    as (v & Hv & _ & _ & _ & H01 & _); [lia | simpl; lia | simpl; lia |].
  exists v. split; [exact Hv | exact H01].
Defined.

(** ** What an extraction keeps of the source *)

Section ConservationTheorems.
Import KonvaCanvas Fixtures.

(** X8. Extracting a detected region splits the source between the layer
    and the updated base with two different thresholds. For a region that
    is not treated as inverted every pixel keeps its source alpha in the
    layer or in the base (in both when its mask value lies in 129..200).
    For an inverted (background) region every pixel whose mask value
    exceeds 200 is transparent in the layer and in the base. *)
Theorem extractRegion_conservation
    (c : Component) (regionIndex : nat) (region : DetectedRegion)
    (image maskImg : ImageData) :
  detectedRegions c !! regionIndex = Some region →
  imageElement c = Some image →
  maskImages c !! regionIndex = Some maskImg →
  hasOnImageUpdate c = true →
  wfImageData image →
  let inverted :=
    isBackgroundRegion (label region) (maskAnalysis (data maskImg)).1
                       (maskAnalysis (data maskImg)).2 in
  ∃ layer base,
    extractedLayer (extractRegion c regionIndex) = Some layer ∧
    updatedBase (extractRegion c regionIndex) = Some base ∧
    ∀ x y, 0 ≤ x < width image → 0 ≤ y < height image →
      let v := maskRead maskImg (width image) (height image) x y in
      (inverted = false →
         (channel layer x y 3 = channel image x y 3 ∨
          channel base x y 3 = channel image x y 3) ∧
         (Buf.gt v 128 = true → Buf.gt v 200 = false →
          channel layer x y 3 = channel image x y 3 ∧
          channel base x y 3 = channel image x y 3)) ∧
      (inverted = true → Buf.gt v 200 = true →
         channel layer x y 3 = Some 0 ∧ channel base x y 3 = Some 0).
Proof.
  intros Hregion Himage Hmask Hupd Hwf inverted.
  unfold extractRegion. rewrite Hregion, Himage, Hmask, Hupd.
  destruct (maskAnalysis (data maskImg)) as [white black] eqn:Hcount.
  cbn [fst snd] in inverted.
  eexists. eexists. split; [reflexivity|]. split; [reflexivity|].
  intros x y Hx Hy.
  set (v := maskRead maskImg (width image) (height image) x y).
  destruct (channel_is_Some image x y 3 Hwf Hx Hy) as [a Ha]; [lia|].
  unfold channel in *. cbn [width height data].
  rewrite applyMask_get, removeRegion_get by lia. cbv zeta.
  fold v. fold inverted. rewrite Ha. cbn [fmap option_fmap option_map].
  replace (3 =? 3) with true by done. rewrite !andb_true_r.
  split.
  - intros ->. split.
    + destruct (Buf.gt v 128) eqn:H128; cbn [negb]; [by left|].
      right. assert (Buf.gt v 200 = false) as ->; [|done].
      unfold Buf.gt in *. destruct v; [lia|done].
    + intros -> ->. done.
  - intros -> H200. rewrite H200.
    assert (Buf.gt v 128 = true) as ->; [|done].
    unfold Buf.gt in *. destruct v; [lia|done].
Qed.

Lemma extractRegion_conservation_witness :
  wfImageData red8 ∧
  ∃ layer base,
    extractedLayer (extractRegion wallComponent 0) = Some layer ∧
    updatedBase (extractRegion wallComponent 0) = Some base ∧
    channel layer 7 7 3 = Some 0 ∧ channel base 7 7 3 = Some 0.
Proof.
  assert (Hwf : wfImageData red8) by (apply wfImageData_checked; vm_compute; reflexivity).
  split; [exact Hwf|].
  destruct (extractRegion_conservation wallComponent 0
              (mkDetectedRegion "background_wall" "" unitBounds) red8 mask58
              eq_refl eq_refl eq_refl eq_refl Hwf) as (layer & base & Hl & Hb & Hpix).
  exists layer, base. split; [exact Hl|]. split; [exact Hb|].
  destruct (Hpix 7 7) as [_ Hinv]; [simpl; lia..|].
  apply Hinv; reflexivity.
Defined.

End ConservationTheorems.

Section LassoPartition.
Import KonvaCanvas.
Variable render : Canvas → list Z.

(** X9. Whatever the rasterizer draws (anti-aliased edges included), the
    lasso extraction is an exact split: where the red byte of the mask is
    0 the pixel keeps its source alpha in the base and is transparent in
    the layer; where it is anything above 0 the pixel keeps its full source
    alpha in the layer and is transparent in the base. Colours are never
    changed. *)
Theorem extractLassoSelection_exact_split
    (c : Component) (sel : Selection) (pts : list JSNum.num) (image : ImageData) :
  selection c = Some sel →
  points sel = Some pts →
  imageElement c = Some image →
  hasOnImageUpdate c = true →
  wfImageData image →
  wfImageData (mkImageData (width image) (height image)
                 (render (lassoMaskCanvas c image pts))) →
  ∃ layer base,
    extractedLayer (extractLassoSelection render c) = Some layer ∧
    updatedBase (extractLassoSelection render c) = Some base ∧
    ∀ x y, 0 ≤ x < width image → 0 ≤ y < height image →
      ∃ m, Buf.get (render (lassoMaskCanvas c image pts)) (pixelIndex (width image) x y)
           = Some m ∧
        (m = 0 →
           channel layer x y 3 = Some 0 ∧ channel base x y 3 = channel image x y 3) ∧
        (m ≠ 0 →
           channel layer x y 3 = channel image x y 3 ∧ channel base x y 3 = Some 0) ∧
        (∀ ch, 0 ≤ ch < 3 →
           channel layer x y ch = channel image x y ch ∧
           channel base x y ch = channel image x y ch).
Proof.
  intros Hsel Hpts Himage Hupd Hwf Hwfm.
  unfold extractLassoSelection. rewrite Hsel, Hpts, Himage, Hupd.
  eexists. eexists. split; [reflexivity|]. split; [reflexivity|].
  intros x y Hx Hy.
  set (maskData := render (lassoMaskCanvas c image pts)) in *.
  destruct (channel_is_Some _ x y 0 Hwfm Hx Hy ltac:(lia)) as [m Hm].
  unfold channel in Hm. cbn [width data] in Hm. rewrite Z.add_0_r in Hm.
  pose proof (get_byte _ _ _ Hwfm Hm) as Hbyte.
  destruct (channel_is_Some image x y 3 Hwf Hx Hy ltac:(lia)) as [a Ha].
  assert (Hidx : 0 ≤ pixelIndex (width image) x y
                 ∧ pixelIndex (width image) x y + 4 ≤ Z.of_nat (length (data image))).
  { destruct Hwf as (Hw & Hh & Hlen & _). unfold pixelIndex. nia. }
  pose proof (pixelIndex_mod4 (width image) x y) as Hmod.
  exists m. split; [exact Hm|].
  unfold channel in *. cbn [width height data].
  split; [|split].
  - intros ->. rewrite lasso_layer_get, lasso_base_get by lia.
    rewrite Hm, Ha. done.
  - intros Hne. rewrite lasso_layer_get, lasso_base_get by lia.
    rewrite Hm, Ha. cbn.
    destruct m as [|p|p]; [done| |lia]. done.
  - intros ch Hch. rewrite lasso_layer_get, lasso_base_get by lia.
    replace (ch =? 3) with false by lia. rewrite !andb_false_r. done.
Qed.

End LassoPartition.

(** A rasterizer with a soft edge: pixels of the first column are
    half covered. *)
Lemma extractLassoSelection_exact_split_witness :
  let soft := λ _ : KonvaCanvas.Canvas,
    [128; 128; 128; 128;  0; 0; 0; 0;  128; 128; 128; 128;  0; 0; 0; 0] in
  let c := KonvaCanvas.mkComponent 2 2 KonvaCanvas.lasso (Some Fixtures.alphaMaskB)
             (KonvaCanvas.displaySize 2 2 Fixtures.alphaMaskB) [] ∅
             (Some (KonvaCanvas.mkSelection (JSNum.ofZ 0) (JSNum.ofZ 0)
                      (Some (JSNum.ofZ <$> [0; 0; 1; 0; 1; 2; 0; 2]))))
             [] false false false true true true true in
  wfImageData Fixtures.alphaMaskB ∧
  ∃ layer base,
    KonvaCanvas.extractedLayer (KonvaCanvas.extractLassoSelection soft c) = Some layer ∧
    KonvaCanvas.updatedBase (KonvaCanvas.extractLassoSelection soft c) = Some base ∧
    channel layer 0 1 3 = Some 255 ∧ channel base 0 1 3 = Some 0.
Proof.
  intros soft c.
  assert (Hwf : wfImageData Fixtures.alphaMaskB)
    by (apply wfImageData_checked; vm_compute; reflexivity).
  split; [exact Hwf|].
  destruct (extractLassoSelection_exact_split soft c
              (KonvaCanvas.mkSelection (JSNum.ofZ 0) (JSNum.ofZ 0)
                 (Some (JSNum.ofZ <$> [0; 0; 1; 0; 1; 2; 0; 2])))
              (JSNum.ofZ <$> [0; 0; 1; 0; 1; 2; 0; 2]) Fixtures.alphaMaskB
              eq_refl eq_refl eq_refl eq_refl Hwf)
    as (layer & base & Hl & Hb & Hpix).
  { apply wfImageData_checked. vm_compute. reflexivity. }
  exists layer, base. split; [exact Hl|]. split; [exact Hb|].
  destruct (Hpix 0 1) as (m & Hm & _ & Hin & _); [simpl; lia..|].
  assert (m = 128) as -> by (vm_compute in Hm; congruence).
  destruct Hin as [Hlayer Hbase]; [lia|].
  split; [rewrite Hlayer; reflexivity | exact Hbase].
Defined.

(** ** Loops over a window of pixels and over blocks *)

(** A pair of loops over the window [ylo, ylo + ylen) x [xlo, xlo + xlen)
    of an image of row length [w]. *)
Lemma pixel_window_get (w ylo ylen xlo xlen : Z) (body : list Z → Z → Z → list Z)
    (g : Z → Z → Z → option Z → option Z) (d : list Z) (x0 y0 c : Z) :
  0 ≤ xlo → xlo + xlen ≤ w → 0 ≤ x0 < w → 0 ≤ c < 4 →
  (∀ d y x j, ylo ≤ y < ylo + ylen → xlo ≤ x < xlo + xlen →
     Buf.get (body d y x) j =
     if decide (pixelIndex w x y ≤ j < pixelIndex w x y + 4)
     then g y x (j - pixelIndex w x y) (Buf.get d j)
     else Buf.get d j) →
  Buf.get (forRange ylo ylen (λ d y, forRange xlo xlen (λ d x, body d y x) d) d)
          (pixelIndex w x0 y0 + c)
  = if decide ((ylo ≤ y0 < ylo + ylen) ∧ (xlo ≤ x0 < xlo + xlen))
    then g y0 x0 c (Buf.get d (pixelIndex w x0 y0 + c))
    else Buf.get d (pixelIndex w x0 y0 + c).
Proof.
  intros Hxlo Hxhi Hx0 Hc Hbody. unfold forRange.
  set (j := pixelIndex w x0 y0 + c).
  pose (gx := λ (y x : Z) (o : option Z),
          if decide (pixelIndex w x y ≤ j < pixelIndex w x y + 4)
          then g y x (j - pixelIndex w x y) o else o).
  pose (gy := λ (y : Z) (o : option Z), fold_left (λ o x, gx y x o) (seqZ xlo xlen) o).
  assert (Hother : ∀ y x o, xlo ≤ x < xlo + xlen → (x ≠ x0 ∨ y ≠ y0) → gx y x o = o).
  { intros y x o Hx Hne. unfold gx. rewrite decide_False; [done|]. intros Hr.
    destruct (pixelIndex_block_inj w x0 y0 c x y (j - pixelIndex w x y))
      as (? & ? & _); [lia.. | unfold j in *; lia | lia]. }
  rewrite (fold_left_observe (λ d, Buf.get d j) _ gy).
  2:{ intros d' y Hy. apply elem_of_seqZ in Hy. unfold gy.
      apply (fold_left_observe (λ d, Buf.get d j) _ (gx y)).
      intros d'' x Hx. apply elem_of_seqZ in Hx. unfold gx. apply Hbody; lia. }
  destruct (decide ((ylo ≤ y0 < ylo + ylen) ∧ (xlo ≤ x0 < xlo + xlen))) as [[Hy Hx]|Hout].
  - rewrite (fold_left_single gy _ y0).
    + unfold gy. rewrite (fold_left_single (gx y0) _ x0).
      * unfold gx. rewrite decide_True by (unfold j; lia).
        replace (j - pixelIndex w x0 y0) with c by (unfold j; lia). done.
      * apply NoDup_seqZ.
      * apply elem_of_seqZ. lia.
      * intros x o Hxin Hne. apply elem_of_seqZ in Hxin. apply Hother; [lia | by left].
    + apply NoDup_seqZ.
    + apply elem_of_seqZ. lia.
    + intros y o Hyin Hne. unfold gy. apply fold_left_neutral.
      intros x o' Hxin. apply elem_of_seqZ in Hxin. apply Hother; [lia | by right].
  - apply fold_left_neutral. intros y o Hyin. apply elem_of_seqZ in Hyin.
    unfold gy. apply fold_left_neutral. intros x o' Hxin. apply elem_of_seqZ in Hxin.
    apply Hother; [lia|]. lia.
Qed.

(** A loop over [i] in [0, n) whose body changes the buffer only inside
    the block [[s * i, s * i + s)]. *)
Lemma block_loop_get (s n : Z) (body : list Z → Z → list Z)
    (g : Z → Z → option Z → option Z) (d : list Z) (i0 c : Z) :
  0 < s → 0 ≤ i0 < n → 0 ≤ c < s →
  (∀ d i j, 0 ≤ i < n →
     Buf.get (body d i) j =
     if decide (s * i ≤ j < s * i + s) then g i (j - s * i) (Buf.get d j)
     else Buf.get d j) →
  Buf.get (forRange 0 n body d) (s * i0 + c) = g i0 c (Buf.get d (s * i0 + c)).
Proof.
  intros Hs Hi0 Hc Hbody. unfold forRange.
  set (j := s * i0 + c).
  pose (gi := λ (i : Z) (o : option Z),
          if decide (s * i ≤ j < s * i + s) then g i (j - s * i) o else o).
  rewrite (fold_left_observe (λ d, Buf.get d j) _ gi).
  - rewrite (fold_left_single gi _ i0).
    + unfold gi. rewrite decide_True by (unfold j; lia).
      replace (j - s * i0) with c by (unfold j; lia). done.
    + apply NoDup_seqZ.
    + apply elem_of_seqZ. lia.
    + intros i o Hi Hne. unfold gi. rewrite decide_False; [done|]. unfold j. nia.
  - intros d' i Hi. apply elem_of_seqZ in Hi. unfold gi. apply Hbody. lia.
Qed.

(** ** The dashed outline *)

Section OutlineTheorems.
Import Outline.

Lemma detectEdges_get (img : ImageData) (x y c : Z) :
  wfImageData img → 0 ≤ x < width img → 0 ≤ y < height img → 0 ≤ c < 4 →
  Buf.get (detectEdges img) (pixelIndex (width img) x y + c) =
  Some (if isEdge img x y then MaskOps.pick 0 150 255 255 c else 0).
Proof.
  intros (Hw & Hh & Hlen & _) Hx Hy Hc. unfold detectEdges.
  rewrite (pixel_window_get (width img) 1 (height img - 2) 1 (width img - 2) _
    (λ y x k o,
       if Buf.gt (Buf.get (data img) (pixelIndex (width img) x y)) 200 &&
          hasBlackNeighbor (width img) (data img) x y
       then (λ _, MaskOps.pick 0 150 255 255 k) <$> o else o)); [|lia..|].
  - rewrite get_zeros by (unfold pixelIndex; nia).
    unfold isEdge, channel. rewrite Z.add_0_r.
    destruct (decide _) as [[Hyi Hxi]|Hout].
    + replace (1 <=? x) with true by lia. replace (x <? width img - 1) with true by lia.
      replace (1 <=? y) with true by lia. replace (y <? height img - 1) with true by lia.
      cbn [andb]. by destruct (_ && _).
    + replace ((1 <=? x) && (x <? width img - 1) && (1 <=? y) && (y <? height img - 1))
        with false by lia.
      done.
  - intros d y' x' j Hy' Hx'. cbv zeta.
    destruct (Buf.gt _ 200); cbn [andb].
    + destruct (hasBlackNeighbor _ _ _ _); [apply four_sets_get | by case_decide].
    + by case_decide.
Qed.

Lemma detectEdges_length (img : ImageData) :
  length (detectEdges img) = length (data img).
Proof.
  unfold detectEdges, forRange. rewrite fold_left_length_inv.
  - rewrite length_zeros. lia.
  - intros d y. apply fold_left_length_inv. intros d' x. cbv zeta.
    destruct (Buf.gt _ 200); [|done].
    destruct (hasBlackNeighbor _ _ _ _); [apply four_sets_length | done].
Qed.

(** X10. The outline generated for a region mask is transparent black
    everywhere except on edge pixels: pixels off the border of the mask
    whose red value exceeds 200 and that have a top, bottom, left or right
    neighbour with red below 200. An edge pixel is (0, 150, 255) with
    alpha 255 where the dash pattern of its column is on and alpha 0 where
    it is off. *)
Theorem outlineImage_pixels (img : ImageData) (x y c : Z) :
  wfImageData img → 0 ≤ x < width img → 0 ≤ y < height img → 0 ≤ c < 4 →
  channel (outlineImage img) x y c =
  Some (if isEdge img x y
        then MaskOps.pick 0 150 255 (if dashPattern x then 255 else 0) c
        else 0).
Proof.
  intros Hwf Hx Hy Hc. pose proof Hwf as (Hw & Hh & Hlen & _).
  unfold channel, outlineImage, applyDash. cbn [width height data].
  rewrite (step4_loop_get _ _
    (λ i k o,
       if (k =? 3) && negb (dashPattern ((i / 4) mod width img)) && Buf.gt o 0
       then (λ _, 0) <$> o else o)).
  - rewrite detectEdges_get by done.
    assert (Hcol : (pixelIndex (width img) x y / 4) mod width img = x).
    { unfold pixelIndex. rewrite Z.div_mul by lia.
      rewrite Z.add_comm, Z.mod_add by lia. apply Z.mod_small. lia. }
    rewrite Hcol. unfold MaskOps.pick.
    destruct (isEdge img x y), (dashPattern x); cbn [negb andb];
      rewrite ?andb_false_r; cbn [andb]; try done.
    assert (c = 0 ∨ c = 1 ∨ c = 2 ∨ c = 3) as [->|[->|[->| ->]]] by lia; done.
  - rewrite detectEdges_length. unfold pixelIndex. nia.
  - apply pixelIndex_mod4.
  - done.
  - intros d i j. cbv zeta.
    destruct (negb _) eqn:Hdash; cbn [andb].
    + destruct (Buf.gt (Buf.get d (i + 3)) 0) eqn:Hgt.
      * rewrite get_set. repeat case_decide; try lia.
        -- subst j. replace (i + 3 - i =? 3) with true by lia. cbn [andb].
           by rewrite Hgt.
        -- replace (j - i =? 3) with false by lia. done.
        -- done.
      * case_decide; [|done].
        destruct (j - i =? 3) eqn:H3; cbn [andb]; [|done].
        replace j with (i + 3) by lia. by rewrite Hgt.
    + rewrite andb_false_r. cbn [andb]. by case_decide.
Qed.

Lemma outlineImage_pixels_witness :
  let img := mkImageData 3 3 (Fixtures.pixels 4 [0; 0; 0; 255] ++ [255; 255; 255; 255]
                              ++ Fixtures.pixels 4 [0; 0; 0; 255]) in
  wfImageData img ∧
  channel (outlineImage img) 1 1 2 = Some 255 ∧
  channel (outlineImage img) 0 0 3 = Some 0.
Proof.
  intros img.
  assert (Hwf : wfImageData img) by (apply wfImageData_checked; vm_compute; reflexivity).
  split; [exact Hwf|]. split.
  - rewrite (outlineImage_pixels img 1 1 2 Hwf) by (simpl; lia). reflexivity.
  - rewrite (outlineImage_pixels img 0 0 3 Hwf) by (simpl; lia). reflexivity.
Defined.

(** On canvases up to 4096 pixels wide the dash pattern computed in
    binary64 is the parity of [x / 5]. *)
Lemma dashPattern_parity (x : Z) : 0 ≤ x < 4096 → dashPattern x = Z.even (x / 5).
Proof.
  intros Hx.
  assert (Hall : forallb (λ x, Bool.eqb (dashPattern x) (Z.even (x / 5))) (seqZ 0 4096) = true)
    by (vm_compute; reflexivity).
  rewrite forallb_forall in Hall.
  specialize (Hall x). apply Bool.eqb_prop, Hall.
  apply list_elem_of_In, elem_of_seqZ. lia.
Qed.

End OutlineTheorems.

(** ** PSD export *)

Section PsdFacts.
Import PsdExport.

Lemma createLayerMask_length (img : ImageData) :
  length (createLayerMask img) = Z.to_nat (width img * height img).
Proof.
  unfold createLayerMask, forRange. rewrite fold_left_length_inv.
  - apply length_zeros.
  - intros d i. apply length_set.
Qed.

Lemma createLayerMask_get (img : ImageData) (i : Z) :
  0 ≤ i < width img * height img →
  Buf.get (createLayerMask img) i = Some (toUint8 (Buf.get (data img) (i * 4 + 3))).
Proof.
  intros Hi. unfold createLayerMask.
  replace i with (1 * i + 0) at 1 by lia.
  rewrite (block_loop_get 1 _ _
    (λ i k o, (λ _, toUint8 (Buf.get (data img) (i * 4 + 3))) <$> o)); [|lia..|].
  - replace (1 * i + 0) with i by lia. by rewrite get_zeros.
  - intros d i' j Hi'. rewrite get_set. repeat case_decide; (done || lia).
Qed.

Lemma createMaskCanvas_get (mask : list Z) (w h i c : Z) :
  0 ≤ i < Z.of_nat (length mask) → 4 * i + c < 4 * w * h → 0 ≤ c < 4 →
  Buf.get (data (createMaskCanvas mask w h)) (4 * i + c) =
  Some (let value := MaskOps.clampByte (Buf.get mask i) in
        MaskOps.pick value value value 255 c).
Proof.
  intros Hi Hlt Hc. unfold createMaskCanvas. cbn [data].
  rewrite (block_loop_get 4 _ _
    (λ i k o, (λ _, let value := MaskOps.clampByte (Buf.get mask i) in
                    MaskOps.pick value value value 255 k) <$> o)); [|lia..|].
  - by rewrite get_zeros by lia.
  - intros d i' j Hi'. cbv zeta.
    replace (i' * 4) with (4 * i') by lia. apply four_sets_get.
Qed.

(** X11. The mask canvas the export attaches to a layer is a grey-scale
    copy of the layer's alpha channel: at every pixel red, green and blue
    equal the alpha of the layer image and alpha is 255. *)
Theorem layer_mask_round_trip (img : ImageData) (x y : Z) :
  wfImageData img → 0 ≤ x < width img → 0 ≤ y < height img →
  let maskCanvas := createMaskCanvas (createLayerMask img) (width img) (height img) in
  width maskCanvas = width img ∧ height maskCanvas = height img ∧
  channel maskCanvas x y 0 = channel img x y 3 ∧
  channel maskCanvas x y 1 = channel img x y 3 ∧
  channel maskCanvas x y 2 = channel img x y 3 ∧
  channel maskCanvas x y 3 = Some 255.
Proof.
  intros Hwf Hx Hy maskCanvas. pose proof Hwf as (Hw & Hh & Hlen & _).
  split; [done|]. split; [done|].
  destruct (channel_is_Some img x y 3 Hwf Hx Hy ltac:(lia)) as [a Ha].
  pose proof (get_byte img _ _ Hwf Ha) as Hbyte.
  assert (Hi : 0 ≤ y * width img + x < width img * height img) by nia.
  assert (Hget : ∀ c, 0 ≤ c < 4 →
            channel maskCanvas x y c = Some (MaskOps.pick a a a 255 c)).
  { intros c Hc. unfold channel, maskCanvas.
    change (width (createMaskCanvas _ _ _)) with (width img).
    replace (pixelIndex (width img) x y + c) with (4 * (y * width img + x) + c)
      by (unfold pixelIndex; lia).
    rewrite createMaskCanvas_get; [| rewrite createLayerMask_length; lia | lia | lia].
    cbv zeta. rewrite createLayerMask_get by lia.
    unfold channel, pixelIndex in Ha. rewrite Ha. cbn [toUint8 MaskOps.clampByte].
    rewrite Z.mod_small by lia.
    replace (Z.max 0 (Z.min 255 a)) with a by lia. done. }
  rewrite !Hget by lia. rewrite Ha. done.
Qed.

Lemma layer_mask_round_trip_witness :
  wfImageData Fixtures.alphaMaskB ∧
  channel (createMaskCanvas (createLayerMask Fixtures.alphaMaskB) 2 2) 1 0 0 = Some 255 ∧
  channel (createMaskCanvas (createLayerMask Fixtures.alphaMaskB) 2 2) 0 0 1 = Some 0.
Proof.
  assert (Hwf : wfImageData Fixtures.alphaMaskB)
    by (apply wfImageData_checked; vm_compute; reflexivity).
  split; [exact Hwf|]. split.
  - destruct (layer_mask_round_trip Fixtures.alphaMaskB 1 0 Hwf) as (_ & _ & Hr & _);
      [simpl; lia..|]. exact Hr.
  - destruct (layer_mask_round_trip Fixtures.alphaMaskB 0 0 Hwf) as (_ & _ & _ & Hg & _);
      [simpl; lia..|]. exact Hg.
Defined.

Lemma fold_left_push {A B : Type} (f : A → option B) (l : list A) (acc : list B) :
  fold_left (λ acc a, match f a with Some b => acc ++ [b] | None => acc end) l acc
  = acc ++ omap f l.
Proof.
  revert acc. induction l as [|a l IH]; intros acc; cbn [fold_left omap list_omap].
  - by rewrite app_nil_r.
  - rewrite IH. destruct (f a); [by rewrite <- app_assoc | done].
Qed.

End PsdFacts.

Section PsdTheorems.
Import PsdExport SegmentArt.
Variable dataUrlToImageData : string → option ImageData.

(** X12. [exportToPsd] rejects when the base image does not load.
    Otherwise the PSD has the requested canvas size and its children are
    the base image followed, in stack order, by one layer for each layer
    whose image loads; a layer whose image fails to load is left out
    without failing the export. Every exported layer carries its image, its
    name, opacity 255 or 0 by visibility, and a mask placed on the layer's
    rectangle. *)
Theorem exportToPsd_children (baseImage : string) (layers : list Layer)
    (canvasWidth canvasHeight : Z) :
  match dataUrlToImageData baseImage with
  | None =>
      exportToPsd dataUrlToImageData baseImage layers canvasWidth canvasHeight
      = inr "Failed to load image"%string
  | Some baseImageData =>
      ∃ psd rest,
        exportToPsd dataUrlToImageData baseImage layers canvasWidth canvasHeight = inl psd ∧
        psd_width psd = canvasWidth ∧ psd_height psd = canvasHeight ∧
        children psd =
          mkPsdLayer "Base Image" baseImageData 0 0 (width baseImageData)
            (height baseImageData) 255 "normal" None :: rest ∧
        psd_name <$> rest =
          layer_name <$> filter (λ l, is_Some (dataUrlToImageData (layer_url l))) layers ∧
        ∀ k p, rest !! k = Some p →
          ∃ layer img mask,
            filter (λ l, is_Some (dataUrlToImageData (layer_url l))) layers !! k
              = Some layer ∧
            dataUrlToImageData (layer_url layer) = Some img ∧
            psd_canvas p = img ∧
            psd_opacity p = (if layer_visible layer then 255 else 0) ∧
            psd_left p = layer_x layer ∧ psd_top p = layer_y layer ∧
            psd_right p = layer_x layer + layer_width layer ∧
            psd_bottom p = layer_y layer + layer_height layer ∧
            psd_mask p = Some mask ∧
            mask_canvas mask = createMaskCanvas (createLayerMask img) (width img) (height img) ∧
            mask_left mask = psd_left p ∧ mask_top mask = psd_top p ∧
            mask_right mask = psd_right p ∧ mask_bottom mask = psd_bottom p
  end.
Proof.
  unfold exportToPsd.
  destruct (dataUrlToImageData baseImage) as [baseImageData|]; [|done].
  eexists. exists (omap (psdLayerOf dataUrlToImageData) layers).
  rewrite (fold_left_push (psdLayerOf dataUrlToImageData)). cbn [app].
  split; [reflexivity|]. cbn [psd_width psd_height children].
  split; [done|]. split; [done|]. split; [done|].
  induction layers as [|layer layers IH].
  - split; [done|]. intros [|k] p Hk; discriminate Hk.
  - destruct IH as [IHnames IHeach].
    cbn [omap list_omap]. rewrite filter_cons.
    destruct (dataUrlToImageData (layer_url layer)) as [img|] eqn:Himg.
    + assert (Hp : ∃ p0, psdLayerOf dataUrlToImageData layer = Some p0 ∧
                psd_name p0 = layer_name layer ∧ psd_canvas p0 = img ∧
                psd_opacity p0 = (if layer_visible layer then 255 else 0) ∧
                psd_left p0 = layer_x layer ∧ psd_top p0 = layer_y layer ∧
                psd_right p0 = layer_x layer + layer_width layer ∧
                psd_bottom p0 = layer_y layer + layer_height layer ∧
                ∃ mask, psd_mask p0 = Some mask ∧
                  mask_canvas mask =
                    createMaskCanvas (createLayerMask img) (width img) (height img) ∧
                  mask_left mask = psd_left p0 ∧ mask_top mask = psd_top p0 ∧
                  mask_right mask = psd_right p0 ∧ mask_bottom mask = psd_bottom p0).
      { unfold psdLayerOf. rewrite Himg. eexists. split; [reflexivity|].
        cbn. repeat (split; [done|]). eexists. split; [reflexivity|]. done. }
      destruct Hp as (p0 & -> & Hname & Hcanvas & Hop & Hl & Ht & Hr & Hb &
                      mask & Hmask & Hmc & Hml & Hmt & Hmr & Hmb).
      rewrite decide_True by (by eexists). split.
      * cbn. by rewrite IHnames, Hname.
      * intros [|k] p Hk.
        -- cbn in Hk. injection Hk as <-. exists layer, img, mask.
           repeat (split; [done|]). done.
        -- apply (IHeach k p Hk).
    + assert (Hp : psdLayerOf dataUrlToImageData layer = None)
        by (unfold psdLayerOf; by rewrite Himg).
      rewrite Hp. rewrite decide_False by (by intros [? ?]). by split.
Qed.

End PsdTheorems.

(** ** The history index *)

Section HistoryInvariant.
Import SegmentArt Workspace.

Lemma saveToHistory_inRange (st : State) : historyInRange (saveToHistory st).
Proof.
  unfold historyInRange, saveToHistory. cbn. rewrite length_app. cbn. lia.
Qed.

Lemma initHistory_inRange (st : State) :
  historyInRange st → historyInRange (initHistory st).
Proof.
  intros Hin. unfold initHistory.
  destruct (uploadedImage st); [|done]. destruct (history st) eqn:Hh; [|done].
  unfold historyInRange. cbn. lia.
Qed.

Lemma handleUndo_inRange (st : State) :
  historyInRange st → ∃ st', handleUndo st = Some st' ∧ historyInRange st'.
Proof.
  unfold historyInRange. intros Hin. unfold handleUndo.
  destruct (0 <? historyIndex st) eqn:Hpos; [|by exists st].
  destruct (lookup_lt_is_Some_2 (history st) (Z.to_nat (historyIndex st - 1))) as [state Hs];
    [lia|].
  rewrite Hs. eexists. split; [reflexivity|]. cbn. lia.
Qed.

Lemma handleRedo_inRange (st : State) :
  historyInRange st → ∃ st', handleRedo st = Some st' ∧ historyInRange st'.
Proof.
  unfold historyInRange. intros Hin. unfold handleRedo.
  destruct (historyIndex st <? _) eqn:Hlt; [|by exists st].
  replace (historyIndex st + 1 <? 0) with false by lia.
  destruct (lookup_lt_is_Some_2 (history st) (Z.to_nat (historyIndex st + 1))) as [state Hs];
    [lia|].
  rewrite Hs. eexists. split; [reflexivity|]. cbn. lia.
Qed.

Lemma act_inRange (a : Action) (h : Hooks) :
  historyInRange (doc h) → ∃ h', act a h = Some h' ∧ historyInRange (doc h').
Proof.
  intros Hin. unfold act.
  assert (Hh : ∃ h1, handler a h = Some h1 ∧ historyInRange (doc h1)).
  { destruct a; cbn [handler].
    - eexists. split; [reflexivity|]. unfold handleFileUpload.
      destruct (negb _); [done|]. destruct readResult as [r|]; [|done].
      by destruct (truthy r).
    - eexists. split; [reflexivity|]. cbn [doc setDoc].
      pose proof (saveToHistory_inRange (doc h)) as Hs.
      destruct newBase; exact Hs.
    - eexists. split; [reflexivity|]. exact (saveToHistory_inRange (doc h)).
    - eexists. split; [reflexivity|]. exact Hin.
    - eexists. split; [reflexivity|]. exact Hin.
    - destruct (handleUndo_inRange (doc h) Hin) as (st' & -> & Hst'). by eexists.
    - destruct (handleRedo_inRange (doc h) Hin) as (st' & -> & Hst'). by eexists.
    - eexists. split; [reflexivity|]. unfold historyInRange. cbn. lia.
    - eexists. split; [reflexivity|]. exact Hin.
    - eexists. split; [reflexivity|]. exact Hin. }
  destruct Hh as (h1 & -> & Hh1). eexists. split; [reflexivity|].
  cbn [doc setDoc]. by apply initHistory_inRange.
Qed.

(** X13. Whatever the user does, in any order (upload, extract, delete,
    toggle, undo, redo, reset, zoom), no handler stops on an error and the
    history index stays between -1 and the last index of the history, so
    [handleUndo] and [handleRedo] always find the snapshot they read. *)
Theorem history_index_in_range (actions : list Action) :
  ∃ h, run actions initialHooks = Some h ∧
       historyInRange (doc h) ∧
       is_Some (handleUndo (doc h)) ∧ is_Some (handleRedo (doc h)).
Proof.
  assert (Hgen : ∀ h0, historyInRange (doc h0) →
            ∃ h, run actions h0 = Some h ∧ historyInRange (doc h)).
  { induction actions as [|a actions IH]; intros h0 Hin.
    - by exists h0.
    - cbn [run]. destruct (act_inRange a h0 Hin) as (h1 & -> & Hin1).
      by apply IH. }
  destruct (Hgen initialHooks) as (h & Hrun & Hin).
  { unfold historyInRange. cbn. lia. }
  exists h. split; [done|]. split; [done|]. split.
  - destruct (handleUndo_inRange (doc h) Hin) as (st' & -> & _). by eexists.
  - destruct (handleRedo_inRange (doc h) Hin) as (st' & -> & _). by eexists.
Qed.

End HistoryInvariant.

(** ** Layer toggles *)

Section Toggles.
Import SegmentArt Workspace.

Lemma state_eta (st : State) :
  mkState (uploadedImage st) (layers st) (history st) (historyIndex st)
    (selectedLayerIds st) (isMerging st) (isFillingContent st) (useLocalFill st)
    (featherAmount st) (maskExpandPixels st) (autoPrompt st) (contentFillPrompt st)
    (regionLabels st) (dalleDebugData st) (toasts st) = st.
Proof. by destruct st. Qed.

(** X14. Toggling the visibility of a layer id flips the visibility of
    exactly the layers with that id and changes nothing else: ids, order,
    base image, selection and history stay (the change is not undoable),
    and toggling twice restores the state. *)
Theorem toggleLayerVisibility_flip (layerId : string) (st : State) :
  let st' := toggleLayerVisibility layerId st in
  toggleLayerVisibility layerId st' = st ∧
  length (layers st') = length (layers st) ∧
  (∀ k l, layers st !! k = Some l →
     ∃ l', layers st' !! k = Some l' ∧
       layer_id l' = layer_id l ∧ layer_url l' = layer_url l ∧
       layer_name l' = layer_name l ∧
       layer_visible l' =
         (if decide (layer_id l = layerId) then negb (layer_visible l)
          else layer_visible l)) ∧
  uploadedImage st' = uploadedImage st ∧
  selectedLayerIds st' = selectedLayerIds st ∧
  history st' = history st ∧ historyIndex st' = historyIndex st ∧
  toasts st' = toasts st.
Proof.
  intros st'. split; [|split; [|split]].
  - unfold st', toggleLayerVisibility, setLayers. cbn.
    rewrite <- list_fmap_compose.
    rewrite (list_fmap_ext _ id (layers st)).
    + rewrite list_fmap_id. apply state_eta.
    + intros k l _. cbn. destruct (decide (layer_id l = layerId)) as [Heq|Hne]; cbn.
      * rewrite decide_True by done. cbn. rewrite negb_involutive. by destruct l.
      * by rewrite decide_False.
  - unfold st', toggleLayerVisibility. cbn. by rewrite length_fmap.
  - intros k l Hk. unfold st', toggleLayerVisibility. cbn.
    rewrite list_lookup_fmap, Hk. cbn. eexists. split; [reflexivity|].
    destruct (decide (layer_id l = layerId)); done.
  - done.
Qed.

(** X15. Ticking a layer's check box twice restores the selection; one
    tick adds the id when it is absent and removes it when it is present,
    so the number of selected ids moves by exactly one. Nothing else
    changes. *)
Theorem toggleLayerSelection_flip (layerId : string) (st : State) :
  let st' := toggleLayerSelection layerId st in
  toggleLayerSelection layerId st' = st ∧
  (layerId ∈ selectedLayerIds st' ↔ layerId ∉ selectedLayerIds st) ∧
  (∀ other, other ≠ layerId →
     (other ∈ selectedLayerIds st' ↔ other ∈ selectedLayerIds st)) ∧
  (if decide (layerId ∈ selectedLayerIds st)
   then size (selectedLayerIds st) = S (size (selectedLayerIds st'))
   else size (selectedLayerIds st') = S (size (selectedLayerIds st))) ∧
  layers st' = layers st ∧ history st' = history st.
Proof.
  intros st'. unfold st', toggleLayerSelection. cbn.
  destruct (decide (layerId ∈ selectedLayerIds st)) as [Hin|Hout]; cbn.
  - rewrite decide_False by set_solver.
    split.
    { unfold setSelectedLayerIds. cbn.
      replace (selectedLayerIds st ∖ {[layerId]} ∪ {[layerId]}) with (selectedLayerIds st).
      - apply state_eta.
      - apply set_eq. intros x. destruct (decide (x = layerId)); set_solver. }
    split; [set_solver|]. split; [set_solver|]. split; [|done].
    rewrite (size_difference (selectedLayerIds st) {[layerId]}) by set_solver.
    rewrite size_singleton.
    assert (size (selectedLayerIds st) ≠ 0%nat).
    { intros Hz. apply size_empty_inv in Hz. set_solver. }
    lia.
  - rewrite decide_True by set_solver.
    split.
    { unfold setSelectedLayerIds. cbn.
      replace ((selectedLayerIds st ∪ {[layerId]}) ∖ {[layerId]}) with (selectedLayerIds st).
      - apply state_eta.
      - apply set_eq. intros x. destruct (decide (x = layerId)); set_solver. }
    split; [set_solver|]. split; [set_solver|]. split; [|done].
    rewrite size_union by set_solver. rewrite size_singleton. lia.
Qed.

End Toggles.

(** ** A selection that outlives its layers *)

Section StaleSelection.
Import SegmentArt Workspace.
Variable imageSizeOf : string → option (Z * Z).
Variable flatten : Z → Z → list string → string.

(** X16. Deleting a layer and resetting the workspace both leave the set
    of selected layer ids as it is. When two or more ids are selected and
    none of them names a layer of the stack, [mergeLayers] ends on a
    destructive 'Error' toast with the layers and the base image
    unchanged, but the history already holds a new snapshot; when the
    image of a selected layer never loads the merge never finishes and
    [isMerging] stays set. *)
Theorem mergeLayers_stale_selection (now : Z) (st : State) :
  (∀ layerId, selectedLayerIds (deleteLayer layerId st) = selectedLayerIds st) ∧
  (∀ h, selectedLayerIds (doc (handleReset h)) = selectedLayerIds (doc h)) ∧
  ((2 ≤ size (selectedLayerIds st))%nat →
   (∀ l, l ∈ layers st → layer_id l ∉ selectedLayerIds st) →
   ∃ st' t,
     mergeLayers imageSizeOf flatten now st = MergeDone st' ∧
     layers st' = layers st ∧ uploadedImage st' = uploadedImage st ∧
     selectedLayerIds st' = selectedLayerIds st ∧
     history st' = history (saveToHistory st) ∧
     historyIndex st' = historyIndex (saveToHistory st) ∧
     isMerging st' = false ∧
     last (toasts st') = Some t ∧ toast_title t = "Error"%string ∧
     toast_destructive t = true) ∧
  ((2 ≤ size (selectedLayerIds st))%nat →
   ∀ l, l ∈ layers st → layer_id l ∈ selectedLayerIds st →
        imageSizeOf (layer_url l) = None →
   ∃ st', mergeLayers imageSizeOf flatten now st = MergePending st' ∧
          isMerging st' = true ∧ layers st' = layers st).
Proof.
  split; [done|]. split; [done|]. split.
  - intros Hsize Hstale. unfold mergeLayers.
    replace (size (selectedLayerIds st) <? 2)%nat with false
      by (symmetry; apply Nat.ltb_ge; lia).
    assert (Hnil : filter (λ l, layer_id l ∈ selectedLayerIds st) (layers st) = []).
    { destruct (filter _ _) as [|l rest] eqn:Hf; [done|].
      assert (Hin : l ∈ filter (λ l, layer_id l ∈ selectedLayerIds st) (layers st))
        by (rewrite Hf; left).
      apply list_elem_of_filter in Hin as [Hsel Hl]. by apply Hstale in Hl. }
    rewrite Hnil. eexists. eexists. split; [reflexivity|].
    cbn. rewrite last_snoc. repeat (split; [done|]). done.
  - intros Hsize l Hl Hsel Hload. unfold mergeLayers.
    replace (size (selectedLayerIds st) <? 2)%nat with false
      by (symmetry; apply Nat.ltb_ge; lia).
    assert (Hin : l ∈ filter (λ l, layer_id l ∈ selectedLayerIds st) (layers st))
      by (by apply list_elem_of_filter).
    destruct (filter _ _) as [|first rest] eqn:Hf; [by apply elem_of_nil in Hin|].
    destruct (imageSizeOf (layer_url first)) as [[w hh]|] eqn:Hfirst.
    + assert (Hall : forallb (λ l, bool_decide (is_Some (imageSizeOf (layer_url l))))
                       (first :: rest) = false).
      { apply not_true_is_false. intros Hall. rewrite forallb_forall in Hall.
        specialize (Hall l). rewrite bool_decide_eq_true, Hload in Hall.
        destruct Hall as [? ?]; [by apply list_elem_of_In | done]. }
      rewrite Hall. by eexists.
    + by eexists.
Qed.

End StaleSelection.

Lemma mergeLayers_stale_selection_witness :
  let st := SegmentArt.deleteLayer "a" (SegmentArt.deleteLayer "b" Fixtures.mergeState) in
  (2 ≤ size (SegmentArt.selectedLayerIds st))%nat ∧
  ∃ st', SegmentArt.mergeLayers Fixtures.sizeAlways100 Fixtures.flattenNames 7 st
         = SegmentArt.MergeDone st' ∧
         SegmentArt.layer_id <$> SegmentArt.layers st' = ["c"; "d"]%string ∧
         length (SegmentArt.history st') = 4%nat.
Proof.
  intros st.
  assert (Hsize : (2 ≤ size (SegmentArt.selectedLayerIds st))%nat).
  { change (SegmentArt.selectedLayerIds st) with ({[ "a"; "b" ]} : gset string)%string.
    rewrite size_union by set_solver. rewrite !size_singleton. lia. }
  split; [exact Hsize|].
  destruct (mergeLayers_stale_selection Fixtures.sizeAlways100 Fixtures.flattenNames 7 st)
    as (_ & _ & Hstale & _).
  destruct Hstale as (st' & t & Hrun & Hlayers & _ & _ & Hhist & _); [exact Hsize | |].
  - intros l Hl. cbn in Hl.
    apply elem_of_cons in Hl as [->|Hl]; [cbn; set_solver|].
    apply elem_of_cons in Hl as [->|Hl]; [cbn; set_solver|].
    by apply elem_of_nil in Hl.
  - exists st'. split; [exact Hrun|]. split; [by rewrite Hlayers|].
    rewrite Hhist. reflexivity.
Defined.

(** ** Zoom *)

Section Zoom.
Import SegmentArt Workspace.

Lemma zoom_steps (k : Z) :
  2 ≤ k ≤ 12 →
  JSNum.min (JSNum.add (zoomLevel k) quarter) (JSNum.ofZ 3) = zoomLevel (Z.min 12 (k + 1)) ∧
  JSMath.max (JSNum.sub (zoomLevel k) quarter) half = zoomLevel (Z.max 2 (k - 1)).
Proof.
  intros Hk.
  assert (k = 2 ∨ k = 3 ∨ k = 4 ∨ k = 5 ∨ k = 6 ∨ k = 7 ∨ k = 8 ∨ k = 9 ∨ k = 10 ∨
          k = 11 ∨ k = 12) as Hcases by lia.
  repeat (destruct Hcases as [->|Hcases]; [split; vm_compute; reflexivity|]).
  subst k. split; vm_compute; reflexivity.
Qed.

(** X17. The zoom factor moves on the grid 0.5, 0.75, ..., 3 (quarters
    from 2/4 to 12/4): zooming in goes one quarter up and stops at 3,
    zooming out goes one quarter down and stops at 0.5, and every state
    reached from the initial one has its zoom factor on that grid. *)
Theorem zoom_on_grid (actions : list Action) (h : Hooks) :
  run actions initialHooks = Some h →
  ∃ k, 2 ≤ k ≤ 12 ∧ scale h = zoomLevel k ∧
       scale (handleZoomIn h) = zoomLevel (Z.min 12 (k + 1)) ∧
       scale (handleZoomOut h) = zoomLevel (Z.max 2 (k - 1)).
Proof.
  assert (Hgen : ∀ h0 k0, 2 ≤ k0 ≤ 12 → scale h0 = zoomLevel k0 →
            run actions h0 = Some h → ∃ k, 2 ≤ k ≤ 12 ∧ scale h = zoomLevel k).
  { induction actions as [|a actions IH]; intros h0 k0 Hk0 Hs0 Hrun.
    - injection Hrun as <-. by exists k0.
    - cbn [run] in Hrun. destruct (act a h0) as [h1|] eqn:Hact; [|done].
      unfold act in Hact. destruct (handler a h0) as [h1'|] eqn:Hh; [|done].
      injection Hact as <-.
      assert (Hs1 : ∃ k1, 2 ≤ k1 ≤ 12 ∧ scale h1' = zoomLevel k1).
      { destruct a; cbn [handler] in Hh.
        - injection Hh as <-. exists k0. split; [done|]. rewrite <- Hs0.
          unfold handleFileUpload. destruct (negb _); [done|].
          destruct readResult as [r|]; [|done]. by destruct (truthy r).
        - injection Hh as <-. by exists k0.
        - injection Hh as <-. by exists k0.
        - injection Hh as <-. by exists k0.
        - injection Hh as <-. by exists k0.
        - destruct (handleUndo (doc h0)); [|done]. injection Hh as <-. by exists k0.
        - destruct (handleRedo (doc h0)); [|done]. injection Hh as <-. by exists k0.
        - injection Hh as <-. exists 4. split; [lia|]. reflexivity.
        - injection Hh as <-. exists (Z.min 12 (k0 + 1)). split; [lia|].
          unfold handleZoomIn. cbn [scale setScale]. rewrite Hs0.
          by apply zoom_steps.
        - injection Hh as <-. exists (Z.max 2 (k0 - 1)). split; [lia|].
          unfold handleZoomOut. cbn [scale setScale]. rewrite Hs0.
          by apply zoom_steps. }
      destruct Hs1 as (k1 & Hk1 & Hs1).
      apply (IH (setDoc (initHistory (doc h1')) h1') k1 Hk1); [exact Hs1 | exact Hrun]. }
  intros Hrun.
  destruct (Hgen initialHooks 4 ltac:(lia) eq_refl Hrun) as (k & Hk & Hs).
  exists k. split; [done|]. split; [done|].
  unfold handleZoomIn, handleZoomOut. cbn [scale setScale]. rewrite Hs.
  by apply zoom_steps.
Qed.

Lemma zoom_on_grid_witness :
  ∃ h k, run (replicate 9 ZoomIn) initialHooks = Some h ∧
         scale h = zoomLevel k ∧ k = 12.
Proof.
  destruct (zoom_on_grid (replicate 9 ZoomIn)
              (Nat.iter 9 (λ h, setDoc (initHistory (doc h)) (handleZoomIn h)) initialHooks)
              eq_refl) as (k & Hk & Hs & _).
  eexists. exists k. split; [reflexivity|]. split; [exact Hs|].
  assert (Hcases : k = 2 ∨ k = 3 ∨ k = 4 ∨ k = 5 ∨ k = 6 ∨ k = 7 ∨ k = 8 ∨ k = 9 ∨
                   k = 10 ∨ k = 11 ∨ k = 12) by lia.
  repeat (destruct Hcases as [->|Hcases]; [vm_compute in Hs; discriminate Hs|]).
  exact Hcases.
Defined.

End Zoom.

(** ** Prompt segmentation *)

Section PromptFacts.
Import SegmentArt Workspace.


Lemma elem_of_matched {A : Type} (P : nat * A → Prop) `{∀ x, Decision (P x)}
    (l : list A) (i : nat) :
  i ∈ fst <$> filter P (imap (λ i x, (i, x)) l) ↔ ∃ x, l !! i = Some x ∧ P (i, x).
Proof.
  rewrite list_elem_of_fmap. split.
  - intros ([i' x] & -> & Hin). apply list_elem_of_filter in Hin as [HP Hin].
    apply elem_of_lookup_imap in Hin as (k & y & Heq & Hk). injection Heq as -> ->.
    by exists y.
  - intros (x & Hx & HP). exists (i, x). split; [done|].
    apply list_elem_of_filter. split; [done|].
    by apply (elem_of_lookup_imap_2 (λ i x, (i, x))).
Qed.


(** The outcome of [handleBgRemoval], by cases. *)
Lemma handleBgRemoval_cases (key : bool) (reply : PromptReply) (h : Hooks) :
  let st := doc h in
  let prompt := trim (JSString.toLowerCase (bgRemovalPrompt h)) in
  let wanted := regionsToSegment key reply prompt (regionLabels st) in
  let sent := fst <$> filter (λ '(_, label), label ∈ wanted)
                        (imap (λ i label, (i, label)) (regionLabels st)) in
  (∃ t, handleBgRemoval key reply h = (setDoc (SegmentArt.toast (toast_title t)
            (toast_description t) true st) h, []) ∧
        (from_option truthy false (uploadedImage st) = false ∨
         truthy (trim (bgRemovalPrompt h)) = false ∨ regionLabels st = [])) ∨
  (from_option truthy false (uploadedImage st) = true ∧
   truthy (trim (bgRemovalPrompt h)) = true ∧ regionLabels st ≠ [] ∧
   (handleBgRemoval key reply h).2 = sent ∧
   let h' := (handleBgRemoval key reply h).1 in
   uploadedImage (doc h') = uploadedImage st ∧ layers (doc h') = layers st ∧
   selectedLayerIds (doc h') = selectedLayerIds st ∧
   isProcessing h' = false ∧
   (sent = [] →
      history (doc h') = history st ∧ historyIndex (doc h') = historyIndex st ∧
      ∃ t, last (toasts (doc h')) = Some t ∧ toast_destructive t = true) ∧
   (sent ≠ [] →
      history (doc h') = history (saveToHistory st) ∧
      historyIndex (doc h') = historyIndex (saveToHistory st) ∧
      ∃ t, last (toasts (doc h')) = Some t ∧ toast_title t = "Success"%string ∧
           toast_destructive t = false)).
Proof.
  intros st prompt wanted sent. unfold handleBgRemoval. fold st.
  destruct (from_option truthy false (uploadedImage st)) eqn:Himg; cbn [negb orb].
  2:{ left. eexists (mkToast _ _ true). split; [reflexivity|]. by left. }
  destruct (truthy (trim (bgRemovalPrompt h))) eqn:Hprompt; cbn [negb].
  2:{ left. eexists (mkToast _ _ true). split; [reflexivity|]. right. by left. }
  destruct (length (regionLabels st) =? 0)%nat eqn:Hlen.
  { left. eexists (mkToast _ _ true). split; [reflexivity|]. right. right.
    apply Nat.eqb_eq in Hlen. by apply nil_length_inv. }
  right. split; [done|]. split; [done|].
  split; [intros Hnil; rewrite Hnil in Hlen; discriminate Hlen|].
  subst sent wanted prompt. cbv zeta.
  destruct (filter _ (imap _ _)) as [|m ms] eqn:Hmatched.
  - split; [done|]. destruct (negb _ && _); cbn; rewrite last_snoc.
    all: do 4 (split; [done|]); split; [|done].
    all: intros _; do 2 (split; [done|]); by eexists.
  - split; [done|]. destruct (negb _ && _); cbn; rewrite last_snoc.
    all: do 4 (split; [done|]); split; [done|].
    all: intros _; do 2 (split; [done|]); by eexists.
Qed.

End PromptFacts.

Section PromptTheorems.
Import SegmentArt Workspace.


(** X19. Once [handleBgRemoval] has an image, a non-blank prompt and
    detected regions, the indices it sends are exactly those of the regions
    whose label is wanted. A usable answer of the language model that
    names a detected label is taken as it is and always sends something;
    without one, a region is sent whenever its lower-cased label occurs in
    the lower-cased, trimmed prompt, and whenever the prompt contains a
    keyword of [FEATURE_GROUPS] whose group holds its label. *)
Theorem handleBgRemoval_matching (key : bool) (reply : PromptReply) (h : Hooks) :
  from_option truthy false (uploadedImage (doc h)) = true →
  truthy (trim (bgRemovalPrompt h)) = true →
  regionLabels (doc h) ≠ [] →
  let prompt := trim (JSString.toLowerCase (bgRemovalPrompt h)) in
  let labels := regionLabels (doc h) in
  let sent := (handleBgRemoval key reply h).2 in
  (∀ i, i ∈ sent ↔
        ∃ label, labels !! i = Some label ∧
                 label ∈ regionsToSegment key reply prompt labels) ∧
  (∀ answered confidence label,
     key = true → reply = ReplyLabels answered confidence →
     confidence ≠ Some "fallback"%string →
     label ∈ answered → label ∈ labels →
     sent ≠ [] ∧
     ∀ i, i ∈ sent ↔ ∃ l, labels !! i = Some l ∧ l ∈ answered) ∧
  (key = false ∨ reply = ReplyUnusable →
   ∀ i label, labels !! i = Some label →
     (JSString.includes prompt (JSString.toLowerCase label) = true → i ∈ sent) ∧
     (∀ keyword group, (keyword, group) ∈ FEATURE_GROUPS →
        JSString.includes prompt keyword = true → label ∈ group → i ∈ sent)).
Proof.
  intros Himg Hprompt Hlabels prompt labels sent.
  destruct (handleBgRemoval_cases key reply h)
    as [(t & _ & [Hf|[Hf|Hf]]) | (_ & _ & _ & Hsent & _)]; [congruence..|].
  cbv zeta in Hsent. fold prompt in Hsent. fold labels in Hsent.
  assert (Hchar : ∀ i, i ∈ sent ↔
            ∃ label, labels !! i = Some label ∧
                     label ∈ regionsToSegment key reply prompt labels).
  { intros i. unfold sent. rewrite Hsent.
    apply (elem_of_matched (λ '(_, label), label ∈ _)). }
  split; [exact Hchar|]. split.
  - intros answered confidence label -> -> Hconf Hans Hdet.
    assert (Hwanted : regionsToSegment true (ReplyLabels answered confidence) prompt labels
                      = filter (λ l, l ∈ labels) answered).
    { unfold regionsToSegment, parseSegmentationPrompt. cbn [negb fst snd].
      assert (Hnf : String.eqb (default "medium"%string confidence) "fallback" = false).
      { apply String.eqb_neq. destruct confidence as [cf|]; cbn; [congruence|done]. }
      rewrite Hnf. cbn [negb andb].
      destruct (filter _ answered) as [|a rest] eqn:Hf; [|done].
      assert (Hin : label ∈ filter (λ l, l ∈ labels) answered)
        by (by apply list_elem_of_filter).
      rewrite Hf in Hin. by apply elem_of_nil in Hin. }
    assert (Hiff : ∀ i, i ∈ sent ↔ ∃ l, labels !! i = Some l ∧ l ∈ answered).
    { intros i. rewrite Hchar, Hwanted. split.
      - intros (l & Hl & Hin). apply list_elem_of_filter in Hin as [_ Hin]. by exists l.
      - intros (l & Hl & Hin). exists l. split; [done|].
        apply list_elem_of_filter. split; [|done]. by eapply list_elem_of_lookup_2. }
    split; [|exact Hiff].
    apply list_elem_of_lookup_1 in Hdet as [i Hi].
    intros Hnil. assert (Hi' : i ∈ sent) by (apply Hiff; by exists label).
    rewrite Hnil in Hi'. by apply elem_of_nil in Hi'.
  - intros Hfallback i label Hi.
    assert (Hwanted : regionsToSegment key reply prompt labels = keywordLabels prompt labels).
    { unfold regionsToSegment, parseSegmentationPrompt.
      destruct Hfallback as [-> | ->]; [done|]. by destruct key. }
    split.
    + intros Hinc. apply Hchar. exists label. split; [done|].
      rewrite Hwanted. unfold keywordLabels. apply elem_of_app. right.
      apply list_elem_of_filter. split; [by left|]. by eapply list_elem_of_lookup_2.
    + intros keyword group Hgroup Hinc Hlab. apply Hchar. exists label. split; [done|].
      rewrite Hwanted. unfold keywordLabels. apply elem_of_app. left.
      apply list_elem_of_In, in_flat_map. exists (keyword, group).
      split; [by apply list_elem_of_In|]. rewrite Hinc. by apply list_elem_of_In.
Qed.

End PromptTheorems.

Lemma handleBgRemoval_matching_witness :
  let st := SegmentArt.mkState (Some "data:base"%string) [] [] (-1) ∅ false false true 5 2
              true ""%string ["skin"; "l_eye"; "r_eye"; "hair"]%string None [] in
  let h := Workspace.mkHooks st KonvaCanvas.select (JSNum.ofZ 1) (0, 0)
             " The Eyes "%string false false None false in
  1%nat ∈ (Workspace.handleBgRemoval false Workspace.ReplyUnusable h).2 ∧
  (3%nat ∈ (Workspace.handleBgRemoval false Workspace.ReplyUnusable h).2 →
   "hair"%string ∈ Workspace.regionsToSegment false Workspace.ReplyUnusable "the eyes"
                     ["skin"; "l_eye"; "r_eye"; "hair"]%string).
Proof.
  intros st h.
  destruct (handleBgRemoval_matching false Workspace.ReplyUnusable h)
    as (Hsent & _ & Hkey).
  - reflexivity.
  - reflexivity.
  - discriminate.
  - split.
    + destruct (Hkey (or_introl eq_refl) 1%nat "l_eye"%string eq_refl) as [_ Hgroup].
      apply (Hgroup "eyes"%string ["l_eye"; "r_eye"]%string).
      * by left.
      * reflexivity.
      * by left.
    + intros H3. apply Hsent in H3 as (label & Hlabel & Hwanted).
      injection Hlabel as <-. exact Hwanted.
Defined.

(** ** The rate limiter *)

Section RateLimitFacts.
Import RateLimit.

Lemma filter_length_mono {A : Type} (P Q : A → Prop)
    `{∀ x, Decision (P x)} `{∀ x, Decision (Q x)} (l : list A) :
  (∀ x, x ∈ l → P x → Q x) → (length (filter P l) ≤ length (filter Q l))%nat.
Proof.
  induction l as [|a l IH]; intros Himp; [done|].
  assert (IH' : (length (filter P l) ≤ length (filter Q l))%nat).
  { apply IH. intros x Hx. apply Himp. by right. }
  rewrite !filter_cons.
  destruct (decide (P a)) as [HP|HP].
  - rewrite decide_True by (apply Himp; [by left|done]). cbn. lia.
  - destruct (decide (Q a)); cbn; lia.
Qed.

Lemma filter_filter_weaker {A : Type} (P Q : A → Prop)
    `{∀ x, Decision (P x)} `{∀ x, Decision (Q x)} (l : list A) :
  (∀ x, x ∈ l → P x → Q x) → filter P (filter Q l) = filter P l.
Proof.
  induction l as [|a l IH]; intros Himp; [done|].
  assert (IH' : filter P (filter Q l) = filter P l).
  { apply IH. intros x Hx. apply Himp. by right. }
  rewrite (filter_cons Q). destruct (decide (Q a)) as [HQ|HQ].
  - rewrite !filter_cons. destruct (decide (P a)); by rewrite IH'.
  - rewrite IH', filter_cons. rewrite decide_False; [done|].
    intros HP. apply HQ, Himp; [by left|done].
Qed.

Variable clock : nat → Z.
Hypothesis clock_mono : ∀ k, clock k ≤ clock (S k).

Lemma canMakeRequest_inv (L : Z) (s : Limiter) (sent : list Z) :
  limiterInv clock L s sent →
  limiterInv clock (clock (tick s)) (canMakeRequest clock s).2 sent ∧
  ((canMakeRequest clock s).1 = true →
   (length (filter (λ t, (clock (tick s) - t < requestWindow)%Z) sent)
    < maxRequestsPerMinute)%nat).
Proof.
  intros (HL & Hle & Hagree & Hbound). split.
  - split; [apply clock_mono|]. split; [intros t Ht; specialize (Hle t Ht); lia|].
    split; [|exact Hbound].
    intros T HT. unfold canMakeRequest. cbn [snd requests]. rewrite <- Hagree by lia.
    apply filter_filter_weaker. intros t _ Ht. lia.
  - unfold canMakeRequest. cbn [fst]. intros Hok. apply Nat.ltb_lt in Hok.
    by rewrite Hagree in Hok by done.
Qed.

Lemma waitForRateLimit_inv (fuel : nat) :
  ∀ (L : Z) (s s' : Limiter) (sent : list Z) (pauses : nat),
    limiterInv clock L s sent →
    waitForRateLimit clock fuel s = Some (s', pauses) →
    ∃ L', limiterInv clock L' s' sent ∧
          (length (filter (λ t, (L' - t < requestWindow)%Z) sent) < maxRequestsPerMinute)%nat.
Proof.
  induction fuel as [|fuel IH]; intros L s s' sent pauses Hinv Hrun; [discriminate Hrun|].
  cbn [waitForRateLimit] in Hrun.
  destruct (canMakeRequest_inv L s sent Hinv) as [Hinv' Hok].
  destruct (canMakeRequest clock s) as [ok s1] eqn:Hcan. cbn [fst snd] in *.
  destruct ok.
  - injection Hrun as <- <-. exists (clock (tick s)). split; [done|]. by apply Hok.
  - destruct (waitForRateLimit clock fuel s1) as [[s2 p]|] eqn:Hrec; [|discriminate Hrun].
    injection Hrun as <- <-. by eapply IH.
Qed.

Lemma addRequest_inv (L : Z) (s : Limiter) (sent : list Z) :
  limiterInv clock L s sent →
  (length (filter (λ t, (L - t < requestWindow)%Z) sent) < maxRequestsPerMinute)%nat →
  limiterInv clock (clock (tick s)) (addRequest clock s) (sent ++ [clock (tick s)]).
Proof.
  intros (HL & Hle & Hagree & Hbound) Hroom.
  pose proof (clock_mono (tick s)) as Hnext.
  unfold limiterInv, addRequest. cbn [requests tick].
  remember (clock (tick s)) as now eqn:Hnow in *. clear Hnow.
  split; [exact Hnext|].
  split.
  { intros t Ht. apply elem_of_app in Ht as [Ht|Ht].
    - specialize (Hle t Ht). lia.
    - apply list_elem_of_singleton in Ht. lia. }
  split.
  { intros T HT. rewrite !filter_app. f_equal. apply Hagree. lia. }
  intros T. unfold inWindow. rewrite filter_app, length_app.
  destruct (decide (now ≤ T)) as [Hlate|Hearly].
  - assert (Hold : (length (filter (λ time, (T - requestWindow < time ∧ time ≤ T)%Z) sent)
                    ≤ length (filter (λ t, (L - t < requestWindow)%Z) sent))%nat).
    { apply filter_length_mono. intros t _ [Hlo _]. lia. }
    assert (Hnew : (length (filter (λ time, (T - requestWindow < time ∧ time ≤ T)%Z) [now])
                    ≤ 1)%nat).
    { rewrite filter_cons. destruct (decide _); cbn; lia. }
    unfold maxRequestsPerMinute in *. lia.
  - rewrite filter_cons, decide_False by lia. cbn. rewrite Nat.add_0_r. apply Hbound.
Qed.

Lemma session_inv (fuel n : nat) :
  ∀ (L : Z) (s s' : Limiter) (sent times : list Z),
    limiterInv clock L s sent →
    session clock fuel n s = Some (s', times) →
    ∃ L', limiterInv clock L' s' (sent ++ times).
Proof.
  induction n as [|n IH]; intros L s s' sent times Hinv Hrun.
  - injection Hrun as <- <-. exists L. by rewrite app_nil_r.
  - cbn [session] in Hrun. unfold guardedRequest in Hrun.
    destruct (waitForRateLimit clock fuel s) as [[s1 p]|] eqn:Hwait; [|discriminate Hrun].
    destruct (session clock fuel n (addRequest clock s1)) as [[s2 ts]|] eqn:Hrec;
      [|discriminate Hrun].
    injection Hrun as <- <-.
    destruct (waitForRateLimit_inv fuel L s s1 sent p Hinv Hwait) as (L1 & Hinv1 & Hroom).
    pose proof (addRequest_inv L1 s1 sent Hinv1 Hroom) as Hinv2.
    destruct (IH _ _ _ _ _ Hinv2 Hrec) as (L' & Hinv').
    exists L'. by rewrite <- app_assoc in Hinv'.
Qed.

Lemma limiterInv_start : limiterInv clock (clock 0) (mkLimiter [] 0) [].
Proof.
  split; [done|]. split; [intros t Ht; by apply elem_of_nil in Ht|].
  split; [done|]. intros T. cbn. lia.
Qed.

End RateLimitFacts.

Section RateLimitTheorems.
Import RateLimit.

(** X20. Requests that go through the limiter one after the other, from
    its empty start, never exceed the rate: as long as the clock does not
    run backwards, every window of one minute holds at most twenty of the
    times recorded by [addRequest]. *)
Theorem rate_limit_sliding_window (clock : nat → Z) (fuel n : nat)
    (s' : Limiter) (times : list Z) :
  (∀ k, clock k ≤ clock (S k)) →
  session clock fuel n (mkLimiter [] 0) = Some (s', times) →
  ∀ T, (length (inWindow T times) ≤ maxRequestsPerMinute)%nat.
Proof.
  intros Hmono Hrun T.
  destruct (session_inv clock Hmono fuel n (clock 0%nat) (mkLimiter [] 0) s' [] times
              (limiterInv_start clock) Hrun) as (L' & _ & _ & _ & Hbound).
  apply Hbound.
Qed.

(** X21. [waitForRateLimit] gives way after at most twelve pauses: when no
    recorded time lies in the future and every pause lasts at least its
    five seconds on the clock, the loop ends within thirteen tests, with
    fewer than twenty requests left in the list. *)
Theorem waitForRateLimit_terminates (clock : nat → Z) (s : Limiter) :
  Forall (λ time, time ≤ clock (tick s)) (requests s) →
  (∀ j, (j < 12)%nat → clock (tick s + j)%nat + pause ≤ clock (tick s + S j)%nat) →
  ∃ s' pauses,
    waitForRateLimit clock 13 s = Some (s', pauses) ∧ (pauses ≤ 12)%nat ∧
    (length (requests s') < maxRequestsPerMinute)%nat ∧
    tick s' = (tick s + S pauses)%nat.
Proof.
  intros Hpast Hpause.
  set (t0 := tick s). set (c0 := clock t0).
  assert (Hgen : ∀ fuel j s1,
            (fuel + j = 13)%nat → (j ≤ 12)%nat → tick s1 = (t0 + j)%nat →
            Forall (λ time, time ≤ c0) (requests s1) →
            ∃ s' pauses,
              waitForRateLimit clock fuel s1 = Some (s', pauses) ∧
              (pauses + j ≤ 12)%nat ∧
              (length (requests s') < maxRequestsPerMinute)%nat ∧
              tick s' = (tick s1 + S pauses)%nat).
  { assert (Hclock : ∀ j, (j ≤ 12)%nat → c0 + pause * Z.of_nat j ≤ clock (t0 + j)%nat).
    { induction j as [|j IHj]; intros Hj.
      - rewrite Nat.add_0_r. unfold c0. lia.
      - specialize (Hpause j ltac:(lia)). specialize (IHj ltac:(lia)).
        fold t0 in Hpause. lia. }
    induction fuel as [|fuel IH]; intros j s1 Hfuel Hj12 Htick Hreq.
    - exfalso. lia.
    - cbn [waitForRateLimit]. unfold canMakeRequest.
      set (kept := filter _ (requests s1)).
      destruct (length kept <? maxRequestsPerMinute)%nat eqn:Hok.
      + exists (mkLimiter kept (S (tick s1))), 0%nat.
        split; [done|]. split; [lia|]. split; [by apply Nat.ltb_lt|]. cbn. lia.
      + assert (Hj : (j < 12)%nat).
        { destruct (decide (j < 12)%nat) as [|Hbig]; [done|]. exfalso.
          assert (j = 12%nat) as -> by lia.
          assert (Hnil : kept = []).
          { apply elem_of_nil_inv. intros time Hin. unfold kept in Hin.
            apply list_elem_of_filter in Hin as [Hlt Hin]. rewrite Forall_forall in Hreq.
            specialize (Hreq time Hin). specialize (Hclock 12%nat ltac:(lia)).
            rewrite Htick in Hlt. unfold requestWindow, pause in *. lia. }
          rewrite Hnil in Hok. discriminate Hok. }
        destruct (IH (S j) (mkLimiter kept (S (tick s1)))) as (s' & p & Hrun & Hp & Hlen & Ht).
        * lia.
        * lia.
        * cbn. lia.
        * cbn. unfold kept. apply Forall_forall. intros time Hin.
          apply list_elem_of_filter in Hin as [_ Hin].
          rewrite Forall_forall in Hreq. by apply Hreq.
        * exists s', (S p). rewrite Hrun. split; [done|]. split; [lia|].
          split; [done|]. cbn in Ht. lia. }
  destruct (Hgen 13%nat 0%nat s) as (s' & p & Hrun & Hp & Hlen & Ht).
  - done.
  - lia.
  - unfold t0. lia.
  - exact Hpast.
  - exists s', p. split; [done|]. split; [lia|]. done.
Qed.

End RateLimitTheorems.

Lemma rate_limit_sliding_window_witness :
  let clock := λ k : nat, 1000 * Z.of_nat k in
  ∃ s' times,
    RateLimit.session clock 40 25 (RateLimit.mkLimiter [] 0) = Some (s', times) ∧
    length times = 25%nat ∧
    ∀ T, (length (RateLimit.inWindow T times) ≤ RateLimit.maxRequestsPerMinute)%nat.
Proof.
  intros clock.
  destruct (RateLimit.session clock 40 25 (RateLimit.mkLimiter [] 0))
    as [[s' times]|] eqn:Hrun; [|by vm_compute in Hrun].
  exists s', times. split; [done|]. split.
  - vm_compute in Hrun. injection Hrun as _ <-. reflexivity.
  - apply (rate_limit_sliding_window clock 40 25 s' times); [|exact Hrun].
    intros k. unfold clock. lia.
Defined.

Lemma waitForRateLimit_terminates_witness :
  let clock := λ k : nat, 5000 * Z.of_nat k in
  let s := RateLimit.mkLimiter (replicate 20 0) 0 in
  ∃ s' pauses,
    RateLimit.waitForRateLimit clock 13 s = Some (s', pauses) ∧ (pauses ≤ 12)%nat ∧
    (length (RateLimit.requests s') < RateLimit.maxRequestsPerMinute)%nat ∧
    RateLimit.tick s' = (RateLimit.tick s + S pauses)%nat.
Proof.
  intros clock s.
  apply (waitForRateLimit_terminates clock s).
  - apply Forall_forall. intros time Hin. apply elem_of_replicate in Hin as [-> _].
    vm_compute. discriminate.
  - intros j Hj. unfold clock, RateLimit.pause. cbn [RateLimit.tick s]. lia.
Defined.

(** ** Face or landscape *)

Section ImageTypeFacts.
Import Workspace ImageTypeDetection.

Lemma largestPerson_elem (first : Detection) (rest : list Detection) :
  largestPerson first rest ∈ first :: rest.
Proof.
  unfold largestPerson. revert first.
  induction rest as [|d rest IH]; intros first; [by left|].
  cbn [fold_left]. destruct (JSMath.gtb (area d) (area first)).
  - right. apply IH.
  - specialize (IH first). apply elem_of_cons in IH as [->|IH]; [by left|].
    right. by right.
Qed.

Lemma classify_face (detections : list Detection) :
  classify detections = face →
  ∃ d, d ∈ detections ∧ label d = "person"%string ∧
       JSMath.gtb (score d) scoreThreshold = true ∧
       JSMath.gtb (area d) areaThreshold = true.
Proof.
  unfold classify. destruct (List.filter isPerson detections) as [|first rest] eqn:Hf;
    [discriminate|].
  destruct (JSMath.gtb (area (largestPerson first rest)) areaThreshold) eqn:Harea;
    [|discriminate].
  intros _. exists (largestPerson first rest).
  pose proof (largestPerson_elem first rest) as Hin. rewrite <- Hf in Hin.
  apply list_elem_of_In, filter_In in Hin as [Hin Hperson].
  unfold isPerson in Hperson. apply andb_true_iff in Hperson as [Hlabel Hscore].
  split; [by apply list_elem_of_In|]. split; [by apply String.eqb_eq|]. done.
Qed.

Variable response : nat → Response.

Lemma detectLoop_spec (retries : nat) :
  ∀ n result evs,
    detectLoop response retries n = (result, evs) →
    Api.requests evs = seq n (length (Api.requests evs)) ∧
    (length (Api.requests evs) ≤ retries)%nat ∧
    Forall (λ ms, ms = 3000 ∨ ms = 1000) (Api.delays evs) ∧
    (result = face →
     ∃ k detections, (n ≤ k < n + retries)%nat ∧ response k = Ok detections ∧
                     classify detections = face ∧
                     last evs = Some (Api.Request k)).
Proof.
  induction retries as [|retries IH]; intros n result evs Hrun.
  - injection Hrun as <- <-. cbn. split; [done|]. split; [lia|]. split; [done|]. done.
  - cbn [detectLoop] in Hrun.
    assert (Hstep : ∀ ms, ms = 3000 ∨ ms = 1000 →
              (let '(result, evs) := detectLoop response retries (S n) in
               (result, Api.Request n :: Api.Delay ms :: evs)) = (result, evs) →
              Api.requests evs = seq n (length (Api.requests evs)) ∧
              (length (Api.requests evs) ≤ S retries)%nat ∧
              Forall (λ ms, ms = 3000 ∨ ms = 1000) (Api.delays evs) ∧
              (result = face →
               ∃ k detections, (n ≤ k < n + S retries)%nat ∧ response k = Ok detections ∧
                               classify detections = face ∧
                               last evs = Some (Api.Request k))).
    { intros ms Hms Hrec.
      destruct (detectLoop response retries (S n)) as [r evs'] eqn:Hloop.
      injection Hrec as <- <-.
      destruct (IH (S n) r evs' Hloop) as (Hreq & Hlen & Hdel & Hface).
      assert (Hr1 : Api.requests (Api.Request n :: Api.Delay ms :: evs')
                    = n :: Api.requests evs') by reflexivity.
      assert (Hd1 : Api.delays (Api.Request n :: Api.Delay ms :: evs')
                    = ms :: Api.delays evs') by reflexivity.
      rewrite Hr1, Hd1. cbn [length seq].
      split; [f_equal; exact Hreq|]. split; [lia|].
      split; [by constructor|].
      intros Hr. destruct (Hface Hr) as (k & detections & Hk & Hresp & Hcl & Hlast).
      exists k, detections. split; [lia|]. split; [done|]. split; [done|].
      destruct evs' as [|e evs'']; [discriminate Hlast|]. exact Hlast. }
    destruct (response n) as [|status errorText|detections] eqn:Hresp.
    + destruct (retries =? 0)%nat; [|by apply (Hstep 1000); [right|]].
      injection Hrun as <- <-. cbn. split; [done|]. split; [lia|]. split; [done|]. done.
    + destruct ((status =? 503) || _); [by apply (Hstep 3000); [left|]|].
      injection Hrun as <- <-. cbn. split; [done|]. split; [lia|]. split; [done|]. done.
    + injection Hrun as <- <-. cbn. split; [done|]. split; [lia|]. split; [done|].
      intros Hface. exists n, detections. split; [lia|]. done.
Qed.

End ImageTypeFacts.

Section ImageTypeTheorem.
Import Workspace ImageTypeDetection.

(** X22. [detectImageType] makes at most two requests, numbered from 0,
    and waits 3000 ms or 1000 ms between them. It answers 'face' only with
    a valid key and when the last request it made was answered by a list
    that holds a detection labelled 'person' whose score is above 0.7 and
    whose box area is above 0.20; everything else ends in 'landscape'. *)
Theorem detectImageType_face_evidence (response : nat → Response) (hfKeyValid : bool) :
  let result := (detectImageType response hfKeyValid).1 in
  let evs := (detectImageType response hfKeyValid).2 in
  Api.requests evs = seq 0 (length (Api.requests evs)) ∧
  (length (Api.requests evs) ≤ 2)%nat ∧
  Forall (λ ms, ms = 3000 ∨ ms = 1000) (Api.delays evs) ∧
  (hfKeyValid = false → result = landscape ∧ evs = []) ∧
  (result = face →
   hfKeyValid = true ∧
   ∃ k detections d,
     (k < 2)%nat ∧ response k = Ok detections ∧ last evs = Some (Api.Request k) ∧
     d ∈ detections ∧ label d = "person"%string ∧
     JSMath.gtb (score d) scoreThreshold = true ∧
     JSMath.gtb (area d) areaThreshold = true).
Proof.
  intros result evs. unfold result, evs, detectImageType.
  destruct hfKeyValid; cbn [negb].
  - destruct (detectLoop response 2 0) as [r es] eqn:Hrun. cbn [fst snd].
    destruct (detectLoop_spec response 2 0%nat r es Hrun) as (Hreq & Hlen & Hdel & Hface).
    split; [done|]. split; [done|]. split; [done|]. split; [done|].
    intros Hr. split; [done|].
    destruct (Hface Hr) as (k & detections & Hk & Hresp & Hcl & Hlast).
    destruct (classify_face detections Hcl) as (d & Hin & Hl & Hs & Ha).
    exists k, detections, d. split; [lia|]. done.
  - cbn. split; [done|]. split; [lia|]. split; [done|]. split; [done|]. discriminate.
Qed.

End ImageTypeTheorem.

(** ** The prompt of the fill *)

Section PromptNotBlank.
Import SegmentArt.

Lemma truthy_trimStart (s : string) : truthy (trimStart s) = hasInk s.
Proof.
  induction s as [|c t IH]; [done|]. cbn [trimStart hasInk].
  destruct (isSpace c); cbn [negb orb]; [exact IH|done].
Qed.

Lemma hasInk_trimStart (s : string) : hasInk (trimStart s) = hasInk s.
Proof.
  induction s as [|c t IH]; [done|]. cbn [trimStart hasInk].
  destruct (isSpace c) eqn:Hc; cbn [negb orb hasInk]; [exact IH|by rewrite Hc].
Qed.

Lemma hasInk_rev_app (s1 : string) :
  ∀ s2, hasInk (String.rev_app s1 s2) = hasInk s1 || hasInk s2.
Proof.
  induction s1 as [|c t IH]; intros s2; [done|].
  cbn [String.rev_app]. rewrite IH. cbn [hasInk].
  destruct (negb (isSpace c)), (hasInk t), (hasInk s2); done.
Qed.

Lemma truthy_rev_app (s1 : string) :
  ∀ s2, truthy (String.rev_app s1 s2) = truthy s1 || truthy s2.
Proof.
  induction s1 as [|c t IH]; intros s2; [done|].
  cbn [String.rev_app]. rewrite IH. cbn. by rewrite orb_true_r.
Qed.

Lemma hasInk_rev (s : string) : hasInk (String.rev s) = hasInk s.
Proof. unfold String.rev. rewrite hasInk_rev_app. cbn. by rewrite orb_false_r. Qed.

Lemma truthy_rev (s : string) : truthy (String.rev s) = truthy s.
Proof. unfold String.rev. rewrite truthy_rev_app. cbn. by rewrite orb_false_r. Qed.

Lemma truthy_trim (s : string) : truthy (trim s) = hasInk s.
Proof.
  unfold trim. by rewrite truthy_rev, truthy_trimStart, hasInk_rev, hasInk_trimStart.
Qed.

Lemma hasInk_trim (s : string) : hasInk (trim s) = hasInk s.
Proof.
  unfold trim. by rewrite hasInk_rev, hasInk_trimStart, hasInk_rev, hasInk_trimStart.
Qed.

(** X23. The prompt [generateSmartPrompt] builds is never blank: whatever
    was typed, its trimmed form is a non-empty string. With the automatic
    prompt switched on, what was typed is ignored as soon as facial
    features are reported. *)
Theorem generateSmartPrompt_never_blank (st : State) (hasFacialFeatures : bool) :
  truthy (trim (generateSmartPrompt st hasFacialFeatures)) = true ∧
  (autoPrompt st = true → hasFacialFeatures = true →
   generateSmartPrompt st hasFacialFeatures
   = "smooth natural human skin, realistic skin texture, natural skin tone, seamless"%string).
Proof.
  split.
  - rewrite truthy_trim. unfold generateSmartPrompt.
    destruct (negb (autoPrompt st) && truthy (trim (contentFillPrompt st))) eqn:Htyped.
    + apply andb_true_iff in Htyped as [_ Htyped]. by rewrite truthy_trim in Htyped.
    + destruct (hasFacialFeatures || _); [reflexivity|].
      destruct (truthy (trim (contentFillPrompt st))) eqn:Hprompt; [|reflexivity].
      rewrite hasInk_trim. by rewrite truthy_trim in Hprompt.
  - intros Hauto ->. unfold generateSmartPrompt. by rewrite Hauto.
Qed.

End PromptNotBlank.
